(** * Health assessment engine of [src/backend/main.py]

    Shallow embedding of the calculation pipeline behind the [/assess]
    endpoint.  Python floats are IEEE binary64 numbers and are modelled by
    the kernel's primitive floats ([PrimFloat]); every [+ - * /] on floats in
    the source is the corresponding correctly rounded primitive operation.
    Python ints (the age) are [Z].  Strings are [String.string]; lists are
    [list]; the dicts built by the source are records or association lists. *)

From Stdlib Require Import ZArith Bool List String Lia Reals Lra.
From Stdlib Require Import Floats.
Import ListNotations.

Set Warnings "-inexact-float".

Open Scope string_scope.

(** ** Python float primitives *)

Module Py.

Local Open Scope Z_scope.

(** Exceptions that the pipeline can raise. *)
Inductive exc := ZeroDivisionError | OverflowError | ValueError.

(** A computation that returns a value or raises. *)
Inductive result (A : Type) := Ok (a : A) | Raise (e : exc).
Arguments Ok {A} a.
Arguments Raise {A} e.

Definition bind {A B} (m : result A) (k : A -> result B) : result B :=
  match m with Ok a => k a | Raise e => Raise e end.

Notation "'let!' x := m 'in' k" := (bind m (fun x => k))
  (at level 200, x name, m at level 100, k at level 200).

(** [float(n)] for a Python int: correctly rounded conversion. *)
Definition float_of_int (n : Z) : float :=
  SF2Prim (binary_normalize prec emax n 0 false).

Definition is_finite_b (x : float) : bool :=
  match Prim2SF x with S754_finite _ _ _ | S754_zero _ => true | _ => false end.

(** Round-half-to-even of the rational [num / 2^k] (k > 0), [num >= 0]. *)
Definition rhe_shift (num : Z) (k : positive) : Z :=
  let den := Z.pow 2 (Zpos k) in
  let q := Z.div num den in
  let r := Z.modulo num den in
  match Z.compare (2 * r) den with
  | Lt => q
  | Gt => q + 1
  | Eq => if Z.even q then q else q + 1
  end.

(** Exact value of a finite float times [10^n], rounded half-to-even to an
    integer: the decimal digits that CPython's [_Py_dg_dtoa] (mode 3) keeps. *)
Definition scaled_round (s : bool) (m : positive) (e : Z) (n : Z) : Z :=
  let num := Zpos m * Z.pow 10 n in
  let k := match e with
           | Zneg p => rhe_shift num p
           | _ => num * Z.pow 2 e
           end in
  if s then Z.opp k else k.

(** [round(x, n)] for [n >= 0] (CPython [double_round]): the value is
    rounded half-to-even to [n] decimals, and the decimal string is read
    back with a correctly rounded [strtod], i.e. the nearest double to
    [k / 10^n].  Zeros, infinities and NaN round to themselves. *)
Definition round_nd (x : float) (n : Z) : float :=
  match Prim2SF x with
  | S754_finite s m e =>
      let k := scaled_round s m e n in
      match k with
      | Z0 => if s then (-0)%float else 0%float
      | Zpos p => SF2Prim (SFdiv prec emax (S754_finite false p 0)
                                          (S754_finite false (Z.to_pos (Z.pow 10 n)) 0))
      | Zneg p => SF2Prim (SFdiv prec emax (S754_finite true p 0)
                                          (S754_finite false (Z.to_pos (Z.pow 10 n)) 0))
      end
  | _ => x
  end.

(** [round(x)] without [ndigits] (CPython [float___round___impl]): the
    nearest int, ties to even; infinities raise [OverflowError], NaN raises
    [ValueError]. *)
Definition round_int (x : float) : result Z :=
  match Prim2SF x with
  | S754_finite s m e => Ok (scaled_round s m e 0)
  | S754_zero _ => Ok 0%Z
  | S754_infinity _ => Raise OverflowError
  | S754_nan => Raise ValueError
  end.

(** [x / y] on floats: [ZeroDivisionError] when [y == 0.0]. *)
Definition fdiv (x y : float) : result float :=
  if (y =? 0)%float then Raise ZeroDivisionError else Ok (x / y)%float.

(** [x ** 2] on floats (CPython [float_pow]): the C library's [pow(x, 2.0)],
    here the argument [pow2]; a finite base whose power is infinite raises
    [OverflowError]; an infinite or NaN base is returned without a call
    error. *)
Definition fpow2 (pow2 : float -> float) (x : float) : result float :=
  let r := pow2 x in
  if is_finite_b x && PrimFloat.is_infinity r then Raise OverflowError else Ok r.

End Py.

Import Py.

(** ** Data model (the pydantic models of the source) *)

Record UserHealthInfo := {
  name : string;
  age : Z;
  gender : string;
  height : float;
  weight : float;
  activity_level : string;
  goal : string;
  dietary_preference : option string;
  medical_conditions : option (list string)
}.

(** The dict returned by [calculate_ideal_weight]. *)
Record IdealWeight := {
  min_kg : float;
  max_kg : float;
  range : string
}.

(** The dict returned by [calculate_macros]. *)
Record Macros := {
  protein : float;
  carbs : float;
  fats : float
}.

Record HealthAssessment := {
  bmi : float;
  bmi_category : string;
  bmr : float;
  daily_calories : float;
  protein_grams : float;
  carbs_grams : float;
  fats_grams : float;
  water_liters : float;
  ideal_weight_range : IdealWeight;
  health_risks : list string;
  recommendations : list string
}.

(** One day of [generate_workout_plan]. *)
Record Workout := {
  day : string;
  type_ : string;
  activity : string;
  duration : string;
  intensity : string
}.

(** One slot of [generate_meal_suggestions]. *)
Record Meal := {
  meal : string;
  calories : Z;
  suggestions : list string
}.

Record PersonalizedPlan := {
  user_info : UserHealthInfo;
  assessment : HealthAssessment;
  workout_plan : list Workout;
  meal_suggestions : list Meal;
  lifestyle_tips : list string;
  weekly_goals : list (string * string)
}.

(** [str.lower], on the ASCII letters. *)
Fixpoint lower (s : string) : string :=
  match s with
  | EmptyString => EmptyString
  | String c r =>
      let n := Ascii.nat_of_ascii c in
      let c' := if (65 <=? n)%nat && (n <=? 90)%nat
                then Ascii.ascii_of_nat (n + 32) else c in
      String c' (lower r)
  end.

(** [', '.join(xs)] *)
Fixpoint join_comma (xs : list string) : string :=
  match xs with
  | [] => ""
  | [x] => x
  | x :: r => x ++ ", " ++ join_comma r
  end.

(** [dict.get(k, d)] on an association list. *)
Fixpoint dict_get {A} (d : list (string * A)) (k : string) (dflt : A) : A :=
  match d with
  | [] => dflt
  | (k', v) :: r => if String.eqb k k' then v else dict_get r k dflt
  end.

Local Open Scope float_scope.

(** ** Health calculations *)

Section Engine.

(** The C library's [pow(x, 2.0)], which CPython's [x ** 2] calls. *)
Variable pow2 : float -> float.
(** [str(x)] of a float, as used by the f-strings of the source. *)
Variable float_str : float -> string.

Definition calculate_bmi (weight height : float) : result float :=
  let height_m := height / 100 in
  let! sq := fpow2 pow2 height_m in
  let! q := fdiv weight sq in
  Ok (round_nd q 2).

Definition get_bmi_category (bmi : float) : string :=
  if bmi <? 18.5 then "Underweight"
  else if (18.5 <=? bmi) && (bmi <? 25) then "Normal weight"
  else if (25 <=? bmi) && (bmi <? 30) then "Overweight"
  else "Obese".

Definition calculate_bmr (weight height : float) (age : Z) (gender : string) : float :=
  let bmr :=
    if String.eqb (lower gender) "male"
    then 10 * weight + 6.25 * height - float_of_int (5 * age)%Z + 5
    else 10 * weight + 6.25 * height - float_of_int (5 * age)%Z - 161 in
  round_nd bmr 2.

Definition activity_multipliers : list (string * float) :=
  [("sedentary", 1.2); ("lightly_active", 1.375); ("moderately_active", 1.55);
   ("very_active", 1.725); ("extra_active", 1.9)].

Definition calculate_daily_calories (bmr : float) (activity_level goal : string) : float :=
  let tdee := bmr * dict_get activity_multipliers activity_level 1.2 in
  if String.eqb goal "lose_weight" then round_nd (tdee - 500) 2
  else if String.eqb goal "gain_muscle" then round_nd (tdee + 300) 2
  else round_nd tdee 2.

(** The three percentages chosen by [calculate_macros]. *)
Definition macro_percents (goal : string) : float * float * float :=
  if String.eqb goal "lose_weight" then (0.35, 0.35, 0.30)
  else if String.eqb goal "gain_muscle" then (0.30, 0.45, 0.25)
  else (0.25, 0.50, 0.25).

Definition calculate_macros (daily_calories : float) (goal : string) : Macros :=
  let '(protein_percent, carbs_percent, fats_percent) := macro_percents goal in
  {| protein := round_nd ((daily_calories * protein_percent) / 4) 2;
     carbs := round_nd ((daily_calories * carbs_percent) / 4) 2;
     fats := round_nd ((daily_calories * fats_percent) / 9) 2 |}.

Definition calculate_ideal_weight (height : float) (gender : string) : result IdealWeight :=
  let height_m := height / 100 in
  let! sq := fpow2 pow2 height_m in
  let min_weight := round_nd (18.5 * sq) 1 in
  let! sq' := fpow2 pow2 height_m in
  let max_weight := round_nd (24.9 * sq') 1 in
  Ok {| min_kg := min_weight; max_kg := max_weight;
        range := float_str min_weight ++ "-" ++ float_str max_weight ++ " kg" |}.

Definition assess_health_risks (bmi : float) (age : Z)
    (medical_conditions : option (list string)) : list string :=
  let risks :=
    if bmi <? 18.5 then
      ["Increased risk of nutritional deficiencies and weakened immune system";
       "Potential bone density issues"]
    else if (25 <=? bmi) && (bmi <? 30) then
      ["Moderate risk of cardiovascular disease";
       "Increased risk of type 2 diabetes"]
    else if 30 <=? bmi then
      ["High risk of cardiovascular disease";
       "Significantly increased risk of type 2 diabetes";
       "Risk of sleep apnea and joint problems";
       "Increased risk of certain cancers"]
    else [] in
  let risks :=
    if (40 <? age)%Z && (25 <=? bmi)
    then app risks ["Age-related metabolic slowdown combined with excess weight"]
    else risks in
  let risks :=
    match medical_conditions with
    | Some ((_ :: _) as mc) =>
        app risks ["Existing conditions require medical supervision: " ++ join_comma mc]
    | _ => risks
    end in
  match risks with
  | [] => ["No significant health risks identified"]
  | _ => risks
  end.

Definition generate_recommendations (user : UserHealthInfo) (bmi : float)
    (bmi_category : string) : list string :=
  let recs :=
    if bmi <? 18.5 then
      ["Focus on nutrient-dense, calorie-rich foods";
       "Incorporate strength training to build muscle mass";
       "Eat 5-6 smaller meals throughout the day";
       "Consider protein shakes as supplements"]
    else if 25 <=? bmi then
      ["Create a sustainable calorie deficit through balanced eating";
       "Increase physical activity gradually";
       "Focus on whole foods and reduce processed foods";
       "Practice portion control and mindful eating"]
    else [] in
  let recs :=
    if String.eqb user.(goal) "lose_weight" then
      app recs ["Aim for 0.5-1 kg weight loss per week for sustainable results";
               "Combine cardio exercises with strength training";
               "Stay hydrated - drink water before meals";
               "Get 7-9 hours of quality sleep per night"]
    else if String.eqb user.(goal) "gain_muscle" then
      app recs ["Prioritize progressive overload in strength training";
               "Ensure adequate protein intake (1.6-2.2g per kg body weight)";
               "Allow proper recovery time between workouts";
               "Consider creatine supplementation (consult a professional)"]
    else if String.eqb user.(goal) "improve_fitness" then
      app recs ["Include a mix of cardio, strength, and flexibility training";
               "Set specific, measurable fitness goals";
               "Track your progress weekly";
               "Gradually increase workout intensity"]
    else recs in
  let recs :=
    if String.eqb user.(activity_level) "sedentary" then
      app recs ["Start with 10-15 minute walks daily and gradually increase";
               "Take regular breaks from sitting every hour"]
    else recs in
  let recs :=
    if (50 <? user.(age))%Z then
      app recs ["Include balance and flexibility exercises to prevent falls";
               "Focus on bone-strengthening activities";
               "Consider vitamin D and calcium supplementation (consult doctor)"]
    else recs in
  let recs :=
    app recs ["Regular health check-ups and blood work annually";
             "Manage stress through meditation or yoga";
             "Limit alcohol consumption and avoid smoking";
             "Build a support system for accountability"] in
  firstn 12 recs.

Definition wk (d t a du i : string) : Workout :=
  {| day := d; type_ := t; activity := a; duration := du; intensity := i |}.

Definition generate_workout_plan (user : UserHealthInfo) (bmi_category : string) : list Workout :=
  let base_cardio_duration :=
    if String.eqb user.(activity_level) "sedentary"
       || String.eqb user.(activity_level) "lightly_active"
    then "30" else "45" in
  if String.eqb user.(goal) "lose_weight" then
    [wk "Monday" "Cardio" "Brisk walking or jogging" (base_cardio_duration ++ " min") "Moderate";
     wk "Tuesday" "Strength" "Upper body strength training" "30 min" "Moderate";
     wk "Wednesday" "Cardio" "Cycling or swimming" (base_cardio_duration ++ " min") "Moderate-High";
     wk "Thursday" "Strength" "Lower body strength training" "30 min" "Moderate";
     wk "Friday" "Cardio" "HIIT workout" "20-25 min" "High";
     wk "Saturday" "Active Recovery" "Yoga or light stretching" "30 min" "Low";
     wk "Sunday" "Rest" "Rest or gentle walk" "Optional" "Low"]
  else if String.eqb user.(goal) "gain_muscle" then
    [wk "Monday" "Strength" "Chest and triceps" "45-60 min" "High";
     wk "Tuesday" "Strength" "Back and biceps" "45-60 min" "High";
     wk "Wednesday" "Cardio" "Light cardio" "20 min" "Low-Moderate";
     wk "Thursday" "Strength" "Legs and core" "45-60 min" "High";
     wk "Friday" "Strength" "Shoulders and abs" "45-60 min" "High";
     wk "Saturday" "Active Recovery" "Stretching or yoga" "30 min" "Low";
     wk "Sunday" "Rest" "Complete rest" "N/A" "N/A"]
  else
    [wk "Monday" "Cardio" "Running or cycling" "30 min" "Moderate";
     wk "Tuesday" "Strength" "Full body workout" "40 min" "Moderate";
     wk "Wednesday" "Flexibility" "Yoga or Pilates" "45 min" "Low-Moderate";
     wk "Thursday" "Cardio" "Swimming or elliptical" "30 min" "Moderate";
     wk "Friday" "Strength" "Circuit training" "40 min" "Moderate-High";
     wk "Saturday" "Recreation" "Sports or hiking" "60 min" "Variable";
     wk "Sunday" "Rest" "Light walk or rest" "Optional" "Low"].

(** The suggestion catalog chosen by [dietary_preference]: breakfast,
    lunch, dinner and snacks. *)
Definition meal_catalog (dietary_preference : option string)
    : list string * list string * list string * list string :=
  match dietary_preference with
  | Some "vegetarian" =>
    (["Oatmeal with berries, nuts, and honey";
      "Greek yogurt parfait with granola and fruit";
      "Whole grain toast with avocado and eggs"],
     ["Quinoa bowl with roasted vegetables and chickpeas";
      "Lentil soup with whole grain bread and salad";
      "Vegetable stir-fry with tofu and brown rice"],
     ["Grilled portobello mushroom with sweet potato and greens";
      "Vegetable curry with paneer and quinoa";
      "Pasta primavera with olive oil and parmesan"],
     ["Hummus with vegetable sticks";
      "Mixed nuts and dried fruit";
      "Apple slices with almond butter"])
  | Some "vegan" =>
    (["Smoothie bowl with plant-based protein, fruits, and seeds";
      "Overnight oats with plant milk, chia seeds, and berries";
      "Whole grain toast with peanut butter and banana"],
     ["Buddha bowl with quinoa, chickpeas, and tahini dressing";
      "Black bean and sweet potato burrito bowl";
      "Lentil and vegetable soup with whole grain crackers"],
     ["Tofu stir-fry with vegetables and brown rice";
      "Vegan chili with cornbread";
      "Pasta with marinara sauce and nutritional yeast"],
     ["Roasted chickpeas";
      "Energy balls with dates and nuts";
      "Vegetable chips with guacamole"])
  | _ =>
    (["Scrambled eggs with spinach and whole grain toast";
      "Protein smoothie with banana, berries, and oats";
      "Greek yogurt with granola, nuts, and honey"],
     ["Grilled chicken salad with mixed greens and vinaigrette";
      "Turkey and avocado wrap with vegetables";
      "Salmon with quinoa and roasted vegetables"],
     ["Lean beef or chicken with sweet potato and broccoli";
      "Baked fish with brown rice and asparagus";
      "Turkey meatballs with whole wheat pasta and vegetables"],
     ["Protein bar or shake";
      "Cottage cheese with fruit";
      "Hard-boiled eggs with cherry tomatoes"])
  end.

Definition generate_meal_suggestions (daily_calories : float) (macros : Macros)
    (dietary_preference : option string) : result (list Meal) :=
  let! breakfast_cals := round_int (daily_calories * 0.25) in
  let! lunch_cals := round_int (daily_calories * 0.35) in
  let! dinner_cals := round_int (daily_calories * 0.30) in
  let! snack_cals := round_int (daily_calories * 0.10) in
  let '(b, l, d, s) := meal_catalog dietary_preference in
  Ok [{| meal := "Breakfast"; calories := breakfast_cals; suggestions := b |};
      {| meal := "Lunch"; calories := lunch_cals; suggestions := l |};
      {| meal := "Dinner"; calories := dinner_cals; suggestions := d |};
      {| meal := "Snacks"; calories := snack_cals; suggestions := s |}].

Definition generate_lifestyle_tips (user : UserHealthInfo) : list string :=
  ["Prioritize 7-9 hours of quality sleep each night";
   "Stay hydrated: drink at least 8 glasses of water daily";
   "Practice stress management techniques (meditation, deep breathing)";
   "Limit screen time, especially before bed";
   "Meal prep on weekends to stay on track during busy weekdays";
   "Find an accountability partner or join a fitness community";
   "Take progress photos and measurements monthly";
   "Celebrate small victories along your journey";
   "Be patient and consistent - sustainable change takes time";
   "Listen to your body and rest when needed"].

Definition generate_weekly_goals (user : UserHealthInfo) (daily_calories : float)
    : list (string * string) :=
  if String.eqb user.(goal) "lose_weight" then
    [("weight", "Aim for 0.5-1 kg weight loss");
     ("exercise", "Complete 4-5 workout sessions");
     ("nutrition", "Stay within " ++ float_str daily_calories ++ " calories daily");
     ("hydration", "Drink 2-3 liters of water daily");
     ("sleep", "Get 7-9 hours of sleep each night");
     ("tracking", "Log meals and workouts daily")]
  else if String.eqb user.(goal) "gain_muscle" then
    [("weight", "Aim for 0.25-0.5 kg muscle gain");
     ("exercise", "Complete all scheduled strength training sessions");
     ("nutrition", "Consume " ++ float_str daily_calories ++ " calories with focus on protein");
     ("hydration", "Drink 3-4 liters of water daily");
     ("sleep", "Get 8-9 hours of sleep for recovery");
     ("tracking", "Track workout progress and weights lifted")]
  else
    [("fitness", "Improve endurance or strength by 5%");
     ("exercise", "Complete 4-5 diverse workout sessions");
     ("nutrition", "Maintain balanced diet around " ++ float_str daily_calories ++ " calories");
     ("hydration", "Drink 2-3 liters of water daily");
     ("sleep", "Maintain consistent sleep schedule");
     ("tracking", "Monitor energy levels and performance")].

(** The [/assess] handler.  A [Raise] is the exception that the handler's
    [except Exception] turns into an HTTP 500 response. *)
Definition assess_health (user_info : UserHealthInfo) : result PersonalizedPlan :=
  let! bmi := calculate_bmi user_info.(weight) user_info.(height) in
  let bmi_category := get_bmi_category bmi in
  let bmr := calculate_bmr user_info.(weight) user_info.(height) user_info.(age) user_info.(gender) in
  let daily_calories := calculate_daily_calories bmr user_info.(activity_level) user_info.(goal) in
  let macros := calculate_macros daily_calories user_info.(goal) in
  let! ideal_weight := calculate_ideal_weight user_info.(height) user_info.(gender) in
  let water_liters := round_nd (user_info.(weight) * 0.033) 1 in
  let assessment :=
    {| bmi := bmi; bmi_category := bmi_category; bmr := bmr;
       daily_calories := daily_calories;
       protein_grams := macros.(protein); carbs_grams := macros.(carbs);
       fats_grams := macros.(fats); water_liters := water_liters;
       ideal_weight_range := ideal_weight;
       health_risks := assess_health_risks bmi user_info.(age) user_info.(medical_conditions);
       recommendations := generate_recommendations user_info bmi bmi_category |} in
  let workout := generate_workout_plan user_info bmi_category in
  let! meals := generate_meal_suggestions daily_calories macros user_info.(dietary_preference) in
  Ok {| user_info := user_info; assessment := assessment; workout_plan := workout;
        meal_suggestions := meals; lifestyle_tips := generate_lifestyle_tips user_info;
        weekly_goals := generate_weekly_goals user_info daily_calories |}.

End Engine.

(** The correctly rounded square.  Used only where the C library's
    [pow(x, 2.0)] is exact or overflows (1.75, 1e306), so that it agrees
    with every libm there. *)
Definition libm_pow2 (x : float) : float := x * x.

(** ** The end-to-end scenario of the spec *)

Definition scenario_profile : UserHealthInfo :=
  {| name := "Test"; age := 30%Z; gender := "male"; height := 175; weight := 70;
     activity_level := "sedentary"; goal := "lose_weight";
     dietary_preference := Some "none"; medical_conditions := None |}.

(** The figures the spec states for [scenario_profile]. *)
Definition scenario_as_specified (a : HealthAssessment) : Prop :=
  a.(bmi) = 22.86 /\ a.(bmi_category) = "Normal weight" /\ a.(bmr) = 1673.75 /\
  a.(daily_calories) = 1508.5 /\ a.(protein_grams) = 131.99 /\
  a.(carbs_grams) = 131.99 /\ a.(fats_grams) = 50.28 /\
  a.(ideal_weight_range).(min_kg) = 56.7 /\ a.(ideal_weight_range).(max_kg) = 83.0 /\
  a.(water_liters) = 2.3 /\ a.(health_risks) = ["No significant health risks identified"].

(** The figures the code computes for [scenario_profile]. *)
Definition scenario_as_computed (a : HealthAssessment) : Prop :=
  a.(bmi) = 22.86 /\ a.(bmi_category) = "Normal weight" /\ a.(bmr) = 1648.75 /\
  a.(daily_calories) = 1478.5 /\ a.(protein_grams) = 129.37 /\
  a.(carbs_grams) = 129.37 /\ a.(fats_grams) = 49.28 /\
  a.(ideal_weight_range).(min_kg) = 56.7 /\ a.(ideal_weight_range).(max_kg) = 76.3 /\
  a.(water_liters) = 2.3 /\ a.(health_risks) = ["No significant health risks identified"].

Lemma scenario_run (pow2 : float -> float) (fs : float -> string) :
  pow2 1.75 = 3.0625 ->
  exists plan, assess_health pow2 fs scenario_profile = Ok plan /\
               scenario_as_computed plan.(assessment).
Proof.
  intros H. unfold assess_health, calculate_bmi, calculate_ideal_weight, fpow2.
  cbn -[round_nd round_int].
  change (175 / 100)%float with 1.75%float. rewrite H.
  vm_compute. eexists. split; [reflexivity|].
  repeat split; reflexivity.
Qed.

(** ** Order on non-NaN floats

    The primitive comparisons are specified through [SFcompare]; on the
    non-NaN values it is the lexicographic order of a key. *)
Module FloatOrder.

Local Open Scope Z_scope.

Definition lex3 (k1 k2 : Z * Z * Z) : comparison :=
  let '(a1, b1, c1) := k1 in
  let '(a2, b2, c2) := k2 in
  match Z.compare a1 a2 with
  | Eq => match Z.compare b1 b2 with Eq => Z.compare c1 c2 | o => o end
  | o => o
  end.

Definition sfkey (f : spec_float) : Z * Z * Z :=
  match f with
  | S754_infinity true => (0, 0, 0)
  | S754_finite true m e => (1, - e, - Zpos m)
  | S754_zero _ | S754_nan => (2, 0, 0)
  | S754_finite false m e => (3, e, Zpos m)
  | S754_infinity false => (4, 0, 0)
  end.

Lemma SFcompare_key (a b : spec_float) :
  a <> S754_nan -> b <> S754_nan ->
  SFcompare a b = Some (lex3 (sfkey a) (sfkey b)).
Proof.
  intros Ha Hb.
  destruct a as [[|]|[|]| |[|] m1 e1]; try congruence;
  destruct b as [[|]|[|]| |[|] m2 e2]; try congruence; try reflexivity.
  - cbn. rewrite Z.compare_opp, (Z.compare_antisym e1 e2).
    change (PosDef.Pos.compare_cont Eq m1 m2) with (Pos.compare m1 m2).
    destruct (Z.compare e1 e2); reflexivity.
Qed.

Ltac lex_cases :=
  repeat match goal with
  | k : (Z * Z * Z)%type |- _ => destruct k as [[? ?] ?]
  end;
  cbn [lex3] in *;
  repeat match goal with
  | |- context [Z.compare ?a ?b] => destruct (Z.compare_spec a b)
  | H : context [Z.compare ?a ?b] |- _ => destruct (Z.compare_spec a b)
  end;
  cbn in *; try reflexivity; try congruence; try lia.

Lemma lex3_antisym k1 k2 : lex3 k2 k1 = CompOpp (lex3 k1 k2).
Proof. lex_cases. Qed.

Lemma lex3_le_trans k1 k2 k3 :
  lex3 k1 k2 <> Gt -> lex3 k2 k3 <> Gt -> lex3 k1 k3 <> Gt.
Proof. lex_cases. Qed.

Lemma lex3_lt_le_trans k1 k2 k3 :
  lex3 k1 k2 = Lt -> lex3 k2 k3 <> Gt -> lex3 k1 k3 = Lt.
Proof. lex_cases. Qed.

Lemma lex3_le_lt_trans k1 k2 k3 :
  lex3 k1 k2 <> Gt -> lex3 k2 k3 = Lt -> lex3 k1 k3 = Lt.
Proof. lex_cases. Qed.

Lemma Prim2SF_not_nan (x : float) : PrimFloat.is_nan x = false -> Prim2SF x <> S754_nan.
Proof.
  unfold PrimFloat.is_nan. rewrite eqb_spec. intros H E. rewrite E in H. discriminate.
Qed.

Definition key (x : float) : Z * Z * Z := sfkey (Prim2SF x).

Abbreviation nonnan x := (PrimFloat.is_nan x = false).

Lemma ltb_key x y : nonnan x -> nonnan y ->
  (x <? y)%float = match lex3 (key x) (key y) with Lt => true | _ => false end.
Proof.
  intros Hx Hy. rewrite ltb_spec. unfold SFltb.
  rewrite SFcompare_key by (apply Prim2SF_not_nan; assumption). reflexivity.
Qed.

Lemma leb_key x y : nonnan x -> nonnan y ->
  (x <=? y)%float = match lex3 (key x) (key y) with Gt => false | _ => true end.
Proof.
  intros Hx Hy. rewrite leb_spec. unfold SFleb.
  rewrite SFcompare_key by (apply Prim2SF_not_nan; assumption).
  destruct (lex3 _ _); reflexivity.
Qed.

(** [not (x < y)] is [y <= x] away from NaN. *)
Lemma ltb_negb_leb x y : nonnan x -> nonnan y -> (x <? y)%float = negb (y <=? x)%float.
Proof.
  intros Hx Hy. rewrite ltb_key, leb_key by assumption.
  rewrite (lex3_antisym (key x) (key y)).
  destruct (lex3 (key x) (key y)); reflexivity.
Qed.

Lemma ltb_leb_trans x y z : nonnan x -> nonnan y -> nonnan z ->
  (x <? y)%float = true -> (y <=? z)%float = true -> (x <? z)%float = true.
Proof.
  intros Hx Hy Hz. rewrite !ltb_key, leb_key by assumption. intros H1 H2.
  rewrite (lex3_lt_le_trans (key x) (key y) (key z)); [reflexivity| |].
  - destruct (lex3 (key x) (key y)); congruence.
  - destruct (lex3 (key y) (key z)); congruence.
Qed.

Lemma leb_trans x y z : nonnan x -> nonnan y -> nonnan z ->
  (x <=? y)%float = true -> (y <=? z)%float = true -> (x <=? z)%float = true.
Proof.
  intros Hx Hy Hz. rewrite !leb_key by assumption. intros H1 H2.
  destruct (lex3 (key x) (key z)) eqn:E; try reflexivity. exfalso.
  apply (lex3_le_trans (key x) (key y) (key z)); [| |exact E].
  - destruct (lex3 (key x) (key y)); congruence.
  - destruct (lex3 (key y) (key z)); congruence.
Qed.

Lemma nan_cmp (x c : float) : PrimFloat.is_nan x = true ->
  (x <? c)%float = false /\ (c <=? x)%float = false.
Proof.
  intros H. destruct (Prim2SF x) as [[]|[]| |[] m e] eqn:E.
  all: try (exfalso; revert H; unfold PrimFloat.is_nan; rewrite eqb_spec, E;
            unfold SFeqb; rewrite SFcompare_key by discriminate;
            unfold lex3, sfkey; rewrite !Z.compare_refl; cbn; congruence).
  rewrite ltb_spec, leb_spec, E. unfold SFltb, SFleb. cbn.
  destruct (Prim2SF c); split; reflexivity.
Qed.

End FloatOrder.

Import FloatOrder.

(** ** Rounding of binary64 in real arithmetic

    The specification floats of [SpecFloat] read as real numbers: [round64 x v]
    says that [v] is the round-to-nearest-even binary64 value of [x > 0] (with
    an unbounded exponent), and [rounds_to s x r] that the spec float [r] is
    that rounding with sign [s], overflowing to infinity.  [SFmul] and [SFdiv]
    are proved to meet it, and with them the primitive [*] and [/]
    ([FloatAxioms.mul_spec], [div_spec]); [round_nd] and [round_int] are read
    the same way.  The lemmas below give the error bounds used by the claims. *)

Module Rnd.

Local Open Scope R_scope.

Definition bpow (e : Z) : R := powerRZ 2 e.

Definition emin64 : Z := SpecFloat.emin prec emax.
Definition fexp64 (d : Z) : Z := SpecFloat.fexp prec emax d.

(** Where a real [x] lies relative to the integer [m], as a [location]. *)
Definition inb (m : Z) (l : location) (x : R) : Prop :=
  match l with
  | loc_Exact => x = IZR m
  | loc_Inexact Lt => IZR m < x < IZR m + /2
  | loc_Inexact Eq => x = IZR m + /2
  | loc_Inexact Gt => IZR m + /2 < x < IZR m + 1
  end.

Definition inb_rec (mrs : shr_record) (x : R) : Prop :=
  inb (shr_m mrs) (loc_of_shr_record mrs) x.

(** [n] is the integer nearest to [z], ties to even. *)
Definition rne_rel (z : R) (n : Z) : Prop :=
  (IZR n - /2 < z < IZR n + /2) \/
  ((z = IZR n - /2 \/ z = IZR n + /2) /\ Z.even n = true).

(** [e] is the quantum exponent of binary64 at [x > 0]. *)
Definition scale_ok (x : R) (e : Z) : Prop :=
  (emin64 <= e)%Z /\ x < bpow (e + 53) /\ (e = emin64 \/ bpow (e + 52) <= x).

(** [v] is [x > 0] rounded to nearest even binary64 (unbounded exponent range). *)
Definition round64 (x v : R) : Prop :=
  exists e n, scale_ok x e /\ rne_rel (x / bpow e) n /\ v = IZR n * bpow e.

Definition sfval (f : spec_float) : R :=
  match f with
  | S754_finite s m e => (if s then - (IZR (Zpos m) * bpow e) else IZR (Zpos m) * bpow e)
  | _ => 0
  end.

(** The spec float [r] is the binary64 rounding of [x > 0], with sign [s]. *)
Definition rounds_to (s : bool) (x : R) (r : spec_float) : Prop :=
  SpecFloat.valid_binary prec emax r = true /\
  exists v, round64 x v /\
    ((v = 0 /\ r = S754_zero s) \/
     (0 < v < bpow emax /\ exists m e, r = S754_finite s m e /\ IZR (Zpos m) * bpow e = v) \/
     (bpow emax <= v /\ r = S754_infinity s)).

(** ** Powers of two *)

Lemma bpow_pos e : 0 < bpow e.
Proof. apply powerRZ_lt; lra. Qed.

Lemma bpow_plus a b : bpow (a + b) = bpow a * bpow b.
Proof. apply powerRZ_add; lra. Qed.

Lemma bpow_IZR n : (0 <= n)%Z -> bpow n = IZR (2 ^ n).
Proof.
  intros H. destruct n as [|p|p]; [reflexivity| |lia].
  unfold bpow. rewrite <- Zpower_pos_powerRZ. reflexivity.
Qed.

Lemma bpow_opp e : bpow (- e) = / bpow e.
Proof. unfold bpow. apply powerRZ_neg'. Qed.

Lemma bpow_lt a b : (a < b)%Z -> bpow a < bpow b.
Proof.
  intros H. replace b with (a + (b - a))%Z by lia. rewrite bpow_plus.
  rewrite (bpow_IZR (b - a)) by lia.
  assert (1 < 2 ^ (b - a))%Z by (apply Z.pow_gt_1; lia).
  apply IZR_lt in H0. pose proof (bpow_pos a). nra.
Qed.

Lemma bpow_le a b : (a <= b)%Z -> bpow a <= bpow b.
Proof.
  intros H. destruct (Z.eq_dec a b) as [->|]; [lra|]. apply Rlt_le, bpow_lt; lia.
Qed.

Lemma bpow_lt_inv a b : bpow a < bpow b -> (a < b)%Z.
Proof. intros H. destruct (Z_lt_le_dec a b); [auto|]. apply bpow_le in l. lra. Qed.

Lemma bpow_le_inv a b : bpow a <= bpow b -> (a <= b)%Z.
Proof. intros H. destruct (Z_lt_le_dec b a); [|auto]. apply bpow_lt in l. lra. Qed.

Lemma bpow_1 : bpow 1 = 2.
Proof. unfold bpow. simpl. lra. Qed.

(** ** Binary digits *)

Lemma digits2_pos_spec (m : positive) :
  (2 ^ (Zpos (digits2_pos m) - 1) <= Zpos m < 2 ^ Zpos (digits2_pos m))%Z.
Proof.
  induction m as [p IH|p IH|]; cbn [digits2_pos]; [| |cbn; lia];
  rewrite Pos2Z.inj_succ; replace (Z.succ (Zpos (digits2_pos p)) - 1)%Z
    with (Zpos (digits2_pos p)) by lia;
  rewrite Z.pow_succ_r by lia;
  replace (Zpos (digits2_pos p)) with ((Zpos (digits2_pos p) - 1) + 1)%Z at 1 by lia;
  rewrite Z.pow_add_r by lia; lia.
Qed.

Lemma Zdigits2_spec (m : Z) : (0 < m)%Z ->
  (2 ^ (Zdigits2 m - 1) <= m < 2 ^ Zdigits2 m)%Z.
Proof. intros H. destruct m as [|p|p]; try lia. apply digits2_pos_spec. Qed.

Lemma Zdigits2_pos (m : Z) : (0 < m)%Z -> (1 <= Zdigits2 m)%Z.
Proof. intros H. destruct m; try lia. cbn. lia. Qed.

Lemma Zdigits2_le (m k : Z) : (0 < m)%Z -> (0 <= k)%Z -> (m < 2 ^ k)%Z -> (Zdigits2 m <= k)%Z.
Proof.
  intros H Hk Hm. pose proof (Zdigits2_spec m H) as [H1 _].
  destruct (Z_le_gt_dec (Zdigits2 m) k); [auto|].
  assert (2 ^ k <= 2 ^ (Zdigits2 m - 1))%Z by (apply Z.pow_le_mono_r; lia). lia.
Qed.

Lemma Zdigits2_ge (m k : Z) : (0 <= k)%Z -> (2 ^ k <= m)%Z -> (k + 1 <= Zdigits2 m)%Z.
Proof.
  intros Hk Hm. assert (0 < m)%Z by (pose proof (Z.pow_pos_nonneg 2 k); lia).
  pose proof (Zdigits2_spec m H) as [_ H2].
  destruct (Z_le_gt_dec (k + 1) (Zdigits2 m)); [auto|].
  pose proof (Zdigits2_pos m H).
  assert (2 ^ Zdigits2 m <= 2 ^ k)%Z by (apply Z.pow_le_mono_r; lia). lia.
Qed.

(** ** Shifting right *)

Lemma IZR_xO p : IZR (Zpos (xO p)) = 2 * IZR (Zpos p).
Proof. apply IZR_POS_xO. Qed.

Lemma IZR_xI p : IZR (Zpos (xI p)) = 2 * IZR (Zpos p) + 1.
Proof. rewrite IZR_POS_xI. lra. Qed.

Lemma shr_1_inb (mrs : shr_record) (x : R) :
  (0 <= shr_m mrs)%Z -> inb_rec mrs x ->
  inb_rec (shr_1 mrs) (x / 2) /\ shr_m (shr_1 mrs) = Z.div2 (shr_m mrs).
Proof.
  destruct mrs as [m r s]; unfold inb_rec; cbn [shr_m].
  intros Hm H. destruct m as [|p|p]; [| |lia].
  - destruct r, s; cbv beta iota delta [shr_1 loc_of_shr_record inb shr_m orb Z.div2] in *;
      split; auto; lra.
  - destruct p as [p|p|]; destruct r, s;
      cbv beta iota delta [shr_1 loc_of_shr_record inb shr_m orb Z.div2 Pos.div2] in *;
      split; auto; try rewrite (IZR_xO p) in *; try rewrite (IZR_xI p) in *; lra.
Qed.

Lemma iter_pos_nat {A} (f : A -> A) (p : positive) (a : A) :
  iter_pos f p a = Nat.iter (Pos.to_nat p) f a.
Proof.
  revert a. induction p as [p IH|p IH|]; intros a; cbn [iter_pos].
  - rewrite Pos2Nat.inj_xI, !IH, <- Nat.iter_add, Nat.iter_succ_r.
    f_equal. lia.
  - rewrite Pos2Nat.inj_xO, !IH, <- Nat.iter_add. f_equal. lia.
  - reflexivity.
Qed.

Lemma shr_iter_inb (n : nat) (mrs : shr_record) (x : R) :
  (0 <= shr_m mrs)%Z -> inb_rec mrs x ->
  (0 <= shr_m (Nat.iter n shr_1 mrs))%Z /\
  inb_rec (Nat.iter n shr_1 mrs) (x / bpow (Z.of_nat n)).
Proof.
  intros Hm H. induction n as [|n [IH1 IH2]].
  - cbn [Nat.iter]. split; [auto|]. change (Z.of_nat 0) with 0%Z.
    replace (x / bpow 0) with x; [auto|]. unfold bpow. rewrite powerRZ_O. field.
  - rewrite Nat.iter_succ. destruct (shr_1_inb _ _ IH1 IH2) as [H1 H2].
    split.
    + rewrite H2. rewrite Z.div2_div. apply Z.div_pos; lia.
    + replace (x / bpow (Z.of_nat (S n))) with (x / bpow (Z.of_nat n) / 2); [auto|].
      rewrite Nat2Z.inj_succ, <- Z.add_1_r, bpow_plus, bpow_1.
      pose proof (bpow_pos (Z.of_nat n)). field. lra.
Qed.

Lemma inb_rec_of_loc m l x : inb_rec (shr_record_of_loc m l) x <-> inb m l x.
Proof. destruct l as [|[]]; reflexivity. Qed.

Lemma shr_m_of_loc m l : shr_m (shr_record_of_loc m l) = m.
Proof. destruct l as [|[]]; reflexivity. Qed.

(** [shr_fexp] moves [m] to the exponent [max e (fexp (digits m + e))],
    keeping track of where [x] lies. *)
Lemma shr_fexp_inb (m e : Z) (l : location) (x : R) :
  (0 <= m)%Z -> inb m l (x / bpow e) ->
  let '(mrs, e') := shr_fexp prec emax m e l in
  e' = Z.max e (fexp64 (Zdigits2 m + e)) /\ (0 <= shr_m mrs)%Z /\ inb_rec mrs (x / bpow e').
Proof.
  intros Hm H. unfold shr_fexp, shr. fold (fexp64 (Zdigits2 m + e)).
  destruct (fexp64 (Zdigits2 m + e) - e)%Z as [|p|p] eqn:E.
  - split; [lia|]. rewrite shr_m_of_loc. split; [auto|]. apply inb_rec_of_loc. auto.
  - rewrite iter_pos_nat.
    destruct (shr_iter_inb (Pos.to_nat p) (shr_record_of_loc m l) (x / bpow e))
      as [H1 H2]; [rewrite shr_m_of_loc; auto|apply inb_rec_of_loc; auto|].
    split; [lia|]. split; [auto|].
    rewrite positive_nat_Z in H2.
    replace (x / bpow (e + Zpos p)) with (x / bpow e / bpow (Zpos p)); [auto|].
    rewrite bpow_plus. pose proof (bpow_pos e). pose proof (bpow_pos (Zpos p)).
    field. lra.
  - split; [lia|]. rewrite shr_m_of_loc. split; [auto|]. apply inb_rec_of_loc. auto.
Qed.

(** ** Rounding to nearest, ties to even *)

Lemma rne_of_inb m l z : inb m l z -> rne_rel z (round_nearest_even m l).
Proof.
  unfold rne_rel. destruct l as [|[]]; cbn; intros H.
  - left. lra.
  - destruct (Z.even m) eqn:E.
    + right. split; [lra|auto].
    + right. rewrite plus_IZR. split; [lra|].
      rewrite Z.even_add. rewrite E. reflexivity.
  - left. lra.
  - left. rewrite plus_IZR. lra.
Qed.

Lemma rne_lower z n : rne_rel z n -> IZR n - /2 <= z.
Proof. unfold rne_rel. lra. Qed.

Lemma rne_upper z n : rne_rel z n -> z <= IZR n + /2.
Proof. unfold rne_rel. lra. Qed.

Lemma rne_ge_int z n k : IZR k <= z -> rne_rel z n -> (k <= n)%Z.
Proof.
  intros H1 H2. apply rne_upper in H2.
  assert (IZR k < IZR n + 1) by lra. rewrite <- plus_IZR in H. apply lt_IZR in H. lia.
Qed.

Lemma rne_le_int z n k : z <= IZR k -> rne_rel z n -> (n <= k)%Z.
Proof.
  intros H1 H2. apply rne_lower in H2.
  assert (IZR n < IZR k + 1) by lra. rewrite <- plus_IZR in H. apply lt_IZR in H. lia.
Qed.

Lemma rne_mono z1 z2 n1 n2 : z1 <= z2 -> rne_rel z1 n1 -> rne_rel z2 n2 -> (n1 <= n2)%Z.
Proof.
  intros H H1 H2. destruct (Z_le_gt_dec n1 n2) as [|G]; [auto|exfalso].
  assert (IZR n2 + 1 <= IZR n1) by (rewrite <- plus_IZR; apply IZR_le; lia).
  unfold rne_rel in *.
  destruct H1 as [H1|[H1 E1]], H2 as [H2|[H2 E2]]; try lra.
  assert (n1 = n2 + 1)%Z.
  { assert (IZR n1 <= IZR n2 + 1) by lra. rewrite <- plus_IZR in H3.
    apply le_IZR in H3. lia. }
  subst n1. rewrite Z.even_add in E1. rewrite E2 in E1. discriminate.
Qed.

Lemma rne_unique z n1 n2 : rne_rel z n1 -> rne_rel z n2 -> n1 = n2.
Proof.
  intros H1 H2. apply Z.le_antisymm; eapply rne_mono; eauto; lra.
Qed.

Lemma rne_int k : rne_rel (IZR k) k.
Proof. left. lra. Qed.

(** ** Real-number helpers *)

Lemma le_div_iff a x c : 0 < c -> (a <= x / c <-> a * c <= x).
Proof.
  intros Hc. split; intros H.
  - apply Rmult_le_compat_r with (r := c) in H; [|lra].
    unfold Rdiv in H. rewrite Rmult_assoc, Rinv_l, Rmult_1_r in H; lra.
  - apply Rmult_le_reg_r with c; [lra|]. unfold Rdiv.
    rewrite Rmult_assoc, Rinv_l, Rmult_1_r; lra.
Qed.

Lemma lt_div_iff a x c : 0 < c -> (a < x / c <-> a * c < x).
Proof.
  intros Hc. split; intros H.
  - apply Rmult_lt_compat_r with (r := c) in H; [|lra].
    unfold Rdiv in H. rewrite Rmult_assoc, Rinv_l, Rmult_1_r in H; lra.
  - apply Rmult_lt_reg_r with c; [lra|]. unfold Rdiv.
    rewrite Rmult_assoc, Rinv_l, Rmult_1_r; lra.
Qed.

Lemma div_le_iff a x c : 0 < c -> (x / c <= a <-> x <= a * c).
Proof.
  intros Hc. split; intros H.
  - apply Rmult_le_compat_r with (r := c) in H; [|lra].
    unfold Rdiv in H. rewrite Rmult_assoc, Rinv_l, Rmult_1_r in H; lra.
  - apply Rmult_le_reg_r with c; [lra|]. unfold Rdiv.
    rewrite Rmult_assoc, Rinv_l, Rmult_1_r; lra.
Qed.

Lemma div_lt_iff a x c : 0 < c -> (x / c < a <-> x < a * c).
Proof.
  intros Hc. split; intros H.
  - apply Rmult_lt_compat_r with (r := c) in H; [|lra].
    unfold Rdiv in H. rewrite Rmult_assoc, Rinv_l, Rmult_1_r in H; lra.
  - apply Rmult_lt_reg_r with c; [lra|]. unfold Rdiv.
    rewrite Rmult_assoc, Rinv_l, Rmult_1_r; lra.
Qed.

Lemma inb_bounds m l z : inb m l z -> IZR m <= z < IZR m + 1.
Proof. destruct l as [|[]]; cbv beta iota delta [inb]; intros; lra. Qed.

Lemma emin64_val : emin64 = (-1074)%Z.
Proof. reflexivity. Qed.

Lemma fexp64_val d : fexp64 d = Z.max (d - 53) (-1074).
Proof. reflexivity. Qed.

Lemma bpow_53 : bpow 53 = IZR 9007199254740992.
Proof. rewrite bpow_IZR by lia. reflexivity. Qed.

Lemma bpow_52 : bpow 52 = IZR 4503599627370496.
Proof. rewrite bpow_IZR by lia. reflexivity. Qed.

Lemma emax_val : emax = 1024%Z.
Proof. reflexivity. Qed.

(** The second shift of [binary_round_aux]: exact, and only moves a
    mantissa that rounded up to [2^53]. *)
Lemma shr_fexp_after_round (m1 e' : Z) :
  (-1074 <= e')%Z -> (0 <= m1 <= 9007199254740992)%Z ->
  let '(mrs'', e'') := shr_fexp prec emax m1 e' loc_Exact in
  (shr_m mrs'' = m1 /\ e'' = e' /\ (m1 < 9007199254740992)%Z) \/
  (shr_m mrs'' = Zpos 4503599627370496 /\ e'' = (e' + 1)%Z /\ m1 = 9007199254740992%Z).
Proof.
  intros He Hm. unfold shr_fexp, shr. fold (fexp64 (Zdigits2 m1 + e')).
  rewrite fexp64_val.
  destruct (Z.eq_dec m1 9007199254740992) as [Heq|Hne].
  - subst m1. change (Zdigits2 9007199254740992) with 54%Z.
    replace (Z.max (54 + e' - 53) (-1074) - e')%Z with 1%Z by lia.
    right. split; [reflexivity|]. split; reflexivity.
  - assert (Hd : (Z.max (Zdigits2 m1 + e' - 53) (-1074) - e' <= 0)%Z).
    { destruct (Z.eq_dec m1 0) as [->|Hn0].
      - cbn [Zdigits2]. lia.
      - assert (Zdigits2 m1 <= 53)%Z by (apply Zdigits2_le; lia). lia. }
    destruct (Z.max (Zdigits2 m1 + e' - 53) (-1074) - e')%Z; try lia;
      left; rewrite shr_m_of_loc; lia.
Qed.

(** [binary_round_aux] rounds to nearest even: the correctness theorem of
    the rounding step shared by multiplication and division. *)
Lemma binary_round_aux_spec (sx : bool) (mx ex : Z) (lx : location) (x : R) :
  0 < x -> (0 <= mx)%Z -> inb mx lx (x / bpow ex) ->
  ((0 < mx)%Z /\ (ex <= fexp64 (Zdigits2 mx + ex))%Z \/ mx = 0%Z /\ (ex <= emin64)%Z) ->
  rounds_to sx x (binary_round_aux prec emax sx mx ex lx).
Proof.
  intros Hx Hm Hin Hcase.
  pose proof (bpow_pos ex) as Hbex.
  pose proof (shr_fexp_inb mx ex lx x Hm Hin) as Hs.
  unfold binary_round_aux.
  destruct (shr_fexp prec emax mx ex lx) as [mrs' e'] eqn:E1.
  destruct Hs as [He' [Hm0 Hin0]].
  rewrite emin64_val in Hcase. rewrite fexp64_val in He'.
  pose proof (bpow_pos e') as Hbe.
  (* the quantum exponent of x *)
  assert (Hsc : (-1074 <= e')%Z /\ x < bpow (e' + 53) /\
                (e' = (-1074)%Z \/ bpow (e' + 52) <= x)).
  { destruct Hcase as [[Hpos Hle] | [-> Hle]].
    - rewrite fexp64_val in Hle.
      pose proof (Zdigits2_spec mx Hpos) as [D1 D2].
      pose proof (Zdigits2_pos mx Hpos) as D0.
      apply inb_bounds in Hin.
      set (dm := Zdigits2 mx) in *.
      assert (B1 : bpow (dm - 1 + ex) <= x).
      { rewrite bpow_plus, <- le_div_iff by auto. rewrite (bpow_IZR (dm - 1)) by lia.
        apply Rle_trans with (IZR mx); [apply IZR_le; lia | lra]. }
      assert (B2 : x < bpow (dm + ex)).
      { rewrite bpow_plus, <- div_lt_iff by auto. rewrite (bpow_IZR dm) by lia.
        apply Rlt_le_trans with (IZR mx + 1); [lra|].
        rewrite <- plus_IZR. apply IZR_le. lia. }
      split; [lia|]. split.
      + apply Rlt_le_trans with (1 := B2). apply bpow_le. lia.
      + destruct (Z_le_gt_dec (-1074) (dm + ex - 53)).
        * right. replace (e' + 52)%Z with (dm - 1 + ex)%Z by lia. auto.
        * left. lia.
    - cbn [Zdigits2] in He'. apply inb_bounds in Hin.
      assert (x < bpow ex).
      { replace (bpow ex) with (1 * bpow ex) by ring. apply (div_lt_iff 1 x); lra. }
      split; [lia|]. split; [|left; lia].
      apply Rlt_le_trans with (1 := H). apply bpow_le. lia. }
  destruct Hsc as [Hemin [Hup Hlow]].
  pose proof (rne_of_inb _ _ _ Hin0) as Hrne.
  set (m1 := round_nearest_even (shr_m mrs') (loc_of_shr_record mrs')) in *.
  clearbody m1.
  assert (Hz0 : 0 < x / bpow e') by (apply Rdiv_lt_0_compat; lra).
  assert (Hm1a : (0 <= m1)%Z).
  { apply (rne_ge_int (x / bpow e') m1 0); [|exact Hrne]. change (IZR 0) with 0. lra. }
  assert (Hm1b : (m1 <= 9007199254740992)%Z).
  { apply (rne_le_int (x / bpow e')); [|auto].
    apply Rlt_le. apply div_lt_iff; [auto|]. rewrite <- bpow_53, <- bpow_plus.
    rewrite Z.add_comm. auto. }
  assert (Hm1c : e' = (-1074)%Z \/ (4503599627370496 <= m1)%Z).
  { destruct Hlow as [->|Hlow]; [left; auto|right].
    apply (rne_ge_int (x / bpow e')); [|auto].
    apply le_div_iff; [auto|]. rewrite <- bpow_52, <- bpow_plus, Z.add_comm. auto. }
  pose proof (shr_fexp_after_round m1 e' Hemin (conj Hm1a Hm1b)) as Hshr.
  destruct (shr_fexp prec emax m1 e' loc_Exact) as [mrs'' e''] eqn:E2.
  assert (Hround : round64 x (IZR m1 * bpow e')).
  { exists e', m1. split; [|split; auto].
    unfold scale_ok. rewrite emin64_val. split; [auto|]. split; [auto|].
    destruct Hlow; auto. }
  change (Z.sub emax prec) with 971%Z.
  unfold rounds_to. change (bpow emax) with (bpow 1024).
  destruct Hshr as [[Hm'' [He'' Hlt]] | [Hm'' [He'' Heq]]].
  - rewrite Hm''. subst e''.
    destruct m1 as [|p|p]; [| |lia].
    + split; [reflexivity|]. exists 0. split.
      * replace 0 with (IZR 0 * bpow e') by (cbn; ring). auto.
      * left. auto.
    + destruct (Z.leb_spec e' 971) as [Hle|Hgt].
      * split.
        { cbv beta iota delta [valid_binary bounded canonical_mantissa].
          apply andb_true_intro. split; [|apply Z.leb_le; change (Z.sub emax prec) with 971%Z; lia].
          apply Z.eqb_eq. fold (fexp64 (Zpos (digits2_pos p) + e')). rewrite fexp64_val.
          change (Zpos (digits2_pos p)) with (Zdigits2 (Zpos p)).
          assert (Zdigits2 (Zpos p) <= 53)%Z by (apply Zdigits2_le; lia).
          destruct Hm1c as [->|Hbig]; [lia|].
          assert (53 <= Zdigits2 (Zpos p))%Z by (apply (Zdigits2_ge _ 52); cbn; lia).
          lia. }
        exists (IZR (Zpos p) * bpow e'). split; [auto|].
        right. left. split; [|exists p, e'; split; reflexivity].
        assert (0 < IZR (Zpos p)) by (apply IZR_lt; lia).
        split; [nra|].
        assert (IZR (Zpos p) < bpow 53) by (rewrite bpow_53; apply IZR_lt; lia).
        assert (bpow e' <= bpow 971) by (apply bpow_le; lia).
        replace 1024%Z with (53 + 971)%Z by reflexivity. rewrite bpow_plus.
        pose proof (bpow_pos 53). pose proof (bpow_pos 971). nra.
      * split; [reflexivity|].
        exists (IZR (Zpos p) * bpow e'). split; [auto|].
        right. right. split; [|reflexivity].
        destruct Hm1c as [->|Hbig]; [lia|].
        assert (bpow 52 <= IZR (Zpos p)) by (rewrite bpow_52; apply IZR_le; lia).
        assert (bpow 972 <= bpow e') by (apply bpow_le; lia).
        replace 1024%Z with (52 + 972)%Z by reflexivity. rewrite bpow_plus.
        pose proof (bpow_pos 52). pose proof (bpow_pos 972). nra.
  - rewrite Hm''. subst e'' m1.
    assert (Hv : IZR (Zpos 4503599627370496) * bpow (e' + 1) = IZR 9007199254740992 * bpow e').
    { rewrite bpow_plus, bpow_1.
      replace (IZR 9007199254740992) with (IZR (Zpos 4503599627370496) * 2)
        by (rewrite <- (mult_IZR _ 2); reflexivity). ring. }
    destruct (Z.leb_spec (e' + 1) 971) as [Hle|Hgt].
    + split.
      { cbv beta iota delta [valid_binary bounded canonical_mantissa].
        apply andb_true_intro. split; [|apply Z.leb_le; change (Z.sub emax prec) with 971%Z; lia].
        apply Z.eqb_eq. change (Zpos (digits2_pos 4503599627370496)) with 53%Z.
        fold (fexp64 (53 + (e' + 1))). rewrite fexp64_val. lia. }
      exists (IZR 9007199254740992 * bpow e'). split; [auto|].
      right. left. split; [|exists 4503599627370496%positive, (e' + 1)%Z; split; auto].
      rewrite <- bpow_53, <- bpow_plus. split; [apply bpow_pos|apply bpow_lt; lia].
    + split; [reflexivity|].
      exists (IZR 9007199254740992 * bpow e'). split; [auto|].
      right. right. split; [|reflexivity].
      rewrite <- bpow_53, <- bpow_plus. apply bpow_le. lia.
Qed.

(** ** Properties of [round64] *)

Lemma scale_ok_mono x y ex ey : 0 < x <= y -> scale_ok x ex -> scale_ok y ey -> (ex <= ey)%Z.
Proof.
  unfold scale_ok. rewrite emin64_val. intros Hxy [H1 [H2 H3]] [K1 [K2 K3]].
  destruct (Z_le_gt_dec ex ey) as [|G]; [auto|exfalso].
  destruct H3 as [->|H3]; [lia|].
  assert (bpow (ex + 52) < bpow (ey + 53)) by lra.
  apply bpow_lt_inv in H. lia.
Qed.

Lemma scale_ok_unique x ex ey : 0 < x -> scale_ok x ex -> scale_ok x ey -> ex = ey.
Proof.
  intros Hx H1 H2. apply Z.le_antisymm; eapply scale_ok_mono; eauto; lra.
Qed.

Lemma round64_unique x v w : 0 < x -> round64 x v -> round64 x w -> v = w.
Proof.
  intros Hx [e1 [n1 [S1 [R1 ->]]]] [e2 [n2 [S2 [R2 ->]]]].
  assert (e1 = e2) by (eapply scale_ok_unique; eauto). subst e2.
  rewrite (rne_unique _ _ _ R1 R2). reflexivity.
Qed.

Lemma scale_mant_upper x e n : scale_ok x e -> rne_rel (x / bpow e) n -> (n <= 9007199254740992)%Z.
Proof.
  intros [_ [H _]] R. apply (rne_le_int (x / bpow e)); [|auto].
  apply Rlt_le, div_lt_iff; [apply bpow_pos|]. rewrite <- bpow_53, <- bpow_plus, Z.add_comm. auto.
Qed.

Lemma scale_mant_lower x e n : bpow (e + 52) <= x -> rne_rel (x / bpow e) n ->
  (4503599627370496 <= n)%Z.
Proof.
  intros H R. apply (rne_ge_int (x / bpow e)); [|auto].
  apply le_div_iff; [apply bpow_pos|]. rewrite <- bpow_52, <- bpow_plus, Z.add_comm. auto.
Qed.

Lemma round64_mono x y v w : 0 < x <= y -> round64 x v -> round64 y w -> v <= w.
Proof.
  intros Hxy [e1 [n1 [S1 [R1 ->]]]] [e2 [n2 [S2 [R2 ->]]]].
  pose proof (scale_ok_mono _ _ _ _ Hxy S1 S2) as Hle.
  pose proof (bpow_pos e1). pose proof (bpow_pos e2).
  destruct (Z.eq_dec e1 e2) as [<-|Hne].
  - assert (n1 <= n2)%Z.
    { eapply rne_mono; [|exact R1|exact R2].
      apply Rmult_le_compat_r; [apply Rlt_le, Rinv_0_lt_compat; auto|lra]. }
    apply Rmult_le_compat_r; [lra|]. apply IZR_le. auto.
  - assert (Hn1 := scale_mant_upper _ _ _ S1 R1).
    destruct S2 as [_ [_ [E2|L2]]].
    + destruct S1 as [E1 _]. rewrite emin64_val in E1, E2. lia.
    + assert (Hn2 := scale_mant_lower _ _ _ L2 R2).
      apply Rle_trans with (IZR 9007199254740992 * bpow e1).
      { apply Rmult_le_compat_r; [lra|]. apply IZR_le. auto. }
      apply Rle_trans with (IZR 4503599627370496 * bpow e2).
      { rewrite <- bpow_53, <- bpow_52, <- !bpow_plus. apply bpow_le. lia. }
      apply Rmult_le_compat_r; [lra|]. apply IZR_le. auto.
Qed.

(** Absolute error: at most half a quantum. *)
Lemma round64_half_quantum x v : round64 x v ->
  exists e, scale_ok x e /\ x - bpow e / 2 <= v <= x + bpow e / 2.
Proof.
  intros [e [n [S [R ->]]]]. exists e. split; [auto|].
  pose proof (bpow_pos e).
  pose proof (rne_lower _ _ R). pose proof (rne_upper _ _ R).
  assert (IZR n * bpow e - bpow e / 2 <= x).
  { apply le_div_iff in H0; [|auto]. lra. }
  assert (x <= IZR n * bpow e + bpow e / 2).
  { apply div_le_iff in H1; [|auto]. lra. }
  lra.
Qed.

Definition u64 : R := / 9007199254740992.
Definition tiny64 : R := bpow (-1075).

Lemma tiny64_pos : 0 < tiny64.
Proof. apply bpow_pos. Qed.

(** Relative error bound, valid everywhere (the second term covers the
    subnormal range). *)
Lemma round64_err x v : 0 < x -> round64 x v ->
  x - (x * u64 + tiny64) <= v <= x + (x * u64 + tiny64).
Proof.
  intros Hx H. destruct (round64_half_quantum _ _ H) as [e [[He [_ Hl]] Hv]].
  rewrite emin64_val in He.
  assert (bpow e / 2 <= x * u64 + tiny64).
  { destruct Hl as [->|Hl].
    - unfold tiny64. rewrite emin64_val. replace (-1075)%Z with (-1074 + -1)%Z by reflexivity.
      rewrite bpow_plus. replace (bpow (-1)) with (/ 2).
      + unfold u64. assert (0 < x * / 9007199254740992) by (apply Rmult_lt_0_compat; lra). lra.
      + change (bpow (-1)) with (bpow (Z.opp 1)). rewrite bpow_opp, bpow_1. reflexivity.
    - rewrite bpow_plus, bpow_52 in Hl. unfold u64.
      pose proof tiny64_pos. nra. }
  lra.
Qed.

(** In the normal range the error is relative only. *)
Lemma round64_err_normal x v : bpow (-1022) <= x -> round64 x v ->
  x - x * u64 <= v <= x + x * u64.
Proof.
  intros Hx H. destruct (round64_half_quantum _ _ H) as [e [[He [_ Hl]] Hv]].
  rewrite emin64_val in He.
  assert (bpow (e + 52) <= x).
  { destruct Hl as [->|Hl]; [exact Hx|exact Hl]. }
  rewrite bpow_plus, bpow_52 in H0. unfold u64. nra.
Qed.

Lemma round64_ge_bpow x v k : (-1074 <= k)%Z -> bpow k <= x -> round64 x v -> bpow k <= v.
Proof.
  intros Hk Hx [e [n [S [R ->]]]].
  pose proof (bpow_pos e) as Hb.
  destruct (Z_le_gt_dec e k) as [Hle|Hgt].
  - assert (IZR (2 ^ (k - e)) <= x / bpow e).
    { apply le_div_iff; [auto|]. rewrite <- bpow_IZR by lia. rewrite <- bpow_plus.
      replace (k - e + e)%Z with k by lia. auto. }
    pose proof (rne_ge_int _ _ _ H R).
    replace k with ((k - e) + e)%Z by lia. rewrite bpow_plus, bpow_IZR by lia.
    apply Rmult_le_compat_r; [lra|]. apply IZR_le. auto.
  - destruct S as [Se [_ [E|L]]]; [rewrite emin64_val in Se, E; lia|].
    pose proof (scale_mant_lower _ _ _ L R).
    apply Rle_trans with (bpow (e + 52)); [apply bpow_le; lia|].
    rewrite bpow_plus, bpow_52, Rmult_comm. apply Rmult_le_compat_r; [lra|]. apply IZR_le. auto.
Qed.

Lemma round64_nonneg x v : 0 < x -> round64 x v -> 0 <= v.
Proof.
  intros Hx [e [n [S [R ->]]]].
  assert (0 <= n)%Z.
  { apply (rne_ge_int (x / bpow e)); [|auto]. change (IZR 0) with 0.
    apply Rlt_le, Rdiv_lt_0_compat; [auto|apply bpow_pos]. }
  apply Rmult_le_pos; [apply IZR_le; auto|apply Rlt_le, bpow_pos].
Qed.

(** A representable value rounds to itself. *)
Lemma round64_exact m e : (0 < m < 9007199254740992)%Z -> (-1074 <= e)%Z ->
  round64 (IZR m * bpow e) (IZR m * bpow e).
Proof.
  intros Hm He.
  (* normalise the exponent: shift m left while it has fewer than 53 bits
     and the exponent stays above the minimum *)
  set (d := Zdigits2 m).
  pose proof (Zdigits2_spec m (proj1 Hm)) as [D1 D2]. fold d in D1, D2.
  assert (Hd : (d <= 53)%Z) by (apply Zdigits2_le; lia).
  pose proof (Zdigits2_pos m (proj1 Hm)) as D0. fold d in D0.
  set (k := Z.min (53 - d) (e + 1074)).
  exists (e - k)%Z, (m * 2 ^ k)%Z.
  assert (Hk : (0 <= k)%Z) by lia.
  assert (Hv : IZR m * bpow e = IZR (m * 2 ^ k) * bpow (e - k)).
  { rewrite mult_IZR, <- bpow_IZR by lia. rewrite Rmult_assoc, <- bpow_plus.
    f_equal. f_equal. lia. }
  rewrite Hv. split; [|split].
  - unfold scale_ok. rewrite emin64_val. split; [lia|].
    rewrite mult_IZR, <- bpow_IZR by lia. rewrite Rmult_assoc, <- bpow_plus.
    replace (k + (e - k))%Z with e by lia.
    pose proof (bpow_pos e).
    split.
    + replace (e - k + 53)%Z with ((53 - k) + e)%Z by lia. rewrite bpow_plus.
      apply Rmult_lt_compat_r; [auto|]. rewrite bpow_IZR by lia. apply IZR_lt.
      apply Z.lt_le_trans with (1 := D2). apply Z.pow_le_mono_r; lia.
    + destruct (Z_le_gt_dec (53 - d) (e + 1074)).
      * right. replace (e - k + 52)%Z with ((52 - k) + e)%Z by lia. rewrite bpow_plus.
        apply Rmult_le_compat_r; [lra|]. rewrite bpow_IZR by lia. apply IZR_le.
        apply Z.le_trans with (2 := D1). apply Z.pow_le_mono_r; lia.
      * left. lia.
  - replace (IZR (m * 2 ^ k) * bpow (e - k) / bpow (e - k)) with (IZR (m * 2 ^ k)).
    + apply rne_int.
    + pose proof (bpow_pos (e - k)). field. lra.
  - reflexivity.
Qed.

(** ** Canonical finite floats *)

Lemma valid_finite_facts s m e :
  SpecFloat.valid_binary prec emax (S754_finite s m e) = true ->
  (-1074 <= e <= 971)%Z /\ (Zpos m < 9007199254740992)%Z /\
  (e = (-1074)%Z \/ (4503599627370496 <= Zpos m)%Z).
Proof.
  cbv beta iota delta [valid_binary bounded canonical_mantissa].
  intros H. apply andb_prop in H as [H1 H2].
  apply Z.eqb_eq in H1. apply Z.leb_le in H2. change (Z.sub emax prec) with 971%Z in H2.
  fold (fexp64 (Zpos (digits2_pos m) + e)) in H1. rewrite fexp64_val in H1.
  change (Zpos (digits2_pos m)) with (Zdigits2 (Zpos m)) in H1.
  pose proof (Zdigits2_spec (Zpos m) eq_refl) as [D1 D2].
  assert (Hd : (Zdigits2 (Zpos m) <= 53)%Z) by lia.
  split; [lia|]. split.
  - apply Z.lt_le_trans with (1 := D2).
    change 9007199254740992%Z with (2 ^ 53)%Z. apply Z.pow_le_mono_r; lia.
  - destruct (Z.eq_dec e (-1074)) as [|Hne]; [left; auto|right].
    assert (Zdigits2 (Zpos m) = 53)%Z by lia. rewrite H in D1. exact D1.
Qed.

Lemma Zdigits2_mul_ge (a b : Z) : (0 < a)%Z -> (0 < b)%Z ->
  (Zdigits2 a + Zdigits2 b - 1 <= Zdigits2 (a * b))%Z.
Proof.
  intros Ha Hb. pose proof (Zdigits2_spec a Ha) as [A1 _]. pose proof (Zdigits2_spec b Hb) as [B1 _].
  pose proof (Zdigits2_pos a Ha). pose proof (Zdigits2_pos b Hb).
  assert (2 ^ (Zdigits2 a - 1 + (Zdigits2 b - 1)) <= a * b)%Z.
  { rewrite Z.pow_add_r by lia. apply Z.mul_le_mono_nonneg; try lia; apply Z.pow_nonneg; lia. }
  assert (Hk : (0 <= Zdigits2 a - 1 + (Zdigits2 b - 1))%Z) by lia.
  pose proof (Zdigits2_ge _ _ Hk H1). lia.
Qed.

(** ** Multiplication *)

Lemma SFmul_spec sx mx ex sy my ey :
  SpecFloat.valid_binary prec emax (S754_finite sx mx ex) = true ->
  SpecFloat.valid_binary prec emax (S754_finite sy my ey) = true ->
  rounds_to (xorb sx sy) ((IZR (Zpos mx) * bpow ex) * (IZR (Zpos my) * bpow ey))
    (SFmul prec emax (S754_finite sx mx ex) (S754_finite sy my ey)).
Proof.
  intros Vx Vy. cbn [SFmul].
  pose proof (bpow_pos ex). pose proof (bpow_pos ey).
  assert (0 < IZR (Zpos mx)) by (apply IZR_lt; lia).
  assert (0 < IZR (Zpos my)) by (apply IZR_lt; lia).
  apply binary_round_aux_spec.
  - apply Rmult_lt_0_compat; apply Rmult_lt_0_compat; auto.
  - lia.
  - cbn [inb]. rewrite bpow_plus, Pos2Z.inj_mul, mult_IZR. field. lra.
  - left. split; [lia|].
    apply valid_finite_facts in Vx as [Ex [Mx Nx]]. apply valid_finite_facts in Vy as [Ey [My Ny]].
    rewrite fexp64_val.
    pose proof (Zdigits2_mul_ge (Zpos mx) (Zpos my) eq_refl eq_refl) as Dm.
    rewrite <- Pos2Z.inj_mul in Dm.
    destruct Nx as [->|Nx]; destruct Ny as [->|Ny]; try lia.
    + assert (53 <= Zdigits2 (Zpos my))%Z by (apply (Zdigits2_ge _ 52); cbn; lia).
      pose proof (Zdigits2_pos (Zpos mx) eq_refl). lia.
    + assert (53 <= Zdigits2 (Zpos mx))%Z by (apply (Zdigits2_ge _ 52); cbn; lia).
      pose proof (Zdigits2_pos (Zpos my) eq_refl). lia.
    + assert (53 <= Zdigits2 (Zpos mx))%Z by (apply (Zdigits2_ge _ 52); cbn; lia).
      pose proof (Zdigits2_pos (Zpos my) eq_refl). lia.
Qed.

(** ** Division *)

Lemma inb_shift m l z q : inb m l z -> inb (m + q) l (z + IZR q).
Proof.
  destruct l as [|[]]; cbv beta iota delta [inb]; rewrite plus_IZR; intros; lra.
Qed.

Lemma new_location_spec (d r : Z) : (0 <= r < d)%Z ->
  inb 0 (new_location d r) (IZR r / IZR d).
Proof.
  intros Hr. assert (Hd : 0 < IZR d) by (apply IZR_lt; lia).
  assert (Hd2 : IZR r / IZR d < 1) by (apply div_lt_iff; [auto|]; rewrite Rmult_1_l; apply IZR_lt; lia).
  assert (Hd0 : 0 <= IZR r / IZR d).
  { apply le_div_iff; [auto|]. rewrite Rmult_0_l. apply IZR_le. lia. }
  unfold new_location, new_location_even, new_location_odd.
  destruct (Z.even d) eqn:Ev; cbv beta iota;
    (destruct (Z.eqb_spec r 0) as [->|Hr0];
     [cbv beta iota delta [inb]; unfold Rdiv; rewrite Rmult_0_l; reflexivity|]);
    (assert (Hp : 0 < IZR r / IZR d);
     [apply lt_div_iff; [auto|]; rewrite Rmult_0_l; apply IZR_lt; lia|]).
  - destruct (Z.compare_spec (2 * r) d) as [E|L|G]; cbv beta iota delta [inb]; rewrite ?Rplus_0_l.
    + apply (f_equal IZR) in E. rewrite mult_IZR in E.
      rewrite <- E. field. lra.
    + apply IZR_lt in L. rewrite mult_IZR in L. split; [auto|].
      apply div_lt_iff; [auto|]. lra.
    + apply IZR_lt in G. rewrite mult_IZR in G. split; [|auto].
      apply lt_div_iff; [auto|]. lra.
  - destruct (Z.compare_spec (2 * r + 1) d) as [E|L|G]; cbv beta iota delta [inb]; rewrite ?Rplus_0_l.
    + split; [auto|]. apply div_lt_iff; [auto|].
      apply (f_equal IZR) in E. rewrite plus_IZR, mult_IZR in E. lra.
    + apply IZR_lt in L. rewrite plus_IZR, mult_IZR in L. split; [auto|].
      apply div_lt_iff; [auto|]. lra.
    + assert (2 * r <> d)%Z.
      { intros E. rewrite <- E in Ev. rewrite Z.even_mul in Ev. discriminate. }
      assert (d < 2 * r)%Z by lia.
      apply IZR_lt in H0. rewrite mult_IZR in H0. split; [|auto].
      apply lt_div_iff; [auto|]. lra.
Qed.

Lemma SFdiv_spec sx mx ex sy my ey :
  rounds_to (xorb sx sy) ((IZR (Zpos mx) * bpow ex) / (IZR (Zpos my) * bpow ey))
    (SFdiv prec emax (S754_finite sx mx ex) (S754_finite sy my ey)).
Proof.
  cbn [SFdiv]. unfold SFdiv_core_binary.
  set (d1 := Zdigits2 (Zpos mx)). set (d2 := Zdigits2 (Zpos my)).
  fold (fexp64 (d1 + ex - (d2 + ey))).
  set (D := (d1 + ex - (d2 + ey))%Z).
  set (e' := Z.min (fexp64 D) (ex - ey)).
  set (s := (ex - ey - e')%Z).
  assert (Hs : (0 <= s)%Z) by lia.
  assert (Hm' : (match s with Zpos _ => Z.shiftl (Zpos mx) s | Z0 => Zpos mx | Zneg _ => 0 end
                 = Zpos mx * 2 ^ s)%Z).
  { destruct s as [|p|p]; [ring| |lia]. rewrite Z.shiftl_mul_pow2 by lia. reflexivity. }
  rewrite Hm'.
  pose proof (Z_div_mod (Zpos mx * 2 ^ s) (Zpos my) ltac:(lia)) as Hdm.
  destruct (Z.div_eucl (Zpos mx * 2 ^ s) (Zpos my)) as [q r].
  destruct Hdm as [Hqr Hr].
  pose proof (bpow_pos ex). pose proof (bpow_pos ey). pose proof (bpow_pos e').
  assert (Hmx : 0 < IZR (Zpos mx)) by (apply IZR_lt; lia).
  assert (Hmy : 0 < IZR (Zpos my)) by (apply IZR_lt; lia).
  assert (Hq : (0 <= q)%Z).
  { destruct (Z_le_gt_dec 0 q); [auto|]. exfalso.
    assert (Zpos my * q <= - Zpos my)%Z by nia. pose proof (Z.pow_pos_nonneg 2 s). nia. }
  apply binary_round_aux_spec.
  - apply Rdiv_lt_0_compat; apply Rmult_lt_0_compat; auto.
  - auto.
  - assert (Hx : IZR (Zpos mx) * bpow ex / (IZR (Zpos my) * bpow ey) / bpow e'
                 = IZR (Zpos mx * 2 ^ s) / IZR (Zpos my)).
    { rewrite mult_IZR, <- bpow_IZR by lia.
      replace ex with (s + ey + e')%Z at 1 by lia. rewrite !bpow_plus. field. lra. }
    rewrite Hx, Hqr, plus_IZR, mult_IZR.
    replace ((IZR (Zpos my) * IZR q + IZR r) / IZR (Zpos my)) with (IZR r / IZR (Zpos my) + IZR q)
      by (field; lra).
    replace q with (0 + q)%Z at 1 by ring. apply inb_shift, new_location_spec. lia.
  - pose proof (Zdigits2_spec (Zpos mx) eq_refl) as [A1 A2]. fold d1 in A1, A2.
    pose proof (Zdigits2_spec (Zpos my) eq_refl) as [B1 B2]. fold d2 in B1, B2.
    pose proof (Zdigits2_pos (Zpos mx) eq_refl). fold d1 in H2.
    pose proof (Zdigits2_pos (Zpos my) eq_refl). fold d2 in H3.
    assert (He' : (e' <= fexp64 D)%Z) by lia.
    rewrite fexp64_val in He'. rewrite emin64_val.
    destruct (Z.eq_dec q 0) as [->|Hq0].
    + right. split; [auto|].
      (* the quotient is zero: the dividend is smaller than the divisor *)
      assert (Zpos mx * 2 ^ s < Zpos my)%Z by lia.
      assert (2 ^ (d1 - 1 + s) < 2 ^ d2)%Z.
      { rewrite Z.pow_add_r by lia. nia. }
      apply Z.pow_lt_mono_r_iff in H5; [|lia|lia].
      lia.
    + left. split; [lia|]. rewrite fexp64_val.
      assert (Hdq : (d1 + s - d2 <= Zdigits2 q)%Z).
      { destruct (Z_le_gt_dec (d1 + s - d2) 0) as [|G].
        - pose proof (Zdigits2_pos q ltac:(lia)). lia.
        - assert (2 ^ (d1 + s - d2 - 1) <= q)%Z.
          { assert (2 ^ (d1 - 1 + s) <= Zpos mx * 2 ^ s)%Z.
            { rewrite Z.pow_add_r by lia. apply Z.mul_le_mono_nonneg_r; lia. }
            assert (2 ^ (d1 - 1 + s) = 2 ^ (d1 + s - d2 - 1) * 2 ^ d2)%Z.
            { rewrite <- Z.pow_add_r by lia. f_equal. lia. }
            assert (Zpos mx * 2 ^ s < (q + 1) * 2 ^ d2)%Z by nia.
            assert (2 ^ (d1 + s - d2 - 1) < q + 1)%Z.
            { pose proof (Z.pow_pos_nonneg 2 d2). nia. }
            lia. }
          assert (Hk : (0 <= d1 + s - d2 - 1)%Z) by lia.
          pose proof (Zdigits2_ge q _ Hk H4). lia. }
      lia.
Qed.

(** ** Order of positive canonical floats *)

Definition fval (m : positive) (e : Z) : R := IZR (Zpos m) * bpow e.

Lemma fval_pos m e : 0 < fval m e.
Proof. unfold fval. apply Rmult_lt_0_compat; [apply IZR_lt; lia|apply bpow_pos]. Qed.

Lemma fval_exp_lt m1 e1 m2 e2 :
  SpecFloat.valid_binary prec emax (S754_finite false m1 e1) = true ->
  SpecFloat.valid_binary prec emax (S754_finite false m2 e2) = true ->
  (e1 < e2)%Z -> fval m1 e1 < fval m2 e2.
Proof.
  intros V1 V2 H. apply valid_finite_facts in V1 as [E1 [M1 _]].
  apply valid_finite_facts in V2 as [E2 [M2 [N2|N2]]]; [lia|].
  unfold fval. pose proof (bpow_pos e1). pose proof (bpow_pos e2).
  apply Rlt_le_trans with (bpow (e1 + 53)).
  - rewrite bpow_plus, bpow_53, Rmult_comm. apply Rmult_lt_compat_l; [auto|]. apply IZR_lt. auto.
  - apply Rle_trans with (bpow (e2 + 52)); [apply bpow_le; lia|].
    rewrite bpow_plus, bpow_52, Rmult_comm. apply Rmult_le_compat_r; [lra|]. apply IZR_le. auto.
Qed.

Lemma Pos_compare_cont_Eq m1 m2 : Pos.compare_cont Eq m1 m2 = Pos.compare m1 m2.
Proof. reflexivity. Qed.

Lemma SFcompare_pos m1 e1 m2 e2 :
  SpecFloat.valid_binary prec emax (S754_finite false m1 e1) = true ->
  SpecFloat.valid_binary prec emax (S754_finite false m2 e2) = true ->
  SFcompare (S754_finite false m1 e1) (S754_finite false m2 e2) =
  Some (if Rlt_dec (fval m1 e1) (fval m2 e2) then Lt
        else if Rlt_dec (fval m2 e2) (fval m1 e1) then Gt else Eq).
Proof.
  intros V1 V2. cbn [SFcompare]. rewrite Pos_compare_cont_Eq.
  pose proof (bpow_pos e1).
  destruct (Z.compare_spec e1 e2) as [<-|L|G].
  - destruct (Pos.compare_spec m1 m2) as [<-|L|G].
    + destruct (Rlt_dec (fval m1 e1) (fval m1 e1)); [lra|]. reflexivity.
    + assert (fval m1 e1 < fval m2 e1).
      { unfold fval. apply Rmult_lt_compat_r; [auto|]. apply IZR_lt. lia. }
      destruct (Rlt_dec (fval m1 e1) (fval m2 e1)); [reflexivity|lra].
    + assert (fval m2 e1 < fval m1 e1).
      { unfold fval. apply Rmult_lt_compat_r; [auto|]. apply IZR_lt. lia. }
      destruct (Rlt_dec (fval m1 e1) (fval m2 e1)); [lra|].
      destruct (Rlt_dec (fval m2 e1) (fval m1 e1)); [reflexivity|lra].
  - pose proof (fval_exp_lt _ _ _ _ V1 V2 L).
    destruct (Rlt_dec (fval m1 e1) (fval m2 e2)); [reflexivity|lra].
  - pose proof (fval_exp_lt _ _ _ _ V2 V1 G).
    destruct (Rlt_dec (fval m1 e1) (fval m2 e2)); [lra|].
    destruct (Rlt_dec (fval m2 e2) (fval m1 e1)); [reflexivity|lra].
Qed.

(** Non-negative, non-NaN spec floats, read as extended reals ([None] is
    [+oo]). *)
Definition nonneg_sf (r : spec_float) : Prop :=
  match r with
  | S754_zero _ | S754_finite false _ _ | S754_infinity false => True
  | _ => False
  end.

Definition nnval (r : spec_float) : option R :=
  match r with
  | S754_finite _ m e => Some (fval m e)
  | S754_infinity _ => None
  | _ => Some 0
  end.

Definition ext_le (a b : option R) : Prop :=
  match a, b with
  | _, None => True
  | None, Some _ => False
  | Some x, Some y => x <= y
  end.

Definition ext_lt (a b : option R) : Prop :=
  match a, b with
  | Some _, None => True
  | None, _ => False
  | Some x, Some y => x < y
  end.

Lemma SFleb_nonneg r1 r2 :
  SpecFloat.valid_binary prec emax r1 = true -> SpecFloat.valid_binary prec emax r2 = true ->
  nonneg_sf r1 -> nonneg_sf r2 ->
  (SFleb r1 r2 = true <-> ext_le (nnval r1) (nnval r2)).
Proof.
  intros V1 V2 N1 N2.
  destruct r1 as [s1|[]| |[] m1 e1]; try contradiction;
  destruct r2 as [s2|[]| |[] m2 e2]; try contradiction;
  unfold SFleb; cbn [nnval ext_le];
  try (pose proof (fval_pos m1 e1)); try (pose proof (fval_pos m2 e2));
  try (cbn [SFcompare]; split; intros; first [reflexivity | lra | discriminate | exact I]).
  rewrite (SFcompare_pos _ _ _ _ V1 V2).
  destruct (Rlt_dec (fval m1 e1) (fval m2 e2)); [split; intros; [lra|reflexivity]|].
  destruct (Rlt_dec (fval m2 e2) (fval m1 e1)); split; intros; first [reflexivity|lra|discriminate].
Qed.

Lemma SFltb_nonneg r1 r2 :
  SpecFloat.valid_binary prec emax r1 = true -> SpecFloat.valid_binary prec emax r2 = true ->
  nonneg_sf r1 -> nonneg_sf r2 ->
  (SFltb r1 r2 = true <-> ext_lt (nnval r1) (nnval r2)).
Proof.
  intros V1 V2 N1 N2.
  destruct r1 as [s1|[]| |[] m1 e1]; try contradiction;
  destruct r2 as [s2|[]| |[] m2 e2]; try contradiction;
  unfold SFltb; cbn [nnval ext_lt];
  try (pose proof (fval_pos m1 e1)); try (pose proof (fval_pos m2 e2));
  try (cbn [SFcompare]; split; intros; first [reflexivity | lra | discriminate | exact I | contradiction]).
  rewrite (SFcompare_pos _ _ _ _ V1 V2).
  destruct (Rlt_dec (fval m1 e1) (fval m2 e2)); [split; intros; [lra|reflexivity]|].
  destruct (Rlt_dec (fval m2 e2) (fval m1 e1)); split; intros; first [reflexivity|lra|discriminate].
Qed.

(** A rounding with positive sign, read as an extended real. *)
Lemma rounds_to_pos x r : 0 < x -> rounds_to false x r ->
  exists v, round64 x v /\ SpecFloat.valid_binary prec emax r = true /\ nonneg_sf r /\
    ((v < bpow 1024 /\ nnval r = Some v) \/ (bpow 1024 <= v /\ nnval r = None)).
Proof.
  intros Hx [V [v [R C]]]. exists v. split; [auto|]. split; [auto|].
  change (bpow emax) with (bpow 1024) in C.
  pose proof (bpow_pos 1024).
  destruct C as [[-> ->]|[[[Hv1 Hv2] [m [e [-> E]]]]|[Hv ->]]].
  - split; [exact I|]. left. split; [auto|reflexivity].
  - split; [exact I|]. left. split; [auto|]. cbn. unfold fval. rewrite E. reflexivity.
  - split; [exact I|]. right. split; [auto|reflexivity].
Qed.

Lemma rounds_to_le x y r1 r2 : 0 < x <= y -> rounds_to false x r1 -> rounds_to false y r2 ->
  SFleb r1 r2 = true.
Proof.
  intros Hxy H1 H2.
  destruct (rounds_to_pos x r1 ltac:(lra) H1) as [v1 [R1 [V1 [N1 C1]]]].
  destruct (rounds_to_pos y r2 ltac:(lra) H2) as [v2 [R2 [V2 [N2 C2]]]].
  pose proof (round64_mono _ _ _ _ Hxy R1 R2).
  apply SFleb_nonneg; auto.
  destruct C1 as [[? ->]|[? ->]], C2 as [[? ->]|[? ->]]; cbn; auto; lra.
Qed.

(** ** Rounding a float to [n] decimals *)

Lemma rhe_shift_spec (num : Z) (k : positive) : (0 <= num)%Z ->
  rne_rel (IZR num / bpow (Zpos k)) (rhe_shift num k).
Proof.
  intros Hn. unfold rhe_shift.
  set (den := (2 ^ Zpos k)%Z).
  assert (Hden : (0 < den)%Z) by (apply Z.pow_pos_nonneg; lia).
  rewrite (bpow_IZR (Zpos k)) by lia. fold den.
  pose proof (Z.div_mod num den ltac:(lia)) as Hdm.
  pose proof (Z.mod_pos_bound num den Hden) as Hr.
  set (q := (num / den)%Z) in *. set (r := (num mod den)%Z) in *.
  assert (HD : 0 < IZR den) by (apply IZR_lt; auto).
  assert (Hz : IZR num / IZR den = IZR q + IZR r / IZR den).
  { rewrite Hdm, plus_IZR, mult_IZR. field. lra. }
  assert (Hr0 : 0 <= IZR r / IZR den).
  { apply le_div_iff; [auto|]. rewrite Rmult_0_l. apply IZR_le. lia. }
  assert (Hr1 : IZR r / IZR den < 1).
  { apply div_lt_iff; [auto|]. rewrite Rmult_1_l. apply IZR_lt. lia. }
  rewrite Hz. unfold rne_rel.
  destruct (Z.compare_spec (2 * r) den) as [E|L|G].
  - apply (f_equal IZR) in E. rewrite mult_IZR in E.
    assert (IZR r / IZR den = / 2) by (rewrite <- E; field; lra).
    destruct (Z.even q) eqn:Ev.
    + right. split; [right; lra|auto].
    + right. rewrite plus_IZR. split; [left; lra|].
      rewrite Z.even_add, Ev. reflexivity.
  - apply IZR_lt in L. rewrite mult_IZR in L.
    assert (IZR r / IZR den < / 2) by (apply div_lt_iff; [auto|]; lra).
    left. lra.
  - apply IZR_lt in G. rewrite mult_IZR in G.
    assert (/ 2 < IZR r / IZR den) by (apply lt_div_iff; [auto|]; lra).
    left. rewrite plus_IZR. lra.
Qed.

Lemma scaled_round_spec m e n : (0 <= n)%Z ->
  rne_rel (fval m e * IZR (10 ^ n)) (scaled_round false m e n).
Proof.
  intros Hn. unfold scaled_round, fval. cbv iota.
  assert (H10 : (0 < 10 ^ n)%Z) by (apply Z.pow_pos_nonneg; lia).
  destruct e as [|p|p].
  - replace (IZR (Zpos m) * bpow 0 * IZR (10 ^ n)) with (IZR (Zpos m * 10 ^ n * 2 ^ 0)).
    + apply rne_int.
    + rewrite !mult_IZR. unfold bpow. rewrite powerRZ_O. cbn [Z.pow]. ring.
  - replace (IZR (Zpos m) * bpow (Zpos p) * IZR (10 ^ n)) with (IZR (Zpos m * 10 ^ n * 2 ^ Zpos p)).
    + apply rne_int.
    + rewrite !mult_IZR, <- bpow_IZR by lia. ring.
  - replace (IZR (Zpos m) * bpow (Zneg p) * IZR (10 ^ n))
      with (IZR (Zpos m * 10 ^ n) / bpow (Zpos p)).
    + apply rhe_shift_spec. lia.
    + change (Zneg p) with (- Zpos p)%Z. rewrite bpow_opp, mult_IZR.
      pose proof (bpow_pos (Zpos p)). field. lra.
Qed.

Lemma scaled_round_nonneg m e n : (0 <= n)%Z -> (0 <= scaled_round false m e n)%Z.
Proof.
  intros Hn. apply (rne_ge_int (fval m e * IZR (10 ^ n))); [|apply scaled_round_spec; auto].
  change (IZR 0) with 0. apply Rmult_le_pos; [apply Rlt_le, fval_pos|].
  apply IZR_le. apply Z.pow_nonneg. lia.
Qed.

Lemma Prim2SF_zero : Prim2SF 0%float = S754_zero false.
Proof. reflexivity. Qed.

Lemma Prim2SF_neg_zero : Prim2SF (-0)%float = S754_zero true.
Proof. reflexivity. Qed.

(** [round(x, n)] on a finite nonzero float: the decimal integer [k] is
    [x * 10^n] rounded half-to-even, and the result is [k / 10^n] rounded
    to binary64, with the sign of [x]. *)
Lemma round_nd_finite (x : float) s m e n : Prim2SF x = S754_finite s m e -> (0 <= n)%Z ->
  let k := scaled_round false m e n in
  rne_rel (fval m e * IZR (10 ^ n)) k /\ (0 <= k)%Z /\
  ((k = 0%Z /\ Prim2SF (round_nd x n) = S754_zero s) \/
   (exists p, k = Zpos p /\
      rounds_to s (IZR (Zpos p) / IZR (10 ^ n)) (Prim2SF (round_nd x n)))).
Proof.
  intros Hx Hn k. split; [apply scaled_round_spec; auto|].
  split; [apply scaled_round_nonneg; auto|].
  assert (Hk : scaled_round s m e n = if s then Z.opp k else k) by reflexivity.
  unfold round_nd. rewrite Hx. cbv zeta. rewrite Hk.
  assert (H10 : (0 < 10 ^ n)%Z) by (apply Z.pow_pos_nonneg; lia).
  assert (Hdiv : forall sx p, rounds_to sx (IZR (Zpos p) / IZR (10 ^ n))
      (SFdiv prec emax (S754_finite sx p 0) (S754_finite false (Z.to_pos (10 ^ n)) 0))).
  { intros sx p. pose proof (SFdiv_spec sx p 0 false (Z.to_pos (10 ^ n)) 0) as H.
    rewrite xorb_false_r in H. rewrite Z2Pos.id in H by lia.
    replace (IZR (Zpos p) * bpow 0 / (IZR (10 ^ n) * bpow 0)) with (IZR (Zpos p) / IZR (10 ^ n)) in H.
    - exact H.
    - unfold bpow. rewrite powerRZ_O. field. apply not_0_IZR. lia. }
  destruct k as [|p|p] eqn:Ek; [left|right|].
  - split; [reflexivity|]. destruct s; reflexivity.
  - exists p. split; [reflexivity|]. destruct s; cbn [Z.opp];
      rewrite Prim2SF_SF2Prim; try apply Hdiv; apply (Hdiv _ p).
  - exfalso. pose proof (scaled_round_nonneg m e n Hn). fold k in H. lia.
Qed.

Lemma round_nd_nonfinite (x : float) n :
  (forall s m e, Prim2SF x <> S754_finite s m e) -> round_nd x n = x.
Proof.
  intros H. unfold round_nd. destruct (Prim2SF x) eqn:E; try reflexivity.
  exfalso. eapply H. reflexivity.
Qed.

(** ** Primitive operations *)

Lemma prim_mul_finite (a b : float) sa ma ea sb mb eb :
  Prim2SF a = S754_finite sa ma ea -> Prim2SF b = S754_finite sb mb eb ->
  rounds_to (xorb sa sb) (fval ma ea * fval mb eb) (Prim2SF (a * b)%float).
Proof.
  intros Ha Hb. rewrite FloatAxioms.mul_spec, Ha, Hb. apply SFmul_spec.
  - rewrite <- Ha. apply FloatAxioms.Prim2SF_valid.
  - rewrite <- Hb. apply FloatAxioms.Prim2SF_valid.
Qed.

Lemma prim_div_finite (a b : float) sa ma ea sb mb eb :
  Prim2SF a = S754_finite sa ma ea -> Prim2SF b = S754_finite sb mb eb ->
  rounds_to (xorb sa sb) (fval ma ea / fval mb eb) (Prim2SF (a / b)%float).
Proof.
  intros Ha Hb. rewrite FloatAxioms.div_spec, Ha, Hb. apply SFdiv_spec.
Qed.

(** A rounding with sign [s], read through its magnitude. *)
Lemma rounds_to_mag s x r : 0 < x -> rounds_to s x r ->
  exists v, round64 x v /\ SpecFloat.valid_binary prec emax r = true /\
    ((v = 0 /\ r = S754_zero s) \/
     (0 < v < bpow 1024 /\ exists m e, r = S754_finite s m e /\ fval m e = v) \/
     (bpow 1024 <= v /\ r = S754_infinity s)).
Proof.
  intros Hx [V [v [R C]]]. exists v. split; [auto|]. split; [auto|]. exact C.
Qed.

(** ** Finite floats of a given sign, read through their magnitude *)

Definition mag (x : float) (s : bool) (X : R) : Prop :=
  (Prim2SF x = S754_zero s /\ X = 0) \/
  (exists m e, Prim2SF x = S754_finite s m e /\ X = fval m e).

Definition big : R := IZR (10 ^ 308).

Lemma bpow_1024_big : big * (1 + u64) + 1 < bpow 1024.
Proof.
  unfold big, u64. rewrite bpow_IZR by lia.
  assert (IZR (10 ^ 308) * 3 + 2 < IZR (2 ^ 1024) * 2).
  { rewrite <- !mult_IZR, <- plus_IZR. apply IZR_lt. vm_compute. reflexivity. }
  assert (0 < IZR (10 ^ 308)) by (apply IZR_lt; vm_compute; reflexivity).
  assert (IZR (10 ^ 308) * / 9007199254740992 <= IZR (10 ^ 308)).
  { rewrite <- (Rmult_1_r (IZR (10 ^ 308))) at 2. apply Rmult_le_compat_l; lra. }
  lra.
Qed.

Lemma tiny64_small : tiny64 <= / 1208925819614629174706176.
Proof.
  unfold tiny64. apply Rle_trans with (bpow (-80)); [apply bpow_le; lia|].
  change (-80)%Z with (Z.opp 80). rewrite bpow_opp, bpow_IZR by lia. apply Rle_refl.
Qed.

Lemma u64_pos : 0 < u64.
Proof. unfold u64. apply Rinv_0_lt_compat. lra. Qed.

Lemma mag_nonneg x s X : mag x s X -> 0 <= X.
Proof.
  intros [[_ ->]|[m [e [_ ->]]]]; [lra|apply Rlt_le, fval_pos].
Qed.

Lemma mag_sfval x s X : mag x s X -> sfval (Prim2SF x) = if s then - X else X.
Proof.
  intros [[-> ->]|[m [e [-> ->]]]]; destruct s; cbn [sfval]; unfold fval; try lra; reflexivity.
Qed.

Lemma mag_of_rounds s x r :
  0 < x -> rounds_to s x r -> x * (1 + u64) + tiny64 <= big * (1 + u64) + 1 ->
  forall y : float, Prim2SF y = r ->
  exists Y, mag y s Y /\ round64 x Y /\ x - (x * u64 + tiny64) <= Y <= x + (x * u64 + tiny64).
Proof.
  intros Hx H Hb y Hy. destruct (rounds_to_mag s x r Hx H) as [v [R [_ C]]].
  pose proof (round64_err x v Hx R). exists v. split; [|split; auto].
  pose proof bpow_1024_big.
  destruct C as [[-> ->]|[[_ [m [e [-> E]]]]|[Hv ->]]].
  - left. auto.
  - right. exists m, e. split; [auto|symmetry; exact E].
  - exfalso. pose proof u64_pos. lra.
Qed.

Lemma mul_mag x c s X mc ec : mag x s X -> Prim2SF c = S754_finite false mc ec ->
  X * fval mc ec <= big ->
  exists Y, mag (x * c)%float s Y /\
    X * fval mc ec - (X * fval mc ec * u64 + tiny64) <= Y <= X * fval mc ec + (X * fval mc ec * u64 + tiny64).
Proof.
  intros [[Hx ->]|[m [e [Hx ->]]]] Hc Hb.
  - exists 0. split.
    + left. split; [|auto]. rewrite FloatAxioms.mul_spec, Hx, Hc. cbn. rewrite xorb_false_r. reflexivity.
    + pose proof tiny64_pos. lra.
  - pose proof (prim_mul_finite _ _ _ _ _ _ _ _ Hx Hc) as H. rewrite xorb_false_r in H.
    pose proof (fval_pos m e). pose proof (fval_pos mc ec). pose proof u64_pos.
    assert (Hp : 0 < fval m e * fval mc ec) by (apply Rmult_lt_0_compat; auto).
    destruct (mag_of_rounds s _ _ Hp H) with (y := (x * c)%float) as [Y [M [_ B]]]; auto.
    + pose proof tiny64_small. nra.
    + exists Y. auto.
Qed.

Lemma mul_mag_l c x s X mc ec : mag x s X -> Prim2SF c = S754_finite false mc ec ->
  fval mc ec * X <= big ->
  exists Y, mag (c * x)%float s Y /\
    fval mc ec * X - (fval mc ec * X * u64 + tiny64) <= Y <= fval mc ec * X + (fval mc ec * X * u64 + tiny64).
Proof.
  intros [[Hx ->]|[m [e [Hx ->]]]] Hc Hb.
  - exists 0. split.
    + left. split; [|auto]. rewrite FloatAxioms.mul_spec, Hx, Hc. reflexivity.
    + pose proof tiny64_pos. lra.
  - pose proof (prim_mul_finite _ _ _ _ _ _ _ _ Hc Hx) as H. rewrite xorb_false_l in H.
    pose proof (fval_pos m e). pose proof (fval_pos mc ec). pose proof u64_pos.
    assert (Hp : 0 < fval mc ec * fval m e) by (apply Rmult_lt_0_compat; auto).
    destruct (mag_of_rounds s _ _ Hp H) with (y := (c * x)%float) as [Y [M [_ B]]]; auto.
    + pose proof tiny64_small. nra.
    + exists Y. auto.
Qed.

Lemma div_mag x c s X mc ec : mag x s X -> Prim2SF c = S754_finite false mc ec ->
  X / fval mc ec <= big ->
  exists Y, mag (x / c)%float s Y /\
    X / fval mc ec - (X / fval mc ec * u64 + tiny64) <= Y <= X / fval mc ec + (X / fval mc ec * u64 + tiny64).
Proof.
  intros [[Hx ->]|[m [e [Hx ->]]]] Hc Hb.
  - exists 0. split.
    + left. split; [|auto]. rewrite FloatAxioms.div_spec, Hx, Hc. cbn. rewrite xorb_false_r. reflexivity.
    + pose proof tiny64_pos. unfold Rdiv. rewrite Rmult_0_l. lra.
  - pose proof (prim_div_finite _ _ _ _ _ _ _ _ Hx Hc) as H. rewrite xorb_false_r in H.
    pose proof (fval_pos m e). pose proof (fval_pos mc ec). pose proof u64_pos.
    assert (Hp : 0 < fval m e / fval mc ec) by (apply Rdiv_lt_0_compat; auto).
    destruct (mag_of_rounds s _ _ Hp H) with (y := (x / c)%float) as [Y [M [_ B]]]; auto.
    + pose proof tiny64_small. nra.
    + exists Y. auto.
Qed.

(** [round(x, n)]: within half a unit of the [n]-th decimal, plus the
    binary64 rounding of the decimal result; zero below half a unit. *)
Lemma round_nd_mag x s X n : mag x s X -> (0 <= n)%Z -> X <= big ->
  exists Y, mag (round_nd x n) s Y /\
    (X * IZR (10 ^ n) < /2 -> Y = 0) /\
    X - / 2 / IZR (10 ^ n) - ((X + / 2 / IZR (10 ^ n)) * u64 + tiny64) <= Y /\
    Y <= X + / 2 / IZR (10 ^ n) + ((X + / 2 / IZR (10 ^ n)) * u64 + tiny64).
Proof.
  intros HM Hn Hb.
  assert (Hq : 1 <= IZR (10 ^ n)).
  { apply IZR_le. assert (0 < 10 ^ n)%Z by (apply Z.pow_pos_nonneg; lia). lia. }
  set (q := IZR (10 ^ n)) in *.
  assert (Hh : 0 < / 2 / q) by (apply Rdiv_lt_0_compat; lra).
  pose proof u64_pos. pose proof tiny64_pos. pose proof tiny64_small.
  destruct HM as [[Hx ->]|[m [e [Hx ->]]]].
  - exists 0. split; [left; split; [rewrite round_nd_nonfinite; auto; congruence|auto]|].
    split; [auto|]. nra.
  - pose proof (fval_pos m e).
    destruct (round_nd_finite x s m e n Hx Hn) as [Rk [Hk0 C]].
    fold q in Rk.
    set (k := scaled_round false m e n) in *.
    pose proof (rne_lower _ _ Rk) as H3. pose proof (rne_upper _ _ Rk) as H4.
    assert (Hqd : forall a b, a <= b * q -> a / q <= b).
    { intros a b Hab. apply div_le_iff; lra. }
    assert (Hqd' : forall a b, b * q <= a -> b <= a / q).
    { intros a b Hab. apply le_div_iff; lra. }
    assert (Hz : fval m e * q < /2 -> k = 0%Z).
    { intros Hlt. assert (Hk1 : IZR k < 1) by lra. apply lt_IZR in Hk1. lia. }
    destruct C as [[Ek Hr]|[p [Ek Hr]]].
    + exists 0. split; [left; auto|]. split; [auto|].
      rewrite Ek in H3, H4. change (IZR 0) with 0 in H3, H4.
      assert (fval m e <= / 2 / q) by (apply Hqd'; lra). nra.
    + rewrite Ek in H3, H4.
      assert (Hp : 0 < IZR (Zpos p) / q) by (apply Rdiv_lt_0_compat; [apply IZR_lt; lia|lra]).
      assert (L1 : fval m e - / 2 / q <= IZR (Zpos p) / q).
      { apply Hqd'. unfold Rdiv. rewrite Rmult_minus_distr_r, Rmult_assoc, Rinv_l by lra. lra. }
      assert (L2 : IZR (Zpos p) / q <= fval m e + / 2 / q).
      { apply Hqd. unfold Rdiv. rewrite Rmult_plus_distr_r, Rmult_assoc, Rinv_l by lra. lra. }
      assert (Hh2 : / 2 / q <= / 2) by (apply Hqd; nra).
      destruct (mag_of_rounds s _ _ Hp Hr) with (y := round_nd x n) as [Y [M [_ B]]]; auto.
      { assert (IZR (Zpos p) / q * u64 <= (big + / 2) * u64) by (apply Rmult_le_compat_r; lra).
        assert (u64 < / 2) by (unfold u64; lra).
        set (P := IZR (Zpos p) / q) in *. lra. }
      exists Y. split; [auto|]. split; [intros Hlt; specialize (Hz Hlt); congruence|].
      nra.
Qed.

Lemma mag_read x s X : mag x s X ->
  SpecFloat.valid_binary prec emax (Prim2SF x) = true /\ nnval (Prim2SF x) = Some X /\
  (s = false -> nonneg_sf (Prim2SF x)).
Proof.
  intros H. split; [apply FloatAxioms.Prim2SF_valid|].
  destruct H as [[-> ->]|[m [e [-> ->]]]]; split; try reflexivity; intros ->; exact I.
Qed.

Lemma mag_ltb x y X Y : mag x false X -> mag y false Y -> X < Y -> (x <? y)%float = true.
Proof.
  intros Hx Hy H. apply mag_read in Hx as [Vx [Nx Px]]. apply mag_read in Hy as [Vy [Ny Py]].
  rewrite FloatAxioms.ltb_spec. apply SFltb_nonneg; auto. rewrite Nx, Ny. exact H.
Qed.

Lemma mag_leb x y X Y : mag x false X -> mag y false Y -> X <= Y -> (x <=? y)%float = true.
Proof.
  intros Hx Hy H. apply mag_read in Hx as [Vx [Nx Px]]. apply mag_read in Hy as [Vy [Ny Py]].
  rewrite FloatAxioms.leb_spec. apply SFleb_nonneg; auto. rewrite Nx, Ny. exact H.
Qed.

Lemma fval_neg m p : fval m (Zneg p) = IZR (Zpos m) / IZR (2 ^ Zpos p).
Proof.
  unfold fval. change (Zneg p) with (- Zpos p)%Z. rewrite bpow_opp, bpow_IZR by lia. reflexivity.
Qed.

Lemma fval_posexp m p : fval m (Zpos p) = IZR (Zpos m * 2 ^ Zpos p).
Proof. unfold fval. rewrite bpow_IZR by lia. rewrite mult_IZR. reflexivity. Qed.

(** A float [r] with [lo <= r <= hi] for finite positive bounds is a
    positive finite float between their values. *)
Lemma leb_between (lo r hi : float) mlo elo mhi ehi :
  Prim2SF lo = S754_finite false mlo elo -> Prim2SF hi = S754_finite false mhi ehi ->
  (lo <=? r)%float = true -> (r <=? hi)%float = true ->
  exists m e, Prim2SF r = S754_finite false m e /\ fval mlo elo <= fval m e <= fval mhi ehi.
Proof.
  intros Hlo Hhi H1 H2. rewrite FloatAxioms.leb_spec, Hlo in H1. rewrite FloatAxioms.leb_spec, Hhi in H2.
  pose proof (FloatAxioms.Prim2SF_valid r) as Vr.
  pose proof (FloatAxioms.Prim2SF_valid lo) as Vlo. rewrite Hlo in Vlo.
  pose proof (FloatAxioms.Prim2SF_valid hi) as Vhi. rewrite Hhi in Vhi.
  destruct (Prim2SF r) as [s| [] | |[] m e]; try (cbn in H1; discriminate); try (cbn in H2; discriminate).
  all: exists m, e; split; [reflexivity|].
  all: apply SFleb_nonneg in H1; try exact I; auto; apply SFleb_nonneg in H2; try exact I; auto.
  all: cbn in H1, H2; lra.
Qed.

Lemma leb_zero_nonneg (x y : float) s :
  Prim2SF x = S754_zero s -> nonneg_sf (Prim2SF y) -> (x <=? y)%float = true.
Proof.
  intros Hx Hy. rewrite FloatAxioms.leb_spec, Hx.
  destruct (Prim2SF y) as [s'|[]| |[] m e]; try contradiction; reflexivity.
Qed.

Lemma leb_nonneg_inf (x y : float) :
  nonneg_sf (Prim2SF x) -> Prim2SF y = S754_infinity false -> (x <=? y)%float = true.
Proof.
  intros Hx Hy. rewrite FloatAxioms.leb_spec, Hy.
  destruct (Prim2SF x) as [s'|[]| |[] m e]; try contradiction; reflexivity.
Qed.

Lemma round_nd_nonneg (x : float) n : (0 <= n)%Z ->
  nonneg_sf (Prim2SF x) -> nonneg_sf (Prim2SF (round_nd x n)).
Proof.
  intros Hn Hx. destruct (Prim2SF x) as [s|s| |[] m e] eqn:E; try contradiction.
  - rewrite round_nd_nonfinite by congruence. rewrite E. exact I.
  - rewrite round_nd_nonfinite by congruence. rewrite E. exact Hx.
  - destruct (round_nd_finite x false m e n E Hn) as [_ [_ [[_ ->]|[p [_ R]]]]]; [exact I|].
    assert (0 < IZR (Zpos p) / IZR (10 ^ n)).
    { apply Rdiv_lt_0_compat; apply IZR_lt; [lia|apply Z.pow_pos_nonneg; lia]. }
    destruct (rounds_to_pos _ _ H R) as [_ [_ [_ [N _]]]]. exact N.
Qed.

(** [round(., n)] is monotone on non-negative floats. *)
Lemma round_nd_mono (x y : float) n : (0 <= n)%Z ->
  nonneg_sf (Prim2SF x) -> nonneg_sf (Prim2SF y) -> (x <=? y)%float = true ->
  (round_nd x n <=? round_nd y n)%float = true.
Proof.
  intros Hn Nx Ny Hxy.
  pose proof (round_nd_nonneg y n Hn Ny) as Ry.
  rewrite FloatAxioms.leb_spec in Hxy.
  apply SFleb_nonneg in Hxy; auto using FloatAxioms.Prim2SF_valid.
  destruct (Prim2SF x) as [s|[]| |[] m e] eqn:Ex; try contradiction.
  - apply (leb_zero_nonneg _ _ s); auto. rewrite round_nd_nonfinite; [exact Ex|congruence].
  - destruct (Prim2SF y) as [s'|[]| |[] m' e'] eqn:Ey; try contradiction; cbn in Hxy; try contradiction.
    apply leb_nonneg_inf; rewrite round_nd_nonfinite by congruence; rewrite ?Ex, ?Ey; exact I || reflexivity.
  - destruct (round_nd_finite x false m e n Ex Hn) as [Rk [_ [[_ Z]|[p [Ek R]]]]].
    + apply (leb_zero_nonneg _ _ false); auto.
    + assert (Hq : 0 < IZR (10 ^ n)) by (apply IZR_lt, Z.pow_pos_nonneg; lia).
      assert (Hp : 0 < IZR (Zpos p) / IZR (10 ^ n)) by (apply Rdiv_lt_0_compat; [apply IZR_lt; lia|auto]).
      destruct (Prim2SF y) as [s'|[]| |[] m' e'] eqn:Ey; try contradiction; cbn in Hxy.
      * exfalso. pose proof (fval_pos m e). lra.
      * apply leb_nonneg_inf; [apply round_nd_nonneg; auto; rewrite Ex; exact I|].
        rewrite round_nd_nonfinite by congruence. exact Ey.
      * destruct (round_nd_finite y false m' e' n Ey Hn) as [Rk' [_ [[Ek' _]|[p' [Ek' R']]]]].
        -- exfalso. assert (scaled_round false m e n <= scaled_round false m' e' n)%Z.
           { eapply rne_mono; [|exact Rk|exact Rk']. apply Rmult_le_compat_r; lra. }
           lia.
        -- assert (scaled_round false m e n <= scaled_round false m' e' n)%Z.
           { eapply rne_mono; [|exact Rk|exact Rk']. apply Rmult_le_compat_r; lra. }
           rewrite Ek, Ek' in H. rewrite FloatAxioms.leb_spec.
           assert (IZR (Zpos p) / IZR (10 ^ n) <= IZR (Zpos p') / IZR (10 ^ n)).
           { unfold Rdiv. apply Rmult_le_compat_r; [apply Rlt_le, Rinv_0_lt_compat; auto|]. apply IZR_le. auto. }
           apply (rounds_to_le _ _ _ _ (conj Hp H0) R R').
Qed.

Lemma mul_nonneg_mono (c1 c2 r : float) m1 e1 m2 e2 :
  Prim2SF c1 = S754_finite false m1 e1 -> Prim2SF c2 = S754_finite false m2 e2 ->
  fval m1 e1 <= fval m2 e2 -> (0 <=? r)%float = true ->
  nonneg_sf (Prim2SF (c1 * r)%float) /\ nonneg_sf (Prim2SF (c2 * r)%float) /\
  (c1 * r <=? c2 * r)%float = true.
Proof.
  intros H1 H2 Hc Hr. rewrite FloatAxioms.leb_spec in Hr.
  rewrite !FloatAxioms.leb_spec, !FloatAxioms.mul_spec, H1, H2.
  pose proof (FloatAxioms.Prim2SF_valid r) as Vr.
  pose proof (FloatAxioms.Prim2SF_valid c1) as V1. rewrite H1 in V1.
  pose proof (FloatAxioms.Prim2SF_valid c2) as V2. rewrite H2 in V2.
  destruct (Prim2SF r) as [s|[]| |[] m e] eqn:Er; try discriminate Hr.
  - destruct s; repeat split; reflexivity.
  - repeat split; reflexivity.
  - pose proof (SFmul_spec _ _ _ _ _ _ V1 Vr) as R1. pose proof (SFmul_spec _ _ _ _ _ _ V2 Vr) as R2.
    cbn [xorb] in R1, R2. fold (fval m1 e1) (fval m2 e2) (fval m e) in R1, R2.
    pose proof (fval_pos m1 e1) as P1. pose proof (fval_pos m e) as P.
    assert (Q1 : 0 < fval m1 e1 * fval m e) by (apply Rmult_lt_0_compat; auto).
    destruct (rounds_to_pos _ _ Q1 R1) as [_ [_ [_ [N1 _]]]].
    assert (Q2 : 0 < fval m2 e2 * fval m e) by (apply Rmult_lt_0_compat; lra).
    destruct (rounds_to_pos _ _ Q2 R2) as [_ [_ [_ [N2 _]]]].
    split; [auto|]. split; [auto|].
    assert (Q3 : fval m1 e1 * fval m e <= fval m2 e2 * fval m e) by (apply Rmult_le_compat_r; lra).
    apply (rounds_to_le _ _ _ _ (conj Q1 Q3) R1 R2).
Qed.

Lemma mag_lt_bpow1024 x s X : mag x s X -> X < bpow 1024.
Proof.
  intros [[_ ->]|[m [e [Hx ->]]]]; [apply bpow_pos|].
  pose proof (FloatAxioms.Prim2SF_valid x) as V. rewrite Hx in V.
  apply valid_finite_facts in V as [E [M _]].
  unfold fval. apply Rlt_le_trans with (bpow 53 * bpow e).
  - apply Rmult_lt_compat_r; [apply bpow_pos|]. rewrite bpow_53. apply IZR_lt. exact M.
  - rewrite <- bpow_plus. apply bpow_le. lia.
Qed.

Lemma half_bpow1024_big : bpow 1024 / 2 * (1 + / 1000) <= big /\ 1000 <= bpow 1024.
Proof.
  unfold big. rewrite bpow_IZR by lia.
  assert (IZR (2 ^ 1024) * 1001 <= IZR (10 ^ 308) * 2000).
  { rewrite <- !mult_IZR. apply IZR_le. vm_compute. discriminate. }
  assert (1000 < IZR (2 ^ 1024)) by (apply IZR_lt; vm_compute; reflexivity).
  lra.
Qed.

Lemma mag_finite x s X : mag x s X -> is_finite_b x = true.
Proof. unfold is_finite_b. intros [[-> _]|[m [e [-> _]]]]; reflexivity. Qed.

(** One macronutrient: [round((D * pc) / w, 2)] with the rounding error of
    each of its three steps. *)
Lemma macro_chain (D pc w : float) s X mp ep mw ew :
  mag D s X -> Prim2SF pc = S754_finite false mp ep -> Prim2SF w = S754_finite false mw ew ->
  fval mp ep <= / 2 -> 1 <= fval mw ew ->
  exists x1 x2 G, mag (round_nd ((D * pc) / w) 2) s G /\
    X * fval mp ep - (X * fval mp ep * u64 + tiny64) <= x1 <= X * fval mp ep + (X * fval mp ep * u64 + tiny64) /\
    x1 / fval mw ew - (x1 / fval mw ew * u64 + tiny64) <= x2 <= x1 / fval mw ew + (x1 / fval mw ew * u64 + tiny64) /\
    (x2 * 100 < / 2 -> G = 0) /\
    x2 - / 2 / 100 - ((x2 + / 2 / 100) * u64 + tiny64) <= G <= x2 + / 2 / 100 + ((x2 + / 2 / 100) * u64 + tiny64).
Proof.
  intros HD Hp Hw Hpc HW.
  pose proof (mag_lt_bpow1024 _ _ _ HD) as XB. pose proof (mag_nonneg _ _ _ HD) as X0.
  pose proof half_bpow1024_big as [HB1 HB2]. pose proof u64_pos. pose proof tiny64_pos.
  pose proof (fval_pos mp ep). pose proof (fval_pos mw ew).
  assert (A : X * fval mp ep <= bpow 1024 / 2) by nra.
  destruct (mul_mag D pc s X mp ep HD Hp) as [x1 [M1 B1]]; [nra|].
  pose proof (mag_nonneg _ _ _ M1).
  assert (x1 / fval mw ew <= x1) by (apply div_le_iff; nra).
  pose proof tiny64_small.
  destruct (div_mag _ w s x1 mw ew M1 Hw) as [x2 [M2 B2]]; [unfold u64 in *; lra|].
  pose proof (mag_nonneg _ _ _ M2).
  destruct (round_nd_mag _ _ _ 2 M2 ltac:(lia)) as [G [MG [Z [Gl Gu]]]]; [unfold u64 in *; lra|].
  change (IZR (10 ^ 2)) with 100 in Z, Gl, Gu.
  exists x1, x2, G. repeat split; auto; lra.
Qed.

Lemma mag_of_finite x : is_finite_b x = true -> exists s X, mag x s X.
Proof.
  unfold is_finite_b, mag. destruct (Prim2SF x) as [s|s| |s m e] eqn:E; try discriminate; intros _.
  - exists s, 0. left. auto.
  - exists s, (fval m e). right. exists m, e. auto.
Qed.


Lemma rne_opp z n : rne_rel z n -> rne_rel (- z) (- n).
Proof.
  unfold rne_rel. rewrite opp_IZR, Z.even_opp. intros [H|[H E]]; [left; lra|right; split; [lra|auto]].
Qed.

(** [round(x)] of a finite float: the nearest integer, ties to even. *)
Lemma round_int_mag x s X : mag x s X ->
  exists k, round_int x = Ok k /\ rne_rel (if s then - X else X) k.
Proof.
  unfold round_int. intros [[-> ->]|[m [e [-> ->]]]].
  - exists 0%Z. split; [reflexivity|]. replace (if s then - 0 else 0) with (IZR 0) by (destruct s; cbn; lra).
    apply rne_int.
  - exists (scaled_round s m e 0). split; [reflexivity|].
    pose proof (scaled_round_spec m e 0 ltac:(lia)) as H.
    change (IZR (10 ^ 0)) with 1 in H. rewrite Rmult_1_r in H.
    assert (Hk : scaled_round s m e 0 = if s then Z.opp (scaled_round false m e 0) else scaled_round false m e 0)
      by reflexivity.
    rewrite Hk. destruct s; [apply rne_opp|]; exact H.
Qed.

(** A rounded share [k = round(fl(D * c))] of [D = +-X] against the exact
    share [+-P], where [fl(D * c) = +-Y] and [Y] is the rounding of [A = X * c],
    and [c] approximates the exact fraction to within a relative [u64]. *)
Lemma share_bound (s : bool) (X P A Y : R) (k : Z) :
  0 <= X -> 0 <= P <= 35 / 100 * X -> P - P * u64 <= A <= P + P * u64 ->
  A - (A * u64 + tiny64) <= Y <= A + (A * u64 + tiny64) ->
  rne_rel (if s then - Y else Y) k ->
  Rabs (IZR k - (if s then - P else P)) <= / 2 + X * bpow (-52).
Proof.
  intros X0 HP HA HY Hk.
  pose proof (rne_lower _ _ Hk). pose proof (rne_upper _ _ Hk).
  pose proof u64_pos. pose proof tiny64_pos. pose proof tiny64_small.
  assert (B52 : bpow (-52) = / 4503599627370496).
  { change (-52)%Z with (Z.opp 52). rewrite bpow_opp, bpow_IZR by lia. reflexivity. }
  rewrite B52. unfold u64 in *.
  destruct (Rle_lt_dec 1 X) as [Lg|Sm].
  - apply Rabs_le. destruct s; lra.
  - assert (Y < / 2) by lra.
    assert (k = 0%Z).
    { assert (IZR k < 1 /\ -1 < IZR k) as [K1 K2] by (destruct s; lra).
      apply lt_IZR in K1. apply lt_IZR in K2. lia. }
    subst k. apply Rabs_le. destruct s; lra.
Qed.

(** ** Products of non-negative floats by the ideal-weight factors *)

Lemma ideal_strict (r : float) :
  (0.02 <=? r)%float = true -> (r <=? 1e306)%float = true ->
  (round_nd (18.5 * r) 1 <? round_nd (24.9 * r) 1)%float = true.
Proof.
  intros H1 H2.
  destruct (leb_between 0.02 r 1e306 5764607523034235 (-58) 6413338752028713 964
              eq_refl eq_refl H1 H2) as [m [e [Hr [L U]]]].
  rewrite fval_neg in L. rewrite fval_posexp in U.
  set (S := fval m e) in *.
  assert (Mr : mag r false S) by (right; exists m, e; auto).
  pose proof u64_pos. pose proof tiny64_pos. pose proof tiny64_small.
  assert (Hbig : IZR (Zpos 6413338752028713 * 2 ^ Zpos 964) * 25 <= big).
  { unfold big. rewrite <- mult_IZR. apply IZR_le. vm_compute. discriminate. }
  assert (E1 : fval 5207287069147136 (-48) = 37 / 2) by (rewrite fval_neg; vm_compute (2 ^ Zpos 48)%Z; lra).
  assert (E2 : 248999 / 10000 <= fval 7008726920095334 (-48) <= 249 / 10).
  { rewrite fval_neg. vm_compute (2 ^ Zpos 48)%Z. split; lra. }
  pose proof (fval_pos m e) as Spos. fold S in Spos.
  assert (P2l : 248999 / 10000 * S <= fval 7008726920095334 (-48) * S) by nra.
  assert (P2u : fval 7008726920095334 (-48) * S <= 249 / 10 * S) by nra.
  destruct (mul_mag_l 18.5 r false S 5207287069147136 (-48) Mr eq_refl) as [Y1 [M1 B1]]; [rewrite E1; lra|].
  destruct (mul_mag_l 24.9 r false S 7008726920095334 (-48) Mr eq_refl) as [Y2 [M2 B2]]; [lra|].
  rewrite E1 in B1.
  set (P2 := fval 7008726920095334 (-48) * S) in *.
  unfold u64 in *.
  assert (H4 : Y1 <= big) by lra.
  assert (H5 : Y2 <= big) by lra.
  destruct (round_nd_mag _ _ _ 1 M1 ltac:(lia) H4) as [Z1 [N1 [_ [_ Z1u]]]].
  destruct (round_nd_mag _ _ _ 1 M2 ltac:(lia) H5) as [Z2 [N2 [_ [Z2l _]]]].
  apply (mag_ltb _ _ _ _ N1 N2).
  change (IZR (10 ^ 1)) with 10 in *. unfold u64 in *.
  assert (5764607523034235 / IZR (2 ^ 58) = 5764607523034235 / 288230376151711744) as EL.
  { reflexivity. }
  lra.
Qed.

Lemma ideal_le (r : float) :
  (0 <=? r)%float = true ->
  (round_nd (18.5 * r) 1 <=? round_nd (24.9 * r) 1)%float = true.
Proof.
  intros Hr.
  assert (E1 : fval 5207287069147136 (-48) = 37 / 2) by (rewrite fval_neg; vm_compute (2 ^ Zpos 48)%Z; lra).
  assert (E2 : 248999 / 10000 <= fval 7008726920095334 (-48)).
  { rewrite fval_neg. vm_compute (2 ^ Zpos 48)%Z. lra. }
  destruct (mul_nonneg_mono 18.5 24.9 r 5207287069147136 (-48) 7008726920095334 (-48)
              eq_refl eq_refl ltac:(lra) Hr) as [N1 [N2 L]].
  apply round_nd_mono; auto. lia.
Qed.

(** ** Evaluating constants in proofs *)

Ltac eval_pow2 :=
  repeat match goal with
  | H : context [ (2 ^ Zpos ?p)%Z ] |- _ =>
      let v := eval vm_compute in (2 ^ Zpos p)%Z in change (2 ^ Zpos p)%Z with v in H
  | |- context [ (2 ^ Zpos ?p)%Z ] =>
      let v := eval vm_compute in (2 ^ Zpos p)%Z in change (2 ^ Zpos p)%Z with v
  end.

Ltac fval_num := rewrite ?fval_neg in *; eval_pow2.

Ltac chain_of D s X HD p w :=
  let sp := eval vm_compute in (Prim2SF p) in
  let sw := eval vm_compute in (Prim2SF w) in
  lazymatch sp with S754_finite false ?mp ?ep =>
  lazymatch sw with S754_finite false ?mw ?ew =>
    let F1 := fresh "F" in let F2 := fresh "F" in
    assert (F1 : fval mp ep <= / 2) by (fval_num; lra);
    assert (F2 : 1 <= fval mw ew) by (fval_num; lra);
    destruct (macro_chain D p w s X mp ep mw ew HD eq_refl eq_refl F1 F2)
      as [?x1 [?x2 [?G [?MG [?A1 [?A2 [?Z ?C]]]]]]];
    clear F1 F2
  end end.


End Rnd.

Import Rnd.

(** ** C6: BMI categories *)

(** C6.  For every non-NaN bmi, [get_bmi_category] returns "Underweight"
    exactly when bmi < 18.5, "Normal weight" exactly when 18.5 <= bmi < 25,
    "Overweight" exactly when 25 <= bmi < 30 and "Obese" exactly when
    bmi >= 30; exactly one of the four conditions holds. *)
Theorem get_bmi_category_partition (x : float) :
  nonnan x ->
  (get_bmi_category x = "Underweight" <-> (x <? 18.5) = true) /\
  (get_bmi_category x = "Normal weight" <-> ((18.5 <=? x) && (x <? 25)) = true) /\
  (get_bmi_category x = "Overweight" <-> ((25 <=? x) && (x <? 30)) = true) /\
  (get_bmi_category x = "Obese" <-> (30 <=? x) = true) /\
  List.length (filter (fun b => b) [x <? 18.5; (18.5 <=? x) && (x <? 25);
                               (25 <=? x) && (x <? 30); 30 <=? x]) = 1%nat.
Proof.
  intros Hx.
  assert (N1 : nonnan 18.5) by reflexivity.
  assert (N2 : nonnan 25) by reflexivity.
  assert (N3 : nonnan 30) by reflexivity.
  assert (M1 : (x <? 18.5) = true -> (x <? 25) = true)
    by (intro H; apply (ltb_leb_trans x 18.5 25); auto).
  assert (M2 : (x <? 25) = true -> (x <? 30) = true)
    by (intro H; apply (ltb_leb_trans x 25 30); auto).
  unfold get_bmi_category.
  rewrite (ltb_negb_leb x 18.5), (ltb_negb_leb x 25), (ltb_negb_leb x 30) in * by assumption.
  destruct (18.5 <=? x), (25 <=? x), (30 <=? x); cbn in *;
    repeat split; intros; try discriminate; try reflexivity;
    try (exfalso; specialize (M1 eq_refl); discriminate);
    try (exfalso; specialize (M2 eq_refl); discriminate).
Qed.

(** ** C7: health risks *)

(** The five risk rules of the spec (section 4.2), each evaluated on its
    own, in their fixed order. *)
Definition risk_rules_spec (bmi : float) (age : Z) (mc : option (list string)) : list string :=
  (if bmi <? 18.5 then
     ["Increased risk of nutritional deficiencies and weakened immune system";
      "Potential bone density issues"] else []) ++
  (if (25 <=? bmi) && (bmi <? 30) then
     ["Moderate risk of cardiovascular disease";
      "Increased risk of type 2 diabetes"] else []) ++
  (if 30 <=? bmi then
     ["High risk of cardiovascular disease";
      "Significantly increased risk of type 2 diabetes";
      "Risk of sleep apnea and joint problems";
      "Increased risk of certain cancers"] else []) ++
  (if (40 <? age)%Z && (25 <=? bmi) then
     ["Age-related metabolic slowdown combined with excess weight"] else []) ++
  (match mc with
   | Some ((_ :: _) as l) => ["Existing conditions require medical supervision: " ++ join_comma l]
   | _ => []
   end).

(** C7.  [assess_health_risks] never returns the empty list: it returns
    ["No significant health risks identified"] when none of the five rules
    fires, and the strings of the rules that fire, in rule order, otherwise. *)
Theorem assess_health_risks_spec (bmi : float) (age : Z) (mc : option (list string)) :
  assess_health_risks bmi age mc <> [] /\
  assess_health_risks bmi age mc =
    match risk_rules_spec bmi age mc with
    | [] => ["No significant health risks identified"]
    | r => r
    end.
Proof.
  assert (Hne : forall l : list string,
             match l with [] => ["No significant health risks identified"] | _ => l end <> [])
    by (intros [|]; discriminate).
  unfold assess_health_risks, risk_rules_spec.
  split; [apply Hne|].
  destruct (PrimFloat.is_nan bmi) eqn:Hn.
  - destruct (nan_cmp bmi 18.5 Hn) as [-> _].
    destruct (nan_cmp bmi 30 Hn) as [-> ->].
    destruct (nan_cmp bmi 25 Hn) as [_ ->].
    destruct (40 <? age)%Z; destruct mc as [[|c cs]|]; reflexivity.
  - assert (N1 : nonnan 18.5) by reflexivity.
    assert (N2 : nonnan 25) by reflexivity.
    assert (N3 : nonnan 30) by reflexivity.
    assert (M1 : (bmi <? 18.5) = true -> (bmi <? 25) = true)
      by (intro H; apply (ltb_leb_trans bmi 18.5 25); auto).
    assert (M2 : (bmi <? 25) = true -> (bmi <? 30) = true)
      by (intro H; apply (ltb_leb_trans bmi 25 30); auto).
    rewrite (ltb_negb_leb bmi 25), (ltb_negb_leb bmi 30) in * by assumption.
    destruct (bmi <? 18.5), (25 <=? bmi), (30 <=? bmi); cbn in *;
      try (specialize (M1 eq_refl); discriminate);
      try (specialize (M2 eq_refl); discriminate);
      destruct (40 <? age)%Z; destruct mc as [[|c cs]|]; reflexivity.
Qed.

(** ** C3: recommendations *)

(** The blocks of the spec (section 4.3), each gated by its condition. *)
Definition rec_bmi_block (bmi : float) : list string :=
  if bmi <? 18.5 then
    ["Focus on nutrient-dense, calorie-rich foods";
     "Incorporate strength training to build muscle mass";
     "Eat 5-6 smaller meals throughout the day";
     "Consider protein shakes as supplements"]
  else if 25 <=? bmi then
    ["Create a sustainable calorie deficit through balanced eating";
     "Increase physical activity gradually";
     "Focus on whole foods and reduce processed foods";
     "Practice portion control and mindful eating"]
  else [].

Definition rec_goal_block (goal : string) : list string :=
  if String.eqb goal "lose_weight" then
    ["Aim for 0.5-1 kg weight loss per week for sustainable results";
     "Combine cardio exercises with strength training";
     "Stay hydrated - drink water before meals";
     "Get 7-9 hours of quality sleep per night"]
  else if String.eqb goal "gain_muscle" then
    ["Prioritize progressive overload in strength training";
     "Ensure adequate protein intake (1.6-2.2g per kg body weight)";
     "Allow proper recovery time between workouts";
     "Consider creatine supplementation (consult a professional)"]
  else if String.eqb goal "improve_fitness" then
    ["Include a mix of cardio, strength, and flexibility training";
     "Set specific, measurable fitness goals";
     "Track your progress weekly";
     "Gradually increase workout intensity"]
  else [].

Definition rec_activity_block (activity_level : string) : list string :=
  if String.eqb activity_level "sedentary" then
    ["Start with 10-15 minute walks daily and gradually increase";
     "Take regular breaks from sitting every hour"]
  else [].

Definition rec_age_block (age : Z) : list string :=
  if (50 <? age)%Z then
    ["Include balance and flexibility exercises to prevent falls";
     "Focus on bone-strengthening activities";
     "Consider vitamin D and calcium supplementation (consult doctor)"]
  else [].

Definition rec_general_block : list string :=
  ["Regular health check-ups and blood work annually";
   "Manage stress through meditation or yoga";
   "Limit alcohol consumption and avoid smoking";
   "Build a support system for accountability"].

(** C3.  [generate_recommendations] is the concatenation, in this order, of
    the BMI block (4 strings when bmi < 18.5, otherwise 4 strings when
    bmi >= 25, otherwise none), the goal block (4 strings for lose_weight,
    gain_muscle and improve_fitness, none otherwise), the sedentary block
    (2 strings), the age > 50 block (3 strings) and the trailing block of 4
    strings, truncated to its first 12 entries; its length is at most 12. *)
Theorem generate_recommendations_blocks (user : UserHealthInfo) (bmi : float) (cat : string) :
  generate_recommendations user bmi cat =
    firstn 12 (rec_bmi_block bmi ++ rec_goal_block user.(goal) ++
               rec_activity_block user.(activity_level) ++ rec_age_block user.(age) ++
               rec_general_block) /\
  List.length (rec_bmi_block bmi) =
    (if bmi <? 18.5 then 4%nat else if 25 <=? bmi then 4%nat else 0%nat) /\
  List.length (rec_goal_block user.(goal)) =
    (if String.eqb user.(goal) "lose_weight" || String.eqb user.(goal) "gain_muscle"
        || String.eqb user.(goal) "improve_fitness" then 4 else 0)%nat /\
  List.length (rec_activity_block user.(activity_level)) =
    (if String.eqb user.(activity_level) "sedentary" then 2 else 0)%nat /\
  List.length (rec_age_block user.(age)) = (if (50 <? user.(age))%Z then 3 else 0)%nat /\
  List.length rec_general_block = 4%nat /\
  (List.length (generate_recommendations user bmi cat) <= 12)%nat.
Proof.
  assert (E : generate_recommendations user bmi cat =
    firstn 12 (rec_bmi_block bmi ++ rec_goal_block user.(goal) ++
               rec_activity_block user.(activity_level) ++ rec_age_block user.(age) ++
               rec_general_block)).
  { unfold generate_recommendations, rec_bmi_block, rec_goal_block,
      rec_activity_block, rec_age_block, rec_general_block.
    rewrite !app_assoc.
    destruct (bmi <? 18.5), (25 <=? bmi), (String.eqb user.(goal) "lose_weight"),
      (String.eqb user.(goal) "gain_muscle"), (String.eqb user.(goal) "improve_fitness"),
      (String.eqb user.(activity_level) "sedentary"), (50 <? user.(age))%Z;
      reflexivity. }
  split; [exact E|].
  unfold rec_bmi_block, rec_goal_block, rec_activity_block, rec_age_block.
  repeat split;
    try (destruct (bmi <? 18.5), (25 <=? bmi); reflexivity);
    try (destruct (String.eqb user.(goal) "lose_weight"),
           (String.eqb user.(goal) "gain_muscle"),
           (String.eqb user.(goal) "improve_fitness"); reflexivity);
    try (destruct (String.eqb user.(activity_level) "sedentary"); reflexivity);
    try (destruct (50 <? user.(age))%Z; reflexivity).
  rewrite E, length_firstn. apply Nat.le_min_l.
Qed.

(** ** C10: unrecognised activity levels *)

(** C10.  For an activity level that is none of the five keys of
    [activity_multipliers], [calculate_daily_calories] does not fail and uses
    the sedentary multiplier 1.2: the result is the one for "sedentary",
    i.e. computed from tdee = bmr * 1.2. *)
Theorem calculate_daily_calories_default (bmr : float) (activity_level goal : string) :
  ~ In activity_level (map fst activity_multipliers) ->
  calculate_daily_calories bmr activity_level goal =
    calculate_daily_calories bmr "sedentary" goal /\
  calculate_daily_calories bmr activity_level goal =
    (let tdee := bmr * 1.2 in
     if String.eqb goal "lose_weight" then round_nd (tdee - 500) 2
     else if String.eqb goal "gain_muscle" then round_nd (tdee + 300) 2
     else round_nd tdee 2).
Proof.
  intros Hn.
  assert (G : dict_get activity_multipliers activity_level 1.2 = 1.2).
  { unfold activity_multipliers in *. cbn in Hn. cbn [dict_get].
    repeat match goal with
    | |- context [String.eqb activity_level ?k] =>
        destruct (String.eqb_spec activity_level k) as [->|_]; [exfalso; tauto|]
    end. reflexivity. }
  unfold calculate_daily_calories. rewrite G. split; reflexivity.
Qed.

(** ** C5: basal metabolic rate *)

(** The Mifflin-St Jeor formula as the spec writes it (section 4.1). *)
Definition mifflin_st_jeor (w h : float) (age : Z) (male : bool) : float :=
  if male then 10 * w + 6.25 * h - float_of_int (5 * age)%Z + 5
  else 10 * w + 6.25 * h - float_of_int (5 * age)%Z - 161.

(** Two distinct non-NaN float literals are different values. *)
Ltac float_neq :=
  match goal with
  | |- ?x <> ?y =>
      let E := fresh in
      intro E; apply (f_equal (fun z => PrimFloat.eqb z y)) in E;
      vm_compute in E; discriminate E
  end.

(** C5 as stated: the two spot values of the spec. *)
Lemma calculate_bmr_spot_values_refuted :
  calculate_bmr 70 175 30 "male" = 1648.75 /\ 1648.75 <> 1673.75 /\
  calculate_bmr 70 175 30 "female" = 1482.75 /\ 1482.75 <> 1507.75.
Proof. split; [reflexivity|]; split; [float_neq|]; split; [reflexivity|float_neq]. Qed.

(** C5 (amended).  [calculate_bmr] rounds to 2 decimals the Mifflin-St Jeor
    value 10*w + 6.25*h - 5*age + 5 when the lower-cased gender is "male",
    and 10*w + 6.25*h - 5*age - 161 otherwise, so "female" and "other" give
    the same result; calculate_bmr(70, 175, 30, "male") = 1648.75 and
    calculate_bmr(70, 175, 30, "female") = 1482.75. *)
Theorem calculate_bmr_formula :
  (forall w h a g, calculate_bmr w h a g =
                   round_nd (mifflin_st_jeor w h a (String.eqb (lower g) "male")) 2) /\
  (forall w h a, calculate_bmr w h a "male" = round_nd (mifflin_st_jeor w h a true) 2) /\
  (forall w h a, calculate_bmr w h a "female" = round_nd (mifflin_st_jeor w h a false) 2) /\
  (forall w h a, calculate_bmr w h a "other" = calculate_bmr w h a "female") /\
  calculate_bmr 70 175 30 "male" = 1648.75 /\
  calculate_bmr 70 175 30 "female" = 1482.75.
Proof.
  repeat split; intros;
    unfold calculate_bmr, mifflin_st_jeor; try reflexivity.
Qed.

(** ** C1: the end-to-end scenario *)

(** C1 as stated: the figures of the spec are not the ones the pipeline
    computes (already [bmr] is 1648.75, not 1673.75). *)
Lemma scenario_as_specified_refuted :
  ~ (forall (pow2 : float -> float) (fs : float -> string), pow2 1.75 = 3.0625 ->
       exists plan, assess_health pow2 fs scenario_profile = Ok plan /\
                    scenario_as_specified plan.(assessment)).
Proof.
  intro H.
  destruct (H libm_pow2 (fun _ => EmptyString) eq_refl) as [plan [E S]].
  destruct (scenario_run libm_pow2 (fun _ => EmptyString) eq_refl) as [plan' [E' S']].
  rewrite E in E'. injection E' as <-.
  destruct S as (_ & _ & B & _). destruct S' as (_ & _ & B' & _).
  rewrite B in B'. apply (f_equal (fun z => PrimFloat.eqb z 1648.75)) in B'.
  vm_compute in B'. discriminate B'.
Qed.

(** C1 (amended).  For the profile {age 30, male, 175 cm, 70 kg, sedentary,
    lose_weight, dietary preference none, no conditions}, on any C library
    whose pow(1.75, 2.0) is the exact 3.0625, the pipeline succeeds with
    bmi 22.86 ("Normal weight"), bmr 1648.75, daily_calories 1478.5,
    protein 129.37 g, carbs 129.37 g, fats 49.28 g, ideal weight 56.7 to
    76.3 kg, water 2.3 l and the single risk "No significant health risks
    identified". *)
Theorem scenario_assessment_values (pow2 : float -> float) (fs : float -> string) :
  pow2 1.75 = 3.0625 ->
  exists plan, assess_health pow2 fs scenario_profile = Ok plan /\
               scenario_as_computed plan.(assessment).
Proof. exact (scenario_run pow2 fs). Qed.

Lemma scenario_assessment_values_witness :
  libm_pow2 1.75 = 3.0625 /\
  exists plan, assess_health libm_pow2 (fun _ => EmptyString) scenario_profile = Ok plan /\
               scenario_as_computed plan.(assessment).
Proof. split; [reflexivity | apply scenario_assessment_values; reflexivity]. Defined.

Lemma get_bmi_category_partition_witness :
  nonnan 22.86 /\
  (get_bmi_category 22.86 = "Underweight" <-> (22.86 <? 18.5) = true) /\
  (get_bmi_category 22.86 = "Normal weight" <-> ((18.5 <=? 22.86) && (22.86 <? 25)) = true) /\
  (get_bmi_category 22.86 = "Overweight" <-> ((25 <=? 22.86) && (22.86 <? 30)) = true) /\
  (get_bmi_category 22.86 = "Obese" <-> (30 <=? 22.86) = true) /\
  List.length (filter (fun b => b) [22.86 <? 18.5; (18.5 <=? 22.86) && (22.86 <? 25);
                                    (25 <=? 22.86) && (22.86 <? 30); 30 <=? 22.86]) = 1%nat.
Proof. split; [reflexivity | apply get_bmi_category_partition; reflexivity]. Defined.

Lemma calculate_daily_calories_default_witness :
  ~ In "couch_potato" (map fst activity_multipliers) /\
  calculate_daily_calories 1648.75 "couch_potato" "lose_weight" =
    calculate_daily_calories 1648.75 "sedentary" "lose_weight" /\
  calculate_daily_calories 1648.75 "couch_potato" "lose_weight" =
    (let tdee := 1648.75 * 1.2 in
     if String.eqb "lose_weight" "lose_weight" then round_nd (tdee - 500) 2
     else if String.eqb "lose_weight" "gain_muscle" then round_nd (tdee + 300) 2
     else round_nd tdee 2).
Proof.
  assert (H : ~ In "couch_potato" (map fst activity_multipliers))
    by (cbn; intuition discriminate).
  split; [exact H | apply calculate_daily_calories_default; exact H].
Defined.

(** ** C9: totality of the [/assess] handler *)

(** The field constraints of [UserHealthInfo] checked by pydantic. *)
Definition valid_profile (u : UserHealthInfo) : bool :=
  (1 <=? String.length u.(name))%nat &&
  (1 <=? u.(age))%Z && (u.(age) <=? 120)%Z &&
  existsb (String.eqb u.(gender)) ["male"; "female"; "other"] &&
  (0 <? u.(height)) && (0 <? u.(weight)) &&
  existsb (String.eqb u.(activity_level))
    ["sedentary"; "lightly_active"; "moderately_active"; "very_active"; "extra_active"] &&
  existsb (String.eqb u.(goal)) ["lose_weight"; "maintain"; "gain_muscle"; "improve_fitness"] &&
  match u.(dietary_preference) with
  | None => true
  | Some d => existsb (String.eqb d) ["none"; "vegetarian"; "vegan"; "keto"; "paleo"]
  end.

(** The daily calorie figure the handler computes for [u]. *)
Definition daily_calories_of (u : UserHealthInfo) : float :=
  calculate_daily_calories
    (calculate_bmr u.(weight) u.(height) u.(age) u.(gender)) u.(activity_level) u.(goal).

(** The float conditions under which the handler raises: [height_m ** 2]
    overflows, or it is zero (the BMI division), or a meal share of the
    daily calories is infinite or NaN (its [round] raises). *)
Definition assess_raises (pow2 : float -> float) (u : UserHealthInfo) : bool :=
  let height_m := u.(height) / 100 in
  let sq := pow2 height_m in
  let d := daily_calories_of u in
  (is_finite_b height_m && PrimFloat.is_infinity sq) || (sq =? 0) ||
  negb (is_finite_b (d * 0.25) && is_finite_b (d * 0.35) &&
        is_finite_b (d * 0.30) && is_finite_b (d * 0.10)).

(** A profile that passes validation: 70 kg raised to 1e308 kg. *)
Definition heavy_profile : UserHealthInfo :=
  {| name := "Test"; age := 30%Z; gender := "male"; height := 175; weight := 1e308;
     activity_level := "sedentary"; goal := "lose_weight";
     dietary_preference := Some "none"; medical_conditions := None |}.

Lemma round_int_cases (x : float) :
  match round_int x with Ok _ => is_finite_b x = true | Raise _ => is_finite_b x = false end.
Proof. unfold round_int, is_finite_b. destruct (Prim2SF x); reflexivity. Qed.

(** C9 as stated: a profile that passes validation for which the handler
    raises (10 * 1e308 overflows to inf, and round(inf * 0.25) raises
    OverflowError), so the operation is not total on valid profiles. *)
Lemma assess_total_refuted :
  valid_profile heavy_profile = true /\
  assess_health libm_pow2 (fun _ => EmptyString) heavy_profile = Raise OverflowError /\
  ~ (forall (pow2 : float -> float) (fs : float -> string) (u : UserHealthInfo),
       valid_profile u = true -> exists plan, assess_health pow2 fs u = Ok plan).
Proof.
  split; [reflexivity|]. split; [vm_compute; reflexivity|].
  intro H. destruct (H libm_pow2 (fun _ => EmptyString) heavy_profile eq_refl) as [plan E].
  vm_compute in E. discriminate E.
Qed.

(** C9 (amended).  The handler either returns a complete plan or raises
    (which its [except] turns into an HTTP 500 response), and it raises
    exactly under [assess_raises]: [height_m ** 2] overflows, it is 0.0, or
    a meal share of daily_calories is infinite or NaN.  A returned plan
    carries the input profile, the computed assessment, 7 workout days, 4
    meals, 10 tips and 6 weekly goals. *)
Theorem assess_health_outcome (pow2 : float -> float) (fs : float -> string)
    (u : UserHealthInfo) :
  match assess_health pow2 fs u with
  | Ok plan =>
      assess_raises pow2 u = false /\
      plan.(user_info) = u /\
      plan.(assessment).(bmi_category) = get_bmi_category plan.(assessment).(bmi) /\
      plan.(assessment).(bmr) = calculate_bmr u.(weight) u.(height) u.(age) u.(gender) /\
      plan.(assessment).(daily_calories) = daily_calories_of u /\
      plan.(assessment).(health_risks) =
        assess_health_risks plan.(assessment).(bmi) u.(age) u.(medical_conditions) /\
      plan.(assessment).(recommendations) =
        generate_recommendations u plan.(assessment).(bmi) plan.(assessment).(bmi_category) /\
      List.length plan.(workout_plan) = 7%nat /\
      List.length plan.(meal_suggestions) = 4%nat /\
      List.length plan.(lifestyle_tips) = 10%nat /\
      List.length plan.(weekly_goals) = 6%nat
  | Raise _ => assess_raises pow2 u = true
  end.
Proof.
  unfold assess_health, assess_raises, calculate_bmi, calculate_ideal_weight,
    generate_meal_suggestions, fpow2, fdiv, daily_calories_of.
  set (hm := u.(height) / 100).
  set (d := calculate_daily_calories (calculate_bmr u.(weight) u.(height) u.(age) u.(gender))
              u.(activity_level) u.(goal)).
  destruct (is_finite_b hm && PrimFloat.is_infinity (pow2 hm)); [reflexivity|].
  cbn [bind orb]. destruct (pow2 hm =? 0)%float; [reflexivity|]. cbn [bind orb].
  pose proof (round_int_cases (d * 0.25)) as R1.
  pose proof (round_int_cases (d * 0.35)) as R2.
  pose proof (round_int_cases (d * 0.30)) as R3.
  pose proof (round_int_cases (d * 0.10)) as R4.
  destruct (round_int (d * 0.25)); rewrite R1; [|reflexivity]; cbn [bind andb].
  destruct (round_int (d * 0.35)); rewrite R2; [|reflexivity]; cbn [bind andb].
  destruct (round_int (d * 0.30)); rewrite R3; [|reflexivity]; cbn [bind andb].
  destruct (round_int (d * 0.10)); rewrite R4; [|reflexivity]; cbn [bind andb].
  destruct (meal_catalog u.(dietary_preference)) as [[[b l] dn] s].
  cbn. repeat split.
  - unfold generate_workout_plan.
    destruct (String.eqb u.(goal) "lose_weight"), (String.eqb u.(goal) "gain_muscle"); reflexivity.
  - unfold generate_weekly_goals.
    destruct (String.eqb u.(goal) "lose_weight"), (String.eqb u.(goal) "gain_muscle"); reflexivity.
Qed.

(** ** Claims over real arithmetic *)

Section RealClaims.

Local Open Scope R_scope.

(** C2 (amended).  When [pow2 (height / 100)], the source's
    [height_m ** 2], is a non-negative float, a returned range has
    [min_kg <= max_kg].  The inequality is strict when
    [0.02 <= height_m ** 2 <= 1e306] (e.g. every height from 14.15 cm up
    to 1e155 cm).  For smaller heights both bounds can round to the same
    value: height 1.0 gives min = max = 0.0. *)
Theorem ideal_weight_range_ordered (pow2 : float -> float) (fs : float -> string)
    (height : float) (gender : string) (iw : IdealWeight) :
  (0 <=? pow2 (height / 100))%float = true ->
  calculate_ideal_weight pow2 fs height gender = Ok iw ->
  (min_kg iw <=? max_kg iw)%float = true /\
  ((0.02 <=? pow2 (height / 100))%float = true -> (pow2 (height / 100) <=? 1e306)%float = true ->
   (min_kg iw <? max_kg iw)%float = true).
Proof.
  intros H0 E. unfold calculate_ideal_weight, fpow2 in E.
  destruct (is_finite_b (height / 100)%float && PrimFloat.is_infinity (pow2 (height / 100)%float));
    [discriminate E|].
  cbn [bind] in E. injection E as <-. cbn [min_kg max_kg].
  split; [apply ideal_le; exact H0|].
  intros H1 H2. apply ideal_strict; assumption.
Qed.

Lemma ideal_weight_range_ordered_witness :
  (0 <=? libm_pow2 (175 / 100))%float = true /\
  exists iw, calculate_ideal_weight libm_pow2 (fun _ => EmptyString) 175 "male" = Ok iw /\
    (min_kg iw <? max_kg iw)%float = true.
Proof.
  split; [vm_compute; reflexivity|].
  eexists. split; [vm_compute; reflexivity|].
  refine (proj2 (ideal_weight_range_ordered libm_pow2 (fun _ => EmptyString) 175 "male" _ _ _) _ _);
    vm_compute; reflexivity.
Defined.

(** C2 refuted: height 1.0 is accepted ([height > 0]) and both bounds of
    the range round to 0.0, so [min_kg < max_kg] fails. *)
Lemma ideal_weight_range_refuted :
  exists iw, calculate_ideal_weight libm_pow2 (fun _ => EmptyString) 1 "male" = Ok iw /\
    (0 <? 1)%float = true /\ min_kg iw = 0%float /\ max_kg iw = 0%float /\
    (min_kg iw <? max_kg iw)%float = false.
Proof.
  eexists. split; [vm_compute; reflexivity|]. vm_compute. repeat split; reflexivity.
Qed.

(** C8 (amended).  For every finite [daily_calories] [D] and every goal,
    the three gram values are finite and
    [|4 * protein + 4 * carbs + 9 * fats - D| <= 0.085 + |D| * 2^-50], computed
    in real arithmetic on the float values.  [0.085 = (4 + 4 + 9) * 0.005]
    is the error of rounding each gram value to 2 decimals.  The term in
    [|D|] bounds the binary64 errors of the products, the divisions, the
    decimal percentages and the result of [round]. *)
Theorem macros_energy_balance (D : float) (goal : string) :
  is_finite_b D = true ->
  let m := calculate_macros D goal in
  is_finite_b (protein m) = true /\ is_finite_b (carbs m) = true /\ is_finite_b (fats m) = true /\
  Rabs (4 * sfval (Prim2SF (protein m)) + 4 * sfval (Prim2SF (carbs m))
        + 9 * sfval (Prim2SF (fats m)) - sfval (Prim2SF D))
    <= 85 / 1000 + Rabs (sfval (Prim2SF D)) * bpow (-50).
Proof.
  intros HF. destruct (mag_of_finite D HF) as [s [X HD]].
  pose proof (mag_sfval _ _ _ HD) as VD. pose proof (mag_nonneg _ _ _ HD) as X0.
  pose proof u64_pos. pose proof tiny64_pos. pose proof tiny64_small.
  assert (B50 : bpow (-50) = / 1125899906842624).
  { change (-50)%Z with (Z.opp 50). rewrite bpow_opp, bpow_IZR by lia. reflexivity. }
  cbv zeta. unfold calculate_macros, macro_percents.
  destruct (String.eqb goal "lose_weight"); [|destruct (String.eqb goal "gain_muscle")];
  cbn [protein carbs fats];
  lazymatch goal with
  | |- is_finite_b (round_nd ((D * ?p1) / ?w1) 2) = true /\
       is_finite_b (round_nd ((D * ?p2) / ?w2) 2) = true /\
       is_finite_b (round_nd ((D * ?p3) / ?w3) 2) = true /\ _ =>
      chain_of D s X HD p1 w1; chain_of D s X HD p2 w2; chain_of D s X HD p3 w3
  end;
  repeat split; try (eapply mag_finite; eassumption);
  repeat match goal with M : mag _ s ?G |- _ => rewrite (mag_sfval _ _ _ M); clear M end;
  rewrite B50; fval_num; unfold u64 in *;
  (assert (Rabs (if s then - X else X) = X) as RX by (destruct s; [rewrite Rabs_Ropp|]; apply Rabs_pos_eq; lra));
  rewrite RX; clear RX;
  (destruct (Rle_lt_dec X (3 / 100)) as [Sm|Lg];
   [ repeat match goal with H : _ -> ?g = 0 |- context [?g] => rewrite H by lra end;
     destruct s; apply Rabs_le; lra
   | destruct s; apply Rabs_le; lra ]).
Qed.

Lemma macros_energy_balance_witness :
  is_finite_b 2000 = true /\
  let m := calculate_macros 2000 "maintain" in
  is_finite_b (protein m) = true /\ is_finite_b (carbs m) = true /\ is_finite_b (fats m) = true /\
  Rabs (4 * sfval (Prim2SF (protein m)) + 4 * sfval (Prim2SF (carbs m))
        + 9 * sfval (Prim2SF (fats m)) - sfval (Prim2SF 2000))
    <= 85 / 1000 + Rabs (sfval (Prim2SF 2000)) * bpow (-50).
Proof.
  split; [reflexivity|]. exact (macros_energy_balance 2000 "maintain" eq_refl).
Defined.

(** C8 refuted: for [daily_calories = 1e20] and goal [lose_weight], the
    exact value of [4 * protein + 4 * carbs + 9 * fats - daily_calories] is
    -6656, far beyond the 0.085 that rounding the gram values to 2
    decimals accounts for.  The binary64 errors grow with [D]. *)
Lemma macros_energy_balance_refuted :
  let m := calculate_macros 1e20 "lose_weight" in
  4 * sfval (Prim2SF (protein m)) + 4 * sfval (Prim2SF (carbs m))
    + 9 * sfval (Prim2SF (fats m)) - sfval (Prim2SF 1e20) = -6656.
Proof.
  cbv zeta.
  repeat match goal with
  | |- context [Prim2SF ?x] =>
      let v := eval vm_compute in (Prim2SF x) in change (Prim2SF x) with v
  end.
  cbn [sfval]. rewrite !bpow_IZR by lia. rewrite <- !mult_IZR.
  eval_pow2.
  repeat match goal with
  | |- context [(Zpos ?a * ?b)%Z] =>
      let v := eval vm_compute in (Zpos a * b)%Z in change (Zpos a * b)%Z with v
  end.
  lra.
Qed.

(** C4 (amended).  For every finite [daily_calories] [D],
    [generate_meal_suggestions] returns the four meals Breakfast, Lunch,
    Dinner and Snacks.  Each calorie value is Python's [round] (nearest
    integer, ties to even) of the binary64 product [D * p], for the doubles
    [p = 0.25, 0.35, 0.30, 0.10].  It lies within [1/2 + |D| * 2^-52] of the
    exact share [D * 25/100, ..., D * 10/100].  It is not always the exact
    share rounded half up; see [meal_calories_refuted]. *)
Theorem meal_calories_rounding (D : float) (macros : Macros) (pref : option string) :
  is_finite_b D = true ->
  exists meals, generate_meal_suggestions D macros pref = Ok meals /\
    map meal meals = ["Breakfast"; "Lunch"; "Dinner"; "Snacks"] /\
    Forall2 (fun ml cp =>
        rne_rel (sfval (Prim2SF (D * fst cp)%float)) (calories ml) /\
        Rabs (IZR (calories ml) - sfval (Prim2SF D) * snd cp)
          <= / 2 + Rabs (sfval (Prim2SF D)) * bpow (-52))
      meals [(0.25%float, 25 / 100); (0.35%float, 35 / 100); (0.30%float, 30 / 100); (0.10%float, 10 / 100)].
Proof.
  intros HF. destruct (mag_of_finite D HF) as [s [X HD]].
  pose proof (mag_sfval _ _ _ HD) as VD. pose proof (mag_nonneg _ _ _ HD) as X0.
  pose proof (mag_lt_bpow1024 _ _ _ HD) as XB. pose proof half_bpow1024_big as [HB1 HB2].
  pose proof u64_pos. pose proof tiny64_pos. pose proof tiny64_small.
  destruct (mul_mag D 0.25 s X 4503599627370496 (-54) HD eq_refl) as [Y1 [M1 B1]];
    [fval_num; lra|].
  destruct (mul_mag D 0.35 s X 6305039478318694 (-54) HD eq_refl) as [Y2 [M2 B2]];
    [fval_num; lra|].
  destruct (mul_mag D 0.30 s X 5404319552844595 (-54) HD eq_refl) as [Y3 [M3 B3]];
    [fval_num; lra|].
  destruct (mul_mag D 0.10 s X 7205759403792794 (-56) HD eq_refl) as [Y4 [M4 B4]];
    [fval_num; lra|].
  destruct (round_int_mag _ _ _ M1) as [k1 [E1 R1]].
  destruct (round_int_mag _ _ _ M2) as [k2 [E2 R2]].
  destruct (round_int_mag _ _ _ M3) as [k3 [E3 R3]].
  destruct (round_int_mag _ _ _ M4) as [k4 [E4 R4]].
  unfold generate_meal_suggestions. rewrite E1, E2, E3, E4. cbn [bind].
  destruct (meal_catalog pref) as [[[b l] d] sn].
  eexists. split; [reflexivity|]. split; [reflexivity|].
  rewrite VD.
  assert (RX : Rabs (if s then - X else X) = X)
    by (destruct s; [rewrite Rabs_Ropp|]; apply Rabs_pos_eq; lra).
  rewrite RX.
  fval_num.
  assert (Hb : forall (k : Z) (pi c Y : R),
    0 <= pi <= 35 / 100 -> X * pi - X * pi * u64 <= X * c <= X * pi + X * pi * u64 ->
    X * c - (X * c * u64 + tiny64) <= Y <= X * c + (X * c * u64 + tiny64) ->
    rne_rel (if s then - Y else Y) k ->
    Rabs (IZR k - (if s then - X else X) * pi) <= / 2 + X * bpow (-52)).
  { intros k pi c Y Hpi Hc HY Hk.
    replace ((if s then - X else X) * pi) with (if s then - (X * pi) else X * pi)
      by (destruct s; ring).
    apply (share_bound s X (X * pi) (X * c) Y k); auto; nra. }
  unfold u64 in *.
  constructor; [split; [cbn [fst calories]; rewrite (mag_sfval _ _ _ M1); exact R1|]|].
  { cbn [snd calories]. eapply Hb; [lra| |exact B1|exact R1]. unfold u64. lra. }
  constructor; [split; [cbn [fst calories]; rewrite (mag_sfval _ _ _ M2); exact R2|]|].
  { cbn [snd calories]. eapply Hb; [lra| |exact B2|exact R2]. unfold u64. lra. }
  constructor; [split; [cbn [fst calories]; rewrite (mag_sfval _ _ _ M3); exact R3|]|].
  { cbn [snd calories]. eapply Hb; [lra| |exact B3|exact R3]. unfold u64. lra. }
  constructor; [split; [cbn [fst calories]; rewrite (mag_sfval _ _ _ M4); exact R4|]|].
  { cbn [snd calories]. eapply Hb; [lra| |exact B4|exact R4]. unfold u64. lra. }
  constructor.
Qed.

Lemma meal_calories_rounding_witness :
  is_finite_b 2000 = true /\
  exists meals,
    generate_meal_suggestions 2000 {| protein := 0; carbs := 0; fats := 0 |} None = Ok meals /\
    map meal meals = ["Breakfast"; "Lunch"; "Dinner"; "Snacks"] /\
    Forall2 (fun ml cp =>
        rne_rel (sfval (Prim2SF (2000 * fst cp)%float)) (calories ml) /\
        Rabs (IZR (calories ml) - sfval (Prim2SF 2000) * snd cp)
          <= / 2 + Rabs (sfval (Prim2SF 2000)) * bpow (-52))
      meals [(0.25%float, 25 / 100); (0.35%float, 35 / 100); (0.30%float, 30 / 100); (0.10%float, 10 / 100)].
Proof.
  split; [reflexivity|].
  exact (meal_calories_rounding 2000 {| protein := 0; carbs := 0; fats := 0 |} None eq_refl).
Defined.

(** C4 refuted: for [daily_calories = 1290] the calories are
    [322; 451; 387; 129], while the exact shares are 322.5, 451.5, 387 and
    129.  Standard (half-up) rounding gives 323 and 452.  Lunch differs under
    any tie rule: the float product [1290 * 0.35] is 451.49999999999994. *)
Lemma meal_calories_refuted :
  exists meals,
    generate_meal_suggestions 1290 {| protein := 0; carbs := 0; fats := 0 |} None = Ok meals /\
    map calories meals = [322; 451; 387; 129]%Z /\
    (1290 * 25 = 100 * 322 + 50)%Z /\ (1290 * 35 = 100 * 451 + 50)%Z.
Proof.
  eexists. split; [vm_compute; reflexivity|]. split; [reflexivity|]. split; reflexivity.
Qed.

End RealClaims.

(** * Further properties of the engine *)

Close Scope float_scope.

Module Mono.

Local Open Scope R_scope.

Abbreviation nn x := (nonneg_sf (Prim2SF x)).

(** ** Rounding of an exact integer significand ([binary_normalize]) *)

Lemma iter_xO m d : Zpos (Pos.iter xO m d) = (Zpos m * 2 ^ Zpos d)%Z.
Proof.
  induction d as [|d IH] using Pos.peano_ind; [cbn; lia|].
  rewrite Pos.iter_succ, Pos2Z.inj_xO, IH, Pos2Z.inj_succ, Z.pow_succ_r by lia. ring.
Qed.

Lemma Zdigits2_shift m k : (0 < m)%Z -> (0 <= k)%Z -> Zdigits2 (m * 2 ^ k) = (Zdigits2 m + k)%Z.
Proof.
  intros Hm Hk. pose proof (Zdigits2_spec m Hm) as [D1 D2]. pose proof (Zdigits2_pos m Hm).
  pose proof (Z.pow_pos_nonneg 2 k ltac:(lia) Hk).
  apply Z.le_antisymm.
  - apply Zdigits2_le; [nia| lia |]. rewrite Z.pow_add_r by lia. nia.
  - assert (Hg : (2 ^ (Zdigits2 m - 1 + k) <= m * 2 ^ k)%Z).
    { rewrite Z.pow_add_r by lia. apply Z.mul_le_mono_nonneg_r; [apply Z.pow_nonneg|]; lia. }
    pose proof (Zdigits2_ge (m * 2 ^ k) (Zdigits2 m - 1 + k) ltac:(lia) Hg). lia.
Qed.

Lemma binary_round_spec sx (m : positive) e :
  rounds_to sx (fval m e) (binary_round prec emax sx m e).
Proof.
  unfold binary_round.
  change (SpecFloat.fexp prec emax (Zpos (digits2_pos m) + e)) with (fexp64 (Zdigits2 (Zpos m) + e)).
  set (f := fexp64 (Zdigits2 (Zpos m) + e)).
  pose proof (fval_pos m e) as Hp.
  unfold shl_align. destruct (f - e)%Z eqn:D.
  - apply binary_round_aux_spec; [auto|lia| |].
    + cbn [inb]. unfold fval. pose proof (bpow_pos e). field. lra.
    + left. split; [lia|]. fold f. lia.
  - apply binary_round_aux_spec; [auto|lia| |].
    + cbn [inb]. unfold fval. pose proof (bpow_pos e). field. lra.
    + left. split; [lia|]. fold f. lia.
  - apply binary_round_aux_spec; [auto|lia| |].
    + cbn [inb]. rewrite iter_xO. unfold fval. rewrite mult_IZR, <- bpow_IZR by lia.
      replace e with (Zpos p + f)%Z at 1 by lia. rewrite bpow_plus.
      pose proof (bpow_pos f). field. lra.
    + left. split; [lia|]. rewrite iter_xO, Zdigits2_shift by lia.
      replace (Zdigits2 (Zpos m) + Zpos p + f)%Z with (Zdigits2 (Zpos m) + e)%Z by lia. fold f. lia.
Qed.

Lemma binary_normalize_spec (n : Z) e :
  (n = 0%Z -> binary_normalize prec emax n e false = S754_zero false) /\
  ((0 < n)%Z -> rounds_to false (IZR n * bpow e) (binary_normalize prec emax n e false)) /\
  ((n < 0)%Z -> rounds_to true (IZR (- n) * bpow e) (binary_normalize prec emax n e false)).
Proof.
  destruct n as [|p|p]; cbn [binary_normalize]; (split; [|split]); intros H; try lia; try reflexivity.
  - exact (binary_round_spec false p e).
  - exact (binary_round_spec true p e).
Qed.

Lemma shl_align_val mx ex ez : (ez <= ex)%Z ->
  IZR (Zpos (fst (shl_align mx ex ez))) * bpow ez = fval mx ex.
Proof.
  intros H. unfold shl_align, fval. destruct (ez - ex)%Z eqn:D; cbn [fst].
  - f_equal. f_equal. lia.
  - lia.
  - rewrite iter_xO, mult_IZR, <- bpow_IZR by lia. rewrite Rmult_assoc, <- bpow_plus.
    f_equal. f_equal. lia.
Qed.

(** Subtraction of two positive finite floats. *)
Lemma SFsub_pos mx ex my ey :
  (fval mx ex = fval my ey ->
     SFsub prec emax (S754_finite false mx ex) (S754_finite false my ey) = S754_zero false) /\
  (fval my ey < fval mx ex ->
     rounds_to false (fval mx ex - fval my ey) (SFsub prec emax (S754_finite false mx ex) (S754_finite false my ey))) /\
  (fval mx ex < fval my ey ->
     rounds_to true (fval my ey - fval mx ex) (SFsub prec emax (S754_finite false mx ex) (S754_finite false my ey))).
Proof.
  cbn [SFsub cond_Zopp].
  set (ez := Z.min ex ey).
  set (n := (Zpos (fst (shl_align mx ex ez)) - Zpos (fst (shl_align my ey ez)))%Z).
  assert (Hn : IZR n * bpow ez = fval mx ex - fval my ey).
  { unfold n. rewrite minus_IZR, Rmult_minus_distr_r, !shl_align_val by lia. reflexivity. }
  pose proof (bpow_pos ez) as Bz.
  destruct (binary_normalize_spec n ez) as [Z0 [P N]].
  split; [|split]; intros H.
  - apply Z0. assert (E : IZR n = 0) by nra. apply eq_IZR in E. exact E.
  - rewrite <- Hn. apply P. apply lt_IZR. change (IZR 0) with 0. nra.
  - replace (fval my ey - fval mx ex) with (IZR (- n) * bpow ez) by (rewrite opp_IZR; lra).
    apply N. apply lt_IZR. change (IZR 0) with 0. nra.
Qed.

(** Addition of two positive finite floats. *)
Lemma SFadd_pos mx ex my ey :
  rounds_to false (fval mx ex + fval my ey) (SFadd prec emax (S754_finite false mx ex) (S754_finite false my ey)).
Proof.
  cbn [SFadd cond_Zopp].
  set (ez := Z.min ex ey).
  set (n := (Zpos (fst (shl_align mx ex ez)) + Zpos (fst (shl_align my ey ez)))%Z).
  assert (Hn : IZR n * bpow ez = fval mx ex + fval my ey).
  { unfold n. rewrite plus_IZR, Rmult_plus_distr_r, !shl_align_val by lia. reflexivity. }
  destruct (binary_normalize_spec n ez) as [_ [P _]].
  rewrite <- Hn. apply P. unfold n. lia.
Qed.

(** ** Order facts on non-negative spec floats *)

Lemma sfleb_zero_nn s r : nonneg_sf r -> SFleb (S754_zero s) r = true.
Proof. destruct r as [s'|[]| |[] m e]; intros H; try contradiction; reflexivity. Qed.

Lemma sfleb_nn_inf r : nonneg_sf r -> SFleb r (S754_infinity false) = true.
Proof. destruct r as [s'|[]| |[] m e]; intros H; try contradiction; reflexivity. Qed.

Lemma sfleb_nn r1 r2 : nonneg_sf r1 -> SFleb r1 r2 = true -> nonneg_sf r2.
Proof.
  destruct r1 as [s1|[]| |[] m1 e1]; intros H; try contradiction;
  destruct r2 as [s2|[]| |[] m2 e2]; cbn; intros E; try exact I; discriminate.
Qed.

Lemma leb_nn x y : nn x -> (x <=? y)%float = true -> nn y.
Proof. rewrite FloatAxioms.leb_spec. apply sfleb_nn. Qed.

Lemma nn_of_leb0 x : (0 <=? x)%float = true -> nn x.
Proof. apply (leb_nn 0). exact I. Qed.

(** Two roundings of positive reals, in order. *)
Lemma rounds_mono a b ra rb : 0 < a <= b -> rounds_to false a ra -> rounds_to false b rb ->
  nonneg_sf ra /\ nonneg_sf rb /\ SFleb ra rb = true.
Proof.
  intros Hab Ra Rb.
  destruct (rounds_to_pos a ra ltac:(lra) Ra) as [_ [_ [_ [Na _]]]].
  destruct (rounds_to_pos b rb ltac:(lra) Rb) as [_ [_ [_ [Nb _]]]].
  split; [auto|]. split; [auto|]. apply (rounds_to_le a b); auto.
Qed.

(** A positive finite float is its own rounding. *)
Lemma fin_self m e : SpecFloat.valid_binary prec emax (S754_finite false m e) = true ->
  rounds_to false (fval m e) (S754_finite false m e).
Proof.
  intros V. split; [exact V|].
  pose proof V as V'. apply valid_finite_facts in V' as [E [M _]].
  exists (fval m e). split; [apply round64_exact; lia|].
  right. left. split; [split; [apply fval_pos|]|].
  - change emax with 1024%Z.
    apply (mag_lt_bpow1024 (SF2Prim (S754_finite false m e)) false).
    right. exists m, e. split; [apply FloatAxioms.Prim2SF_SF2Prim; exact V|reflexivity].
  - exists m, e. auto.
Qed.

Lemma leb_fval m1 e1 m2 e2 :
  SpecFloat.valid_binary prec emax (S754_finite false m1 e1) = true ->
  SpecFloat.valid_binary prec emax (S754_finite false m2 e2) = true ->
  SFleb (S754_finite false m1 e1) (S754_finite false m2 e2) = true -> fval m1 e1 <= fval m2 e2.
Proof.
  intros V1 V2 H. apply SFleb_nonneg in H; [exact H|auto|auto|exact I|exact I].
Qed.

(** ** Products and quotients by a positive finite constant *)

Lemma prim_mul_comm (x y : float) : (x * y)%float = (y * x)%float.
Proof.
  apply FloatAxioms.Prim2SF_inj. rewrite !FloatAxioms.mul_spec. unfold SF64mul.
  destruct (Prim2SF x) as [sx|sx| |sx mx ex], (Prim2SF y) as [sy|sy| |sy my ey];
    cbn [SFmul]; rewrite ?(xorb_comm sx sy); try reflexivity.
  rewrite Pos.mul_comm, Z.add_comm. reflexivity.
Qed.

Lemma mul_mono_l (x y c : float) mc ec : Prim2SF c = S754_finite false mc ec ->
  nn x -> (x <=? y)%float = true ->
  nn (x * c)%float /\ nn (y * c)%float /\ (x * c <=? y * c)%float = true.
Proof.
  intros Hc Hx Hxy. pose proof (leb_nn _ _ Hx Hxy) as Hy.
  rewrite FloatAxioms.leb_spec in Hxy |- *. rewrite !FloatAxioms.mul_spec, Hc. unfold SF64mul.
  pose proof (FloatAxioms.Prim2SF_valid c) as Vc. rewrite Hc in Vc.
  pose proof (FloatAxioms.Prim2SF_valid x) as Vx. pose proof (FloatAxioms.Prim2SF_valid y) as Vy.
  revert Hx Hy Hxy Vx Vy.
  destruct (Prim2SF x) as [sx|[]| |[] mx ex]; intros Hx; try contradiction;
  destruct (Prim2SF y) as [sy|[]| |[] my ey]; intros Hy; try contradiction;
  intros Hxy Vx Vy; cbn in Hxy; try discriminate Hxy; cbn [SFmul xorb].
  all: try (rewrite xorb_false_r).
  all: try (split; [exact I|]; split; [exact I|reflexivity]).
  - pose proof (SFmul_spec false my ey false mc ec Vy Vc) as R. fold (fval my ey) (fval mc ec) in R.
    pose proof (Rmult_lt_0_compat _ _ (fval_pos my ey) (fval_pos mc ec)).
    destruct (rounds_to_pos _ _ H R) as [_ [_ [_ [N _]]]].
    split; [exact I|]. split; [exact N|]. apply sfleb_zero_nn. exact N.
  - pose proof (SFmul_spec false mx ex false mc ec Vx Vc) as R. fold (fval mx ex) (fval mc ec) in R.
    pose proof (Rmult_lt_0_compat _ _ (fval_pos mx ex) (fval_pos mc ec)).
    destruct (rounds_to_pos _ _ H R) as [_ [_ [_ [N _]]]].
    split; [exact N|]. split; [exact I|]. apply sfleb_nn_inf. exact N.
  - pose proof (SFmul_spec false mx ex false mc ec Vx Vc) as R1. fold (fval mx ex) (fval mc ec) in R1.
    pose proof (SFmul_spec false my ey false mc ec Vy Vc) as R2. fold (fval my ey) (fval mc ec) in R2.
    apply (leb_fval _ _ _ _ Vx Vy) in Hxy.
    pose proof (fval_pos mx ex). pose proof (fval_pos mc ec).
    refine (rounds_mono _ _ _ _ _ R1 R2). split; [apply Rmult_lt_0_compat; auto|apply Rmult_le_compat_r; lra].
Qed.

Lemma div_mono_l (x y c : float) mc ec : Prim2SF c = S754_finite false mc ec ->
  nn x -> (x <=? y)%float = true ->
  nn (x / c)%float /\ nn (y / c)%float /\ (x / c <=? y / c)%float = true.
Proof.
  intros Hc Hx Hxy. pose proof (leb_nn _ _ Hx Hxy) as Hy.
  rewrite FloatAxioms.leb_spec in Hxy |- *. rewrite !FloatAxioms.div_spec, Hc. unfold SF64div.
  pose proof (FloatAxioms.Prim2SF_valid x) as Vx. pose proof (FloatAxioms.Prim2SF_valid y) as Vy.
  revert Hx Hy Hxy Vx Vy.
  destruct (Prim2SF x) as [sx|[]| |[] mx ex]; intros Hx; try contradiction;
  destruct (Prim2SF y) as [sy|[]| |[] my ey]; intros Hy; try contradiction;
  intros Hxy Vx Vy; cbn in Hxy; try discriminate Hxy; cbn [SFdiv xorb].
  all: try (rewrite xorb_false_r).
  all: try (split; [exact I|]; split; [exact I|reflexivity]).
  - pose proof (SFdiv_spec false my ey false mc ec) as R. fold (fval my ey) (fval mc ec) in R.
    pose proof (Rdiv_lt_0_compat _ _ (fval_pos my ey) (fval_pos mc ec)).
    destruct (rounds_to_pos _ _ H R) as [_ [_ [_ [N _]]]].
    split; [exact I|]. split; [exact N|]. apply sfleb_zero_nn. exact N.
  - pose proof (SFdiv_spec false mx ex false mc ec) as R. fold (fval mx ex) (fval mc ec) in R.
    pose proof (Rdiv_lt_0_compat _ _ (fval_pos mx ex) (fval_pos mc ec)).
    destruct (rounds_to_pos _ _ H R) as [_ [_ [_ [N _]]]].
    split; [exact N|]. split; [exact I|]. apply sfleb_nn_inf. exact N.
  - pose proof (SFdiv_spec false mx ex false mc ec) as R1. fold (fval mx ex) (fval mc ec) in R1.
    pose proof (SFdiv_spec false my ey false mc ec) as R2. fold (fval my ey) (fval mc ec) in R2.
    apply (leb_fval _ _ _ _ Vx Vy) in Hxy.
    pose proof (fval_pos mx ex). pose proof (fval_pos mc ec).
    refine (rounds_mono _ _ _ _ _ R1 R2).
    split; [apply Rdiv_lt_0_compat; auto|apply Rmult_le_compat_r; [apply Rlt_le, Rinv_0_lt_compat; auto|lra]].
Qed.

Lemma nn_of_rounds a r : 0 < a -> rounds_to false a r -> nonneg_sf r.
Proof. intros Ha R. destruct (rounds_to_pos a r Ha R) as [_ [_ [_ [N _]]]]. exact N. Qed.

Lemma sfleb_refl r : r <> S754_nan -> SFleb r r = true.
Proof.
  intros H. unfold SFleb. rewrite SFcompare_key by auto.
  destruct (sfkey r) as [[a b] c]. cbn. rewrite !Z.compare_refl. reflexivity.
Qed.

(** Dividing a non-negative finite float by a larger positive divisor
    gives a smaller quotient. *)
Lemma div_anti_r (a c1 c2 : float) : is_finite_b a = true -> nn a ->
  (0 <? c1)%float = true -> (c1 <=? c2)%float = true ->
  nn (a / c1)%float /\ nn (a / c2)%float /\ (a / c2 <=? a / c1)%float = true.
Proof.
  intros Fa Ha H1 H12.
  rewrite FloatAxioms.ltb_spec in H1. rewrite FloatAxioms.leb_spec in H12 |- *.
  rewrite !FloatAxioms.div_spec. unfold SF64div.
  pose proof (FloatAxioms.Prim2SF_valid c1) as V1. pose proof (FloatAxioms.Prim2SF_valid c2) as V2.
  unfold is_finite_b in Fa.
  revert Fa Ha H1 H12 V1 V2.
  destruct (Prim2SF a) as [sa|[]| |[] ma ea]; intros Fa Ha; try discriminate Fa; try contradiction;
  destruct (Prim2SF c1) as [s1|[]| |[] m1 e1]; intros H1; try (cbn in H1; discriminate H1);
  destruct (Prim2SF c2) as [s2|[]| |[] m2 e2]; intros H12; try (cbn in H12; discriminate H12);
  intros V1 V2; cbn [SFdiv xorb]; rewrite ?xorb_false_r.
  all: try (split; [exact I|]; split; [exact I|reflexivity]).
  - pose proof (SFdiv_spec false ma ea false m1 e1) as R. fold (fval ma ea) (fval m1 e1) in R.
    pose proof (Rdiv_lt_0_compat _ _ (fval_pos ma ea) (fval_pos m1 e1)) as P.
    pose proof (nn_of_rounds _ _ P R) as N.
    split; [exact N|]. split; [exact I|]. apply sfleb_zero_nn. exact N.
  - pose proof (SFdiv_spec false ma ea false m1 e1) as R1. fold (fval ma ea) (fval m1 e1) in R1.
    pose proof (SFdiv_spec false ma ea false m2 e2) as R2. fold (fval ma ea) (fval m2 e2) in R2.
    apply (leb_fval _ _ _ _ V1 V2) in H12.
    pose proof (fval_pos ma ea). pose proof (fval_pos m1 e1). pose proof (fval_pos m2 e2).
    assert (L : fval ma ea / fval m2 e2 <= fval ma ea / fval m1 e1).
    { unfold Rdiv. apply Rmult_le_compat_l; [lra|]. apply Rinv_le_contravar; lra. }
    assert (P : 0 < fval ma ea / fval m2 e2) by (apply Rdiv_lt_0_compat; auto).
    destruct (rounds_mono _ _ _ _ (conj P L) R2 R1) as [N2 [N1 Le]].
    split; [exact N1|]. split; [exact N2|exact Le].
Qed.

(** ** Subtracting and adding a positive finite constant *)

Lemma sub_res m1 e1 mc ec : fval mc ec <= fval m1 e1 ->
  (SFsub prec emax (S754_finite false m1 e1) (S754_finite false mc ec) = S754_zero false /\
   fval m1 e1 = fval mc ec) \/
  (fval mc ec < fval m1 e1 /\
   rounds_to false (fval m1 e1 - fval mc ec) (SFsub prec emax (S754_finite false m1 e1) (S754_finite false mc ec))).
Proof.
  intros H. destruct (SFsub_pos m1 e1 mc ec) as [Z [P _]].
  destruct (Req_dec (fval m1 e1) (fval mc ec)) as [E|E]; [left; auto|right; split; [lra|apply P; lra]].
Qed.

Lemma sub_const (T1 T2 c : float) mc ec : Prim2SF c = S754_finite false mc ec ->
  (c <=? T1)%float = true -> (T1 <=? T2)%float = true ->
  nn (T1 - c)%float /\ nn (T2 - c)%float /\
  (T1 - c <=? T2 - c)%float = true /\ (T1 - c <=? T1)%float = true.
Proof.
  intros Hc H1 H12.
  rewrite !FloatAxioms.leb_spec in *. rewrite !FloatAxioms.sub_spec, Hc. unfold SF64sub. rewrite Hc in H1.
  pose proof (FloatAxioms.Prim2SF_valid c) as Vc. rewrite Hc in Vc.
  pose proof (FloatAxioms.Prim2SF_valid T1) as V1. pose proof (FloatAxioms.Prim2SF_valid T2) as V2.
  revert H1 H12 V1 V2.
  destruct (Prim2SF T1) as [s1|[]| |[] m1 e1]; intros H1; try (cbn in H1; discriminate H1);
  destruct (Prim2SF T2) as [s2|[]| |[] m2 e2]; intros H12; try (cbn in H12; discriminate H12);
  intros V1 V2.
  - repeat split; reflexivity.
  - pose proof (leb_fval _ _ _ _ Vc V1 H1) as F1.
    destruct (sub_res m1 e1 mc ec F1) as [[Z E]|[L R]].
    + rewrite Z. repeat split; reflexivity.
    + assert (P : 0 < fval m1 e1 - fval mc ec) by lra.
      pose proof (nn_of_rounds _ _ P R) as N.
      split; [exact N|]. split; [exact I|]. split; [apply sfleb_nn_inf; exact N|].
      refine (rounds_to_le _ _ _ _ _ R (fin_self _ _ V1)); split; [exact P|pose proof (fval_pos mc ec); lra].
  - pose proof (leb_fval _ _ _ _ Vc V1 H1) as F1. pose proof (leb_fval _ _ _ _ V1 V2 H12) as F12.
    destruct (sub_res m2 e2 mc ec ltac:(lra)) as [[Z2 E2]|[L2 R2]];
    destruct (sub_res m1 e1 mc ec F1) as [[Z1 E1]|[L1 R1]].
    + rewrite Z1, Z2. repeat split; try reflexivity.
    + exfalso. lra.
    + assert (P2 : 0 < fval m2 e2 - fval mc ec) by lra.
      pose proof (nn_of_rounds _ _ P2 R2) as N2.
      rewrite Z1. split; [exact I|]. split; [exact N2|]. split; [apply sfleb_zero_nn; exact N2|reflexivity].
    + assert (P1 : 0 < fval m1 e1 - fval mc ec) by lra.
      assert (L12 : fval m1 e1 - fval mc ec <= fval m2 e2 - fval mc ec) by lra.
      destruct (rounds_mono _ _ _ _ (conj P1 L12) R1 R2) as [N1 [N2 Le]].
      split; [exact N1|]. split; [exact N2|]. split; [exact Le|].
      refine (rounds_to_le _ _ _ _ _ R1 (fin_self _ _ V1)); split; [exact P1|pose proof (fval_pos mc ec); lra].
Qed.

Lemma add_const (T1 T2 c : float) mc ec : Prim2SF c = S754_finite false mc ec ->
  nn T1 -> (T1 <=? T2)%float = true ->
  nn (T1 + c)%float /\ nn (T2 + c)%float /\
  (T1 + c <=? T2 + c)%float = true /\ (T1 <=? T1 + c)%float = true.
Proof.
  intros Hc H1 H12. pose proof (leb_nn _ _ H1 H12) as H2.
  rewrite !FloatAxioms.leb_spec in *. rewrite !FloatAxioms.add_spec, Hc. unfold SF64add.
  pose proof (FloatAxioms.Prim2SF_valid c) as Vc. rewrite Hc in Vc.
  pose proof (FloatAxioms.Prim2SF_valid T1) as V1. pose proof (FloatAxioms.Prim2SF_valid T2) as V2.
  pose proof (fval_pos mc ec) as Pc.
  revert H1 H2 H12 V1 V2.
  destruct (Prim2SF T1) as [s1|[]| |[] m1 e1]; intros H1; try contradiction;
  destruct (Prim2SF T2) as [s2|[]| |[] m2 e2]; intros H2; try contradiction;
  intros H12; try (cbn in H12; discriminate H12);
  intros V1 V2.
  - split; [exact I|]. split; [exact I|]. split; [apply sfleb_refl; discriminate|reflexivity].
  - split; [exact I|]. split; [exact I|]. split; reflexivity.
  - pose proof (SFadd_pos m2 e2 mc ec) as R2.
    assert (P2 : 0 < fval m2 e2 + fval mc ec) by (pose proof (fval_pos m2 e2); lra).
    split; [exact I|]. split; [exact (nn_of_rounds _ _ P2 R2)|]. split; [|reflexivity].
    refine (rounds_to_le _ _ _ _ _ (fin_self _ _ Vc) R2); split; [exact Pc|pose proof (fval_pos m2 e2); lra].
  - repeat split; reflexivity.
  - pose proof (SFadd_pos m1 e1 mc ec) as R1.
    assert (P1 : 0 < fval m1 e1 + fval mc ec) by (pose proof (fval_pos m1 e1); lra).
    pose proof (nn_of_rounds _ _ P1 R1) as N1.
    split; [exact N1|]. split; [exact I|]. split; [apply sfleb_nn_inf; exact N1|].
    refine (rounds_to_le _ _ _ _ _ (fin_self _ _ V1) R1); split; [exact (fval_pos m1 e1)|lra].
  - pose proof (leb_fval _ _ _ _ V1 V2 H12) as F12.
    pose proof (SFadd_pos m1 e1 mc ec) as R1. pose proof (SFadd_pos m2 e2 mc ec) as R2.
    assert (P1 : 0 < fval m1 e1 + fval mc ec) by (pose proof (fval_pos m1 e1); lra).
    assert (L12 : fval m1 e1 + fval mc ec <= fval m2 e2 + fval mc ec) by lra.
    destruct (rounds_mono _ _ _ _ (conj P1 L12) R1 R2) as [N1 [N2 Le]].
    split; [exact N1|]. split; [exact N2|]. split; [exact Le|].
    refine (rounds_to_le _ _ _ _ _ (fin_self _ _ V1) R1); split; [exact (fval_pos m1 e1)|lra].
Qed.

(** ** [round(x)] on non-negative finite floats *)

Lemma round_int_mono (x y : float) : nn x -> is_finite_b y = true -> (x <=? y)%float = true ->
  exists k1 k2, round_int x = Ok k1 /\ round_int y = Ok k2 /\ (0 <= k1 <= k2)%Z.
Proof.
  intros Hx Fy Hxy. pose proof (leb_nn _ _ Hx Hxy) as Hy.
  rewrite FloatAxioms.leb_spec in Hxy. unfold round_int. unfold is_finite_b in Fy.
  pose proof (FloatAxioms.Prim2SF_valid x) as Vx. pose proof (FloatAxioms.Prim2SF_valid y) as Vy.
  revert Hx Hy Hxy Fy Vx Vy.
  destruct (Prim2SF x) as [sx|[]| |[] mx ex]; intros Hx; try contradiction;
  destruct (Prim2SF y) as [sy|[]| |[] my ey]; intros Hy Hxy Fy; try contradiction; try discriminate Fy;
  try (cbn in Hxy; discriminate Hxy); intros Vx Vy.
  - exists 0%Z, 0%Z. split; [reflexivity|]. split; [reflexivity|]. lia.
  - exists 0%Z, (scaled_round false my ey 0). split; [reflexivity|]. split; [reflexivity|].
    pose proof (scaled_round_nonneg my ey 0 ltac:(lia)). lia.
  - apply (leb_fval _ _ _ _ Vx Vy) in Hxy.
    exists (scaled_round false mx ex 0), (scaled_round false my ey 0).
    split; [reflexivity|]. split; [reflexivity|].
    split; [apply scaled_round_nonneg; lia|].
    apply (rne_mono (fval mx ex * IZR (10 ^ 0)) (fval my ey * IZR (10 ^ 0)));
      [|apply scaled_round_spec; lia|apply scaled_round_spec; lia].
    change (IZR (10 ^ 0)) with 1. lra.
Qed.

(** A product by a constant at most 1 stays finite and below the factor. *)
Lemma mul_le_self (x c : float) mc ec : Prim2SF c = S754_finite false mc ec -> fval mc ec <= 1 ->
  nn x -> is_finite_b x = true ->
  nn (x * c)%float /\ is_finite_b (x * c)%float = true /\ (x * c <=? x)%float = true.
Proof.
  intros Hc Hc1 Hx Fx. unfold is_finite_b in *. rewrite FloatAxioms.leb_spec, !FloatAxioms.mul_spec, Hc.
  unfold SF64mul.
  pose proof (FloatAxioms.Prim2SF_valid c) as Vc. rewrite Hc in Vc.
  pose proof (FloatAxioms.Prim2SF_valid x) as Vx.
  revert Hx Fx Vx.
  destruct (Prim2SF x) as [sx|[]| |[] mx ex]; intros Hx Fx; try contradiction; try discriminate Fx;
    intros Vx.
  - cbn [SFmul xorb]. rewrite xorb_false_r. split; [exact I|]. split; reflexivity.
  - pose proof (SFmul_spec false mx ex false mc ec Vx Vc) as R. fold (fval mx ex) (fval mc ec) in R.
    cbn [xorb] in R.
    pose proof (Rmult_lt_0_compat _ _ (fval_pos mx ex) (fval_pos mc ec)) as P.
    pose proof (nn_of_rounds _ _ P R) as N.
    assert (Le : SFleb (SFmul prec emax (S754_finite false mx ex) (S754_finite false mc ec))
                       (S754_finite false mx ex) = true).
    { refine (rounds_to_le _ _ _ _ _ R (fin_self _ _ Vx)); split; [exact P|pose proof (fval_pos mx ex); nra]. }
    split; [exact N|]. split; [|exact Le].
    revert N Le. destruct (SFmul prec emax (S754_finite false mx ex) (S754_finite false mc ec))
      as [s|[]| |[] m e]; intros N Le; try contradiction; try reflexivity.
    cbn in Le. discriminate Le.
Qed.

End Mono.

Import Mono.

Lemma nn_leb0 x : nn x -> (0 <=? x)%float = true.
Proof. intros H. apply (leb_zero_nonneg 0 x false); [reflexivity|exact H]. Qed.

Lemma nn_nonnan x : nn x -> nonnan x.
Proof.
  intros H. unfold PrimFloat.is_nan. rewrite FloatAxioms.eqb_spec.
  destruct (Prim2SF x) as [s|[]| |[] m e]; try contradiction; try reflexivity.
  cbn. rewrite Z.compare_refl, Pos.compare_refl. reflexivity.
Qed.

Lemma finite_not_infinity x : is_finite_b x = true -> PrimFloat.is_infinity x = false.
Proof.
  unfold is_finite_b, PrimFloat.is_infinity. rewrite FloatAxioms.eqb_spec, FloatAxioms.abs_spec.
  change (Prim2SF PrimFloat.infinity) with (S754_infinity false).
  destruct (Prim2SF x) as [s|s| |s m e]; intros H; try discriminate H; reflexivity.
Qed.

Lemma ltb0_of_nn x : nn x -> (x =? 0)%float = false -> (0 <? x)%float = true.
Proof.
  rewrite FloatAxioms.eqb_spec, FloatAxioms.ltb_spec. change (Prim2SF 0) with (S754_zero false).
  destruct (Prim2SF x) as [s|[]| |[] m e]; intros H E; try contradiction; try reflexivity.
  destruct s; discriminate E.
Qed.

Lemma leb_refl_nn x : nn x -> (x <=? x)%float = true.
Proof.
  intros H. rewrite FloatAxioms.leb_spec. apply sfleb_refl.
  destruct (Prim2SF x); try contradiction; discriminate.
Qed.

Lemma ltb0_eqb0 x : (0 <? x)%float = true -> (x =? 0)%float = false.
Proof.
  rewrite FloatAxioms.eqb_spec, FloatAxioms.ltb_spec. change (Prim2SF 0) with (S754_zero false).
  destruct (Prim2SF x) as [[]|[]| |[] m e]; intros H; try discriminate H; reflexivity.
Qed.

Lemma pos_finite_cases x : (0 <? x)%float = true -> is_finite_b x = true ->
  exists m e, Prim2SF x = S754_finite false m e.
Proof.
  rewrite FloatAxioms.ltb_spec. change (Prim2SF 0) with (S754_zero false). unfold is_finite_b.
  destruct (Prim2SF x) as [[]|[]| |[] m e]; intros H F; try discriminate; eauto.
Qed.

Lemma nn_of_ltb0 x : (0 <? x)%float = true -> nn x.
Proof.
  rewrite FloatAxioms.ltb_spec. change (Prim2SF 0) with (S754_zero false).
  destruct (Prim2SF x) as [[]|[]| |[] m e]; intros H; try discriminate; exact I.
Qed.

(** The correctly rounded square is monotone on non-negative floats. *)
Lemma libm_pow2_mono x y : (0 <=? x)%float = true -> (x <=? y)%float = true ->
  (0 <=? libm_pow2 x)%float = true /\ (libm_pow2 x <=? libm_pow2 y)%float = true.
Proof.
  intros H0 Hxy. unfold libm_pow2.
  pose proof (nn_of_leb0 x H0) as Nx. pose proof (leb_nn _ _ Nx Hxy) as Ny.
  assert (Hyy : nn (y * y)%float /\ (forall z, nn z -> PrimFloat.is_infinity y = true ->
                  (z <=? y * y)%float = true)).
  { pose proof (fun m e Ey => mul_mono_l y y y m e Ey Ny (leb_refl_nn y Ny)) as My.
    destruct (Prim2SF y) as [s|[]| |[] m e] eqn:Ey; try contradiction.
    - split.
      + rewrite FloatAxioms.mul_spec, Ey. unfold SF64mul. cbn [SFmul xorb]. exact I.
      + intros z _ I. unfold PrimFloat.is_infinity in I.
        rewrite FloatAxioms.eqb_spec, FloatAxioms.abs_spec, Ey in I. discriminate I.
    - assert (E : Prim2SF (y * y)%float = S754_infinity false)
        by (rewrite FloatAxioms.mul_spec, Ey; reflexivity).
      split; [rewrite E; exact I|].
      intros z Nz _. rewrite FloatAxioms.leb_spec, E. apply sfleb_nn_inf. exact Nz.
    - destruct (My m e eq_refl) as [A _]. split; [exact A|].
      intros z _ I. unfold PrimFloat.is_infinity in I.
      rewrite FloatAxioms.eqb_spec, FloatAxioms.abs_spec, Ey in I. discriminate I. }
  destruct Hyy as [Nyy Hinf].
  pose proof (fun m e Ex => mul_mono_l x y x m e Ex Nx Hxy) as Mx.
  pose proof (fun my ey Ey => mul_mono_l x y y my ey Ey Nx Hxy) as Mxy.
  destruct (Prim2SF x) as [s|[]| |[] m e] eqn:Ex; try contradiction.
  - assert (E : Prim2SF (x * x)%float = S754_zero false)
      by (rewrite FloatAxioms.mul_spec, Ex; unfold SF64mul; cbn [SFmul xorb]; now destruct s).
    split; [apply nn_leb0; rewrite E; exact I|exact (leb_zero_nonneg _ _ false E Nyy)].
  - assert (Iy : PrimFloat.is_infinity y = true).
    { rewrite FloatAxioms.leb_spec, Ex in Hxy. unfold PrimFloat.is_infinity.
      rewrite FloatAxioms.eqb_spec, FloatAxioms.abs_spec.
      destruct (Prim2SF y) as [[]|[]| |[] m e]; try discriminate Hxy; reflexivity. }
    assert (E : Prim2SF (x * x)%float = S754_infinity false)
      by (rewrite FloatAxioms.mul_spec, Ex; reflexivity).
    split; [apply nn_leb0; rewrite E; exact I|]. apply Hinf; [rewrite E; exact I|exact Iy].
  - destruct (Mx m e eq_refl) as [Nxx [Nyx Lxy]].
    split; [apply nn_leb0; exact Nxx|].
    rewrite (prim_mul_comm y x) in Nyx, Lxy.
    destruct (PrimFloat.is_infinity y) eqn:Iy.
    + apply Hinf; [exact Nxx|reflexivity].
    + assert (Fy : exists my ey, Prim2SF y = S754_finite false my ey).
      { rewrite FloatAxioms.leb_spec, Ex in Hxy. unfold PrimFloat.is_infinity in Iy.
        rewrite FloatAxioms.eqb_spec, FloatAxioms.abs_spec in Iy.
        destruct (Prim2SF y) as [[]|[]| |[] m' e']; try discriminate; eauto. }
      destruct Fy as [my [ey Ey]].
      destruct (Mxy my ey Ey) as [_ [_ L2]].
      apply (leb_trans _ (x * y)%float); try apply nn_nonnan; auto.
Qed.

Lemma fval_le_one (c : float) m e : Prim2SF c = S754_finite false m e -> (c <=? 1)%float = true ->
  (fval m e <= 1)%R.
Proof.
  intros E L. rewrite FloatAxioms.leb_spec, E in L.
  change (Prim2SF 1) with (S754_finite false 4503599627370496 (-52)) in L.
  pose proof (FloatAxioms.Prim2SF_valid c) as V. rewrite E in V.
  pose proof (leb_fval m e 4503599627370496 (-52) V eq_refl L) as H.
  replace (fval 4503599627370496 (-52)) with 1%R in H; [exact H|].
  unfold fval. replace (bpow (-52)) with (/ bpow 52)%R by (rewrite <- bpow_opp; reflexivity).
  rewrite bpow_52. field.
Qed.

(** Floats at most zero: the zeros, the negative finite floats and minus
    infinity. *)
Definition nonpos_sf (r : spec_float) : Prop :=
  match r with
  | S754_zero _ | S754_finite true _ _ | S754_infinity true => True
  | _ => False
  end.

Lemma nonpos_leb0 x : nonpos_sf (Prim2SF x) -> (x <=? 0)%float = true.
Proof.
  rewrite FloatAxioms.leb_spec. change (Prim2SF 0) with (S754_zero false).
  destruct (Prim2SF x) as [s|[]| |[] m e]; intros H; try contradiction; reflexivity.
Qed.

Lemma rounds_to_neg (v : R) r : (0 < v)%R -> rounds_to true v r -> nonpos_sf r.
Proof.
  intros _ [_ [w [_ [[_ ->]|[[_ [m [e [-> _]]]]|[_ ->]]]]]]; exact I.
Qed.

Lemma round_nd_nonpos (x : float) n : (0 <= n)%Z ->
  nonpos_sf (Prim2SF x) -> nonpos_sf (Prim2SF (round_nd x n)).
Proof.
  intros Hn Hx. destruct (Prim2SF x) as [s|s| |[] m e] eqn:E; try contradiction.
  - rewrite round_nd_nonfinite by congruence. rewrite E. exact I.
  - rewrite round_nd_nonfinite by congruence. rewrite E. exact Hx.
  - destruct (round_nd_finite x true m e n E Hn) as [_ [_ [[_ ->]|[p [_ R]]]]]; [exact I|].
    eapply rounds_to_neg; [|exact R].
    apply Rdiv_lt_0_compat; apply IZR_lt; [lia|apply Z.pow_pos_nonneg; lia].
Qed.

Lemma sub_below (x c : float) mc ec : Prim2SF c = S754_finite false mc ec ->
  nn x -> (x <? c)%float = true -> nonpos_sf (Prim2SF (x - c)%float).
Proof.
  intros Hc Hx L. rewrite FloatAxioms.ltb_spec, Hc in L.
  pose proof (FloatAxioms.Prim2SF_valid x) as Vx. pose proof (FloatAxioms.Prim2SF_valid c) as Vc.
  rewrite Hc in Vc.
  rewrite FloatAxioms.sub_spec, Hc. unfold SF64sub.
  destruct (Prim2SF x) as [s|[]| |[] m e] eqn:Ex; try contradiction.
  - exact I.
  - discriminate L.
  - apply (SFltb_nonneg _ _ Vx Vc I I) in L. cbn in L.
    destruct (SFsub_pos m e mc ec) as [_ [_ N]].
    apply (rounds_to_neg (fval mc ec - fval m e)); [lra|exact (N L)].
Qed.

Section Extras.

Local Open Scope float_scope.

(** ** BMI category order *)

Definition bmi_category_rank (c : string) : nat :=
  if String.eqb c "Underweight" then 0
  else if String.eqb c "Normal weight" then 1
  else if String.eqb c "Overweight" then 2
  else 3.

(** X1.  [get_bmi_category] is monotone: for non-NaN bmi values x <= y the
    category of y is never an earlier one (Underweight, Normal weight,
    Overweight, Obese) than the category of x. *)
Theorem get_bmi_category_monotone (x y : float) :
  nonnan x -> nonnan y -> (x <=? y)%float = true ->
  (bmi_category_rank (get_bmi_category x) <= bmi_category_rank (get_bmi_category y))%nat.
Proof.
  intros Hx Hy Hxy.
  assert (T : forall c : float, nonnan c -> (c <=? x)%float = true -> (c <=? y)%float = true)
    by (intros c Hc H; apply (leb_trans c x y); auto).
  specialize (T 18.5%float eq_refl) as T1. specialize (T 25%float eq_refl) as T2. specialize (T 30%float eq_refl) as T3.
  unfold get_bmi_category.
  rewrite (ltb_negb_leb x 18.5), (ltb_negb_leb x 25), (ltb_negb_leb x 30),
    (ltb_negb_leb y 18.5), (ltb_negb_leb y 25), (ltb_negb_leb y 30) by (auto || reflexivity).
  destruct (18.5 <=? x), (25 <=? x), (30 <=? x), (18.5 <=? y), (25 <=? y), (30 <=? y);
    cbn; try lia;
    try (specialize (T1 eq_refl); discriminate); try (specialize (T2 eq_refl); discriminate);
    try (specialize (T3 eq_refl); discriminate).
Qed.

Lemma get_bmi_category_monotone_witness :
  (bmi_category_rank (get_bmi_category 20) <= bmi_category_rank (get_bmi_category 27))%nat.
Proof. apply (get_bmi_category_monotone 20 27); reflexivity. Defined.

(** ** BMI category and health risks *)

(** The risk strings of the bmi branch of [assess_health_risks] that goes
    with each category. *)
Definition category_risks (cat : string) : list string :=
  if String.eqb cat "Underweight" then
    ["Increased risk of nutritional deficiencies and weakened immune system";
     "Potential bone density issues"]
  else if String.eqb cat "Overweight" then
    ["Moderate risk of cardiovascular disease";
     "Increased risk of type 2 diabetes"]
  else if String.eqb cat "Obese" then
    ["High risk of cardiovascular disease";
     "Significantly increased risk of type 2 diabetes";
     "Risk of sleep apnea and joint problems";
     "Increased risk of certain cancers"]
  else [].

(** X2.  For a non-NaN bmi, the list of [assess_health_risks] starts with the
    bmi risks of the category [get_bmi_category] gives (none for "Normal
    weight").  For a NaN bmi the category is "Obese" but no bmi or age
    risk is listed: the list is the medical-supervision line when there are
    medical conditions, and ["No significant health risks identified"]
    otherwise. *)
Theorem assess_health_risks_category (bmi : float) (age : Z) (mc : option (list string)) :
  (nonnan bmi ->
   exists rest, assess_health_risks bmi age mc = app (category_risks (get_bmi_category bmi)) rest) /\
  (PrimFloat.is_nan bmi = true ->
   get_bmi_category bmi = "Obese" /\
   assess_health_risks bmi age mc =
     match mc with
     | Some ((_ :: _) as l) => ["Existing conditions require medical supervision: " ++ join_comma l]
     | _ => ["No significant health risks identified"]
     end).
Proof.
  split.
  - intros Hx. unfold assess_health_risks, get_bmi_category.
    rewrite (ltb_negb_leb bmi 18.5), (ltb_negb_leb bmi 25), (ltb_negb_leb bmi 30)
      by (auto || reflexivity).
    destruct (18.5 <=? bmi), (25 <=? bmi), (30 <=? bmi), (40 <? age)%Z, mc as [[|c cs]|];
      cbn; eexists; reflexivity.
  - intros Hn. unfold assess_health_risks, get_bmi_category.
    destruct (nan_cmp bmi 18.5 Hn) as [-> ->].
    destruct (nan_cmp bmi 30 Hn) as [-> ->].
    destruct (nan_cmp bmi 25 Hn) as [-> ->].
    cbn. split; [reflexivity|].
    rewrite andb_false_r.
    destruct mc as [[|c cs]|]; reflexivity.
Qed.

Lemma assess_health_risks_category_witness :
  exists rest, assess_health_risks 27.5 45 None = app (category_risks (get_bmi_category 27.5)) rest.
Proof. apply (proj1 (assess_health_risks_category 27.5 45 None)). reflexivity. Defined.

(** ** BMI *)

(** X3.  When the square of the height in metres is a positive finite
    float, [calculate_bmi] returns a value for every weight, the bmi of a
    non-negative weight is non-negative, and it is monotone in the weight. *)
Theorem calculate_bmi_weight_monotone (pow2 : float -> float) (w1 w2 h : float) :
  (0 <? pow2 (h / 100))%float = true -> is_finite_b (pow2 (h / 100)) = true ->
  (0 <=? w1)%float = true -> (w1 <=? w2)%float = true ->
  exists b1 b2, calculate_bmi pow2 w1 h = Ok b1 /\ calculate_bmi pow2 w2 h = Ok b2 /\
                (0 <=? b1)%float = true /\ (b1 <=? b2)%float = true.
Proof.
  intros P F H0 H12. unfold calculate_bmi, fpow2, fdiv, bind.
  rewrite (finite_not_infinity _ F), andb_false_r, (ltb0_eqb0 _ P).
  destruct (pos_finite_cases _ P F) as [m [e E]].
  pose proof (nn_of_leb0 _ H0) as N1.
  destruct (div_mono_l w1 w2 (pow2 (h / 100)) m e E N1 H12) as [D1 [D2 D12]].
  do 2 eexists. split; [reflexivity|]. split; [reflexivity|]. split.
  - apply nn_leb0, round_nd_nonneg; [lia|exact D1].
  - apply round_nd_mono; auto; lia.
Qed.

Lemma calculate_bmi_weight_monotone_witness :
  exists b1 b2, calculate_bmi libm_pow2 60 150 = Ok b1 /\ calculate_bmi libm_pow2 72 150 = Ok b2 /\
                (0 <=? b1)%float = true /\ (b1 <=? b2)%float = true.
Proof.
  apply (calculate_bmi_weight_monotone libm_pow2 60 72 150); vm_compute; reflexivity.
Defined.

(** X4.  For a [pow] that is monotone on non-negative floats, a finite
    non-negative weight and heights 0 <= h1 <= h2: when both calls of
    [calculate_bmi] return, the bmi for h2 is non-negative and at most the
    bmi for h1. *)
Theorem calculate_bmi_height_antitone (pow2 : float -> float) (w h1 h2 b1 b2 : float) :
  (forall x y, (0 <=? x)%float = true -> (x <=? y)%float = true ->
     (0 <=? pow2 x)%float = true /\ (pow2 x <=? pow2 y)%float = true) ->
  (0 <=? w)%float = true -> is_finite_b w = true ->
  (0 <=? h1)%float = true -> (h1 <=? h2)%float = true ->
  calculate_bmi pow2 w h1 = Ok b1 -> calculate_bmi pow2 w h2 = Ok b2 ->
  (0 <=? b2)%float = true /\ (b2 <=? b1)%float = true.
Proof.
  intros Mono Hw Fw Hh1 H12 R1 R2.
  assert (E100 : Prim2SF 100 = S754_finite false 7036874417766400 (-46)) by reflexivity.
  destruct (div_mono_l h1 h2 100 _ _ E100 (nn_of_leb0 _ Hh1) H12) as [Q1 [_ Q12]].
  destruct (Mono _ _ (nn_leb0 _ Q1) Q12) as [S0 S12].
  pose proof (nn_of_leb0 _ S0) as S1.
  unfold calculate_bmi, fpow2, fdiv, bind in R1, R2.
  destruct (is_finite_b (h1 / 100) && PrimFloat.is_infinity (pow2 (h1 / 100))); [discriminate R1|].
  destruct (is_finite_b (h2 / 100) && PrimFloat.is_infinity (pow2 (h2 / 100))); [discriminate R2|].
  destruct (pow2 (h1 / 100) =? 0)%float eqn:Z1; [discriminate R1|].
  destruct (pow2 (h2 / 100) =? 0)%float; [discriminate R2|].
  injection R1 as <-. injection R2 as <-.
  destruct (div_anti_r w _ _ Fw (nn_of_leb0 _ Hw) (ltb0_of_nn _ S1 Z1) S12) as [D1 [D2 D21]].
  split.
  - apply nn_leb0, round_nd_nonneg; [lia|exact D2].
  - apply round_nd_mono; auto; lia.
Qed.

Lemma calculate_bmi_height_antitone_witness :
  calculate_bmi libm_pow2 72 150 = Ok 32 /\ calculate_bmi libm_pow2 72 200 = Ok 18 /\
  (0 <=? 18)%float = true /\ (18 <=? 32)%float = true.
Proof.
  assert (E1 : calculate_bmi libm_pow2 72 150 = Ok 32) by (vm_compute; reflexivity).
  assert (E2 : calculate_bmi libm_pow2 72 200 = Ok 18) by (vm_compute; reflexivity).
  split; [exact E1|]. split; [exact E2|].
  apply (calculate_bmi_height_antitone libm_pow2 72 150 200 32 18 libm_pow2_mono);
    try (vm_compute; reflexivity); assumption.
Defined.

(** ** Daily calories *)

Lemma mul_const_le (r c1 c2 : float) m1 e1 m2 e2 :
  Prim2SF c1 = S754_finite false m1 e1 -> Prim2SF c2 = S754_finite false m2 e2 ->
  (c1 <=? c2)%float = true -> (0 <=? r)%float = true ->
  nn (r * c1)%float /\ nn (r * c2)%float /\ (r * c1 <=? r * c2)%float = true.
Proof.
  intros E1 E2 L H0. rewrite !(prim_mul_comm r).
  apply (mul_nonneg_mono c1 c2 r m1 e1 m2 e2 E1 E2); [|exact H0].
  pose proof (FloatAxioms.Prim2SF_valid c1) as V1. pose proof (FloatAxioms.Prim2SF_valid c2) as V2.
  rewrite FloatAxioms.leb_spec in L. rewrite E1 in V1, L. rewrite E2 in V2, L.
  exact (leb_fval _ _ _ _ V1 V2 L).
Qed.

Lemma activity_multiplier_cases (a : string) :
  In (dict_get activity_multipliers a 1.2) [1.2; 1.375; 1.55; 1.725; 1.9].
Proof.
  unfold dict_get, activity_multipliers.
  destruct (String.eqb a "sedentary"); [cbn; tauto|].
  destruct (String.eqb a "lightly_active"); [cbn; tauto|].
  destruct (String.eqb a "moderately_active"); [cbn; tauto|].
  destruct (String.eqb a "very_active"); [cbn; tauto|].
  destruct (String.eqb a "extra_active"); cbn; tauto.
Qed.

Lemma tdee_ge_500 (bmr : float) (a : string) : (500 <=? bmr)%float = true ->
  (500 <=? bmr * dict_get activity_multipliers a 1.2)%float = true.
Proof.
  intros H. assert (N500 : nn 500) by exact I.
  pose proof (leb_nn _ _ N500 H) as Nb.
  assert (Step : forall c m e, Prim2SF c = S754_finite false m e ->
             (500 <=? 500 * c)%float = true -> (500 <=? bmr * c)%float = true).
  { intros c m e E L. destruct (mul_mono_l 500 bmr c m e E N500 H) as [N1 [N2 L2]].
    apply (leb_trans _ (500 * c)%float); try apply nn_nonnan; auto. }
  destruct (activity_multiplier_cases a) as [<-|[<-|[<-|[<-|[<-|[]]]]]];
    (eapply Step; [reflexivity|vm_compute; reflexivity]).
Qed.

Lemma goal_adjust_mono (T1 T2 : float) (goal : string) :
  (500 <=? T1)%float = true -> (T1 <=? T2)%float = true ->
  ((if String.eqb goal "lose_weight" then round_nd (T1 - 500) 2
    else if String.eqb goal "gain_muscle" then round_nd (T1 + 300) 2
    else round_nd T1 2) <=?
   (if String.eqb goal "lose_weight" then round_nd (T2 - 500) 2
    else if String.eqb goal "gain_muscle" then round_nd (T2 + 300) 2
    else round_nd T2 2))%float = true.
Proof.
  intros H5 H12. assert (N500 : nn 500) by exact I.
  pose proof (leb_nn _ _ N500 H5) as N1. pose proof (leb_nn _ _ N1 H12) as N2.
  destruct (String.eqb goal "lose_weight").
  - destruct (sub_const T1 T2 500 _ _ eq_refl H5 H12) as [A [B [C _]]].
    apply round_nd_mono; auto; lia.
  - destruct (String.eqb goal "gain_muscle").
    + destruct (add_const T1 T2 300 _ _ eq_refl N1 H12) as [A [B [C _]]].
      apply round_nd_mono; auto; lia.
    + apply round_nd_mono; auto; lia.
Qed.

(** X5.  When bmr >= 500, [calculate_daily_calories] orders the goals and
    the activity levels: for every activity level, lose_weight gives at most
    maintain, which gives at most gain_muscle; for every goal, the result
    never decreases along the activity levels of [activity_multipliers]
    (sedentary, lightly_active, moderately_active, very_active,
    extra_active). *)
Theorem calculate_daily_calories_monotone (bmr : float) :
  (500 <=? bmr)%float = true ->
  (forall activity,
     (calculate_daily_calories bmr activity "lose_weight" <=?
      calculate_daily_calories bmr activity "maintain")%float = true /\
     (calculate_daily_calories bmr activity "maintain" <=?
      calculate_daily_calories bmr activity "gain_muscle")%float = true) /\
  (forall goal (i j : nat), (i <= j < List.length activity_multipliers)%nat ->
     (calculate_daily_calories bmr (fst (nth i activity_multipliers ("", 0))) goal <=?
      calculate_daily_calories bmr (fst (nth j activity_multipliers ("", 0))) goal)%float = true).
Proof.
  intros H. split.
  - intros a. pose proof (tdee_ge_500 bmr a H) as T5.
    unfold calculate_daily_calories. cbn zeta.
    set (T := (bmr * dict_get activity_multipliers a 1.2)%float) in *.
    assert (NT : nn T) by exact (leb_nn 500 T I T5).
    cbn [String.eqb Ascii.eqb Bool.eqb].
    split.
    + destruct (sub_const T T 500 _ _ eq_refl T5 (leb_refl_nn T NT)) as [A [_ [_ L]]].
      apply round_nd_mono; auto; lia.
    + destruct (add_const T T 300 _ _ eq_refl NT (leb_refl_nn T NT)) as [_ [B [_ L]]].
      apply round_nd_mono; auto; lia.
  - intros g i j Hij. pose proof (leb_nn 500 bmr I H) as Nb.
    pose proof (nn_leb0 _ Nb) as B0.
    assert (Hm : forall a1 a2,
               (bmr * dict_get activity_multipliers a1 1.2 <=?
                bmr * dict_get activity_multipliers a2 1.2)%float = true ->
               (calculate_daily_calories bmr a1 g <=? calculate_daily_calories bmr a2 g)%float = true).
    { intros a1 a2 L. unfold calculate_daily_calories. cbn zeta.
      apply goal_adjust_mono; [apply tdee_ge_500; exact H|exact L]. }
    cbn [List.length activity_multipliers] in Hij.
    destruct i as [|[|[|[|[|i]]]]]; destruct j as [|[|[|[|[|j]]]]]; try lia; apply Hm;
      cbv [fst nth activity_multipliers dict_get String.eqb Ascii.eqb Bool.eqb];
      (eapply mul_const_le; [reflexivity|reflexivity|vm_compute; reflexivity|exact B0]).
Qed.

Lemma calculate_daily_calories_monotone_witness :
  (calculate_daily_calories 1700 "very_active" "lose_weight" <=?
   calculate_daily_calories 1700 "very_active" "maintain")%float = true.
Proof.
  apply (proj1 (calculate_daily_calories_monotone 1700 ltac:(vm_compute; reflexivity)) "very_active").
Defined.

(** ** Macros *)

Lemma gram_mono (D1 D2 pc w : float) mp ep mw ew :
  Prim2SF pc = S754_finite false mp ep -> Prim2SF w = S754_finite false mw ew ->
  nn D1 -> (D1 <=? D2)%float = true ->
  (0 <=? round_nd ((D1 * pc) / w) 2)%float = true /\
  (round_nd ((D1 * pc) / w) 2 <=? round_nd ((D2 * pc) / w) 2)%float = true.
Proof.
  intros Ep Ew N1 L.
  destruct (mul_mono_l D1 D2 pc mp ep Ep N1 L) as [A1 [_ A12]].
  destruct (div_mono_l _ _ w mw ew Ew A1 A12) as [B1 [B2 B12]].
  split; [apply nn_leb0, round_nd_nonneg; [lia|exact B1]|apply round_nd_mono; auto; lia].
Qed.

(** X6.  For every goal and daily calories 0 <= D1 <= D2, the protein,
    carbs and fats grams of [calculate_macros] are non-negative and each
    of them is monotone in the daily calories. *)
Theorem calculate_macros_monotone (D1 D2 : float) (goal : string) :
  (0 <=? D1)%float = true -> (D1 <=? D2)%float = true ->
  (0 <=? (calculate_macros D1 goal).(protein))%float = true /\
  (0 <=? (calculate_macros D1 goal).(carbs))%float = true /\
  (0 <=? (calculate_macros D1 goal).(fats))%float = true /\
  ((calculate_macros D1 goal).(protein) <=? (calculate_macros D2 goal).(protein))%float = true /\
  ((calculate_macros D1 goal).(carbs) <=? (calculate_macros D2 goal).(carbs))%float = true /\
  ((calculate_macros D1 goal).(fats) <=? (calculate_macros D2 goal).(fats))%float = true.
Proof.
  intros H0 L. pose proof (nn_of_leb0 _ H0) as N1.
  unfold calculate_macros, macro_percents.
  destruct (String.eqb goal "lose_weight"); [|destruct (String.eqb goal "gain_muscle")];
    cbn [protein carbs fats].
  - destruct (gram_mono D1 D2 0.35 4 _ _ _ _ eq_refl eq_refl N1 L) as [A0 A12].
    destruct (gram_mono D1 D2 0.30 9 _ _ _ _ eq_refl eq_refl N1 L) as [C0 C12].
    tauto.
  - destruct (gram_mono D1 D2 0.30 4 _ _ _ _ eq_refl eq_refl N1 L) as [A0 A12].
    destruct (gram_mono D1 D2 0.45 4 _ _ _ _ eq_refl eq_refl N1 L) as [B0 B12].
    destruct (gram_mono D1 D2 0.25 9 _ _ _ _ eq_refl eq_refl N1 L) as [C0 C12].
    tauto.
  - destruct (gram_mono D1 D2 0.25 4 _ _ _ _ eq_refl eq_refl N1 L) as [A0 A12].
    destruct (gram_mono D1 D2 0.50 4 _ _ _ _ eq_refl eq_refl N1 L) as [B0 B12].
    destruct (gram_mono D1 D2 0.25 9 _ _ _ _ eq_refl eq_refl N1 L) as [C0 C12].
    tauto.
Qed.

Lemma calculate_macros_monotone_witness :
  ((calculate_macros 2000 "gain_muscle").(protein) <=? (calculate_macros 2500 "gain_muscle").(protein))%float = true.
Proof.
  apply (calculate_macros_monotone 2000 2500 "gain_muscle"); vm_compute; reflexivity.
Defined.

(** ** Meal suggestions *)

(** X7.  For finite non-negative daily calories D, [generate_meal_suggestions]
    does not raise and returns the four meals Breakfast, Lunch, Dinner and
    Snacks, whose calories satisfy 0 <= snacks <= breakfast <= dinner <= lunch. *)
Theorem generate_meal_suggestions_calories (D : float) (macros : Macros) (pref : option string) :
  (0 <=? D)%float = true -> is_finite_b D = true ->
  exists meals b l d s,
    generate_meal_suggestions D macros pref = Ok meals /\
    map meal meals = ["Breakfast"; "Lunch"; "Dinner"; "Snacks"] /\
    map calories meals = [b; l; d; s] /\ (0 <= s <= b /\ b <= d <= l)%Z.
Proof.
  intros H0 F. pose proof (nn_of_leb0 _ H0) as N.
  assert (Fin : forall c m e, Prim2SF c = S754_finite false m e -> (c <=? 1)%float = true ->
                  is_finite_b (D * c)%float = true)
    by (intros c m e E L; exact (proj1 (proj2 (mul_le_self D c m e E (fval_le_one c m e E L) N F)))).
  destruct (mul_const_le D 0.10 0.25 _ _ _ _ eq_refl eq_refl eq_refl H0) as [Ns [_ Lsb]].
  destruct (mul_const_le D 0.25 0.30 _ _ _ _ eq_refl eq_refl eq_refl H0) as [Nb [_ Lbd]].
  destruct (mul_const_le D 0.30 0.35 _ _ _ _ eq_refl eq_refl eq_refl H0) as [Nd [_ Ldl]].
  destruct (round_int_mono _ _ Ns (Fin 0.25 _ _ eq_refl eq_refl) Lsb) as [s [b [Rs [Rb Hsb]]]].
  destruct (round_int_mono _ _ Nb (Fin 0.30 _ _ eq_refl eq_refl) Lbd) as [b' [d [Rb' [Rd Hbd]]]].
  destruct (round_int_mono _ _ Nd (Fin 0.35 _ _ eq_refl eq_refl) Ldl) as [d' [l [Rd' [Rl Hdl]]]].
  rewrite Rb in Rb'. injection Rb' as <-. rewrite Rd in Rd'. injection Rd' as <-.
  unfold generate_meal_suggestions. rewrite Rb, Rl, Rd, Rs. cbn [bind].
  destruct (meal_catalog pref) as [[[cb cl] cd] cs].
  eexists; exists b, l, d, s. split; [reflexivity|]. split; [reflexivity|]. split; [reflexivity|]. lia.
Qed.

Lemma generate_meal_suggestions_calories_witness :
  exists meals b l d s,
    generate_meal_suggestions 2000 {| protein := 0; carbs := 0; fats := 0 |} None = Ok meals /\
    map meal meals = ["Breakfast"; "Lunch"; "Dinner"; "Snacks"] /\
    map calories meals = [b; l; d; s] /\ (0 <= s <= b /\ b <= d <= l)%Z.
Proof.
  apply (generate_meal_suggestions_calories 2000); vm_compute; reflexivity.
Defined.



(** ** Ideal weight *)

(** X9.  For a [pow] that is monotone on non-negative floats and heights
    0 <= h1 <= h2, whatever the genders: when both calls of
    [calculate_ideal_weight] return, min_kg is non-negative, and min_kg and
    max_kg for h1 are at most those for h2. *)
Theorem calculate_ideal_weight_height_monotone (pow2 : float -> float) (float_str : float -> string)
    (h1 h2 : float) (g1 g2 : string) (i1 i2 : IdealWeight) :
  (forall x y, (0 <=? x)%float = true -> (x <=? y)%float = true ->
     (0 <=? pow2 x)%float = true /\ (pow2 x <=? pow2 y)%float = true) ->
  (0 <=? h1)%float = true -> (h1 <=? h2)%float = true ->
  calculate_ideal_weight pow2 float_str h1 g1 = Ok i1 ->
  calculate_ideal_weight pow2 float_str h2 g2 = Ok i2 ->
  (0 <=? i1.(min_kg))%float = true /\ (i1.(min_kg) <=? i2.(min_kg))%float = true /\
  (i1.(max_kg) <=? i2.(max_kg))%float = true.
Proof.
  intros Mono Hh1 H12 R1 R2.
  assert (E100 : Prim2SF 100 = S754_finite false 7036874417766400 (-46)) by reflexivity.
  destruct (div_mono_l h1 h2 100 _ _ E100 (nn_of_leb0 _ Hh1) H12) as [Q1 [_ Q12]].
  destruct (Mono _ _ (nn_leb0 _ Q1) Q12) as [S0 S12].
  pose proof (nn_of_leb0 _ S0) as S1.
  unfold calculate_ideal_weight, fpow2, bind in R1, R2.
  destruct (is_finite_b (h1 / 100) && PrimFloat.is_infinity (pow2 (h1 / 100))); [discriminate R1|].
  destruct (is_finite_b (h2 / 100) && PrimFloat.is_infinity (pow2 (h2 / 100))); [discriminate R2|].
  injection R1 as <-. injection R2 as <-. cbn [min_kg max_kg].
  rewrite !(prim_mul_comm 18.5), !(prim_mul_comm 24.9).
  destruct (mul_mono_l _ _ 18.5 _ _ eq_refl S1 S12) as [A1 [A2 A12]].
  destruct (mul_mono_l _ _ 24.9 _ _ eq_refl S1 S12) as [B1 [B2 B12]].
  split; [apply nn_leb0, round_nd_nonneg; [lia|exact A1]|].
  split; apply round_nd_mono; auto; lia.
Qed.

Lemma calculate_ideal_weight_height_monotone_witness :
  calculate_ideal_weight libm_pow2 (fun _ => EmptyString) 150 "male" =
    Ok {| min_kg := 41.6; max_kg := 56; range := "- kg" |} /\
  calculate_ideal_weight libm_pow2 (fun _ => EmptyString) 200 "female" =
    Ok {| min_kg := 74; max_kg := 99.6; range := "- kg" |} /\
  (0 <=? 41.6)%float = true /\ (41.6 <=? 74)%float = true /\ (56 <=? 99.6)%float = true.
Proof.
  assert (E1 : calculate_ideal_weight libm_pow2 (fun _ => EmptyString) 150 "male" =
                 Ok {| min_kg := 41.6; max_kg := 56; range := "- kg" |}) by (vm_compute; reflexivity).
  assert (E2 : calculate_ideal_weight libm_pow2 (fun _ => EmptyString) 200 "female" =
                 Ok {| min_kg := 74; max_kg := 99.6; range := "- kg" |}) by (vm_compute; reflexivity).
  split; [exact E1|]. split; [exact E2|].
  exact (calculate_ideal_weight_height_monotone libm_pow2 (fun _ => EmptyString) 150 200 "male" "female"
           _ _ libm_pow2_mono eq_refl eq_refl E1 E2).
Defined.

(** ** Workout plan *)

(** X10.  [generate_workout_plan] always lists the seven days Monday to
    Sunday.  The plan depends only on the goal and, for the goal
    lose_weight, on whether the activity level is sedentary or
    lightly_active; it never depends on the bmi category.  Two lose_weight
    plans agree in every day, type, activity and intensity; they differ at
    most in the Monday and Wednesday cardio, which last "30 min" for a
    sedentary or lightly_active user and "45 min" for every other activity
    level. *)
Theorem generate_workout_plan_shape (u : UserHealthInfo) (cat : string) :
  map day (generate_workout_plan u cat) =
    ["Monday"; "Tuesday"; "Wednesday"; "Thursday"; "Friday"; "Saturday"; "Sunday"] /\
  (forall u' cat', u'.(goal) = u.(goal) ->
     (u.(goal) = "lose_weight" ->
      (String.eqb u'.(activity_level) "sedentary" || String.eqb u'.(activity_level) "lightly_active") =
      (String.eqb u.(activity_level) "sedentary" || String.eqb u.(activity_level) "lightly_active")) ->
     generate_workout_plan u' cat' = generate_workout_plan u cat) /\
  (u.(goal) = "lose_weight" ->
   (forall u' cat', u'.(goal) = "lose_weight" ->
      map (fun w => (w.(day), w.(type_), w.(activity), w.(intensity))) (generate_workout_plan u' cat') =
      map (fun w => (w.(day), w.(type_), w.(activity), w.(intensity))) (generate_workout_plan u cat)) /\
   let d := if String.eqb u.(activity_level) "sedentary"
               || String.eqb u.(activity_level) "lightly_active" then "30 min" else "45 min" in
   map duration (generate_workout_plan u cat) =
     [d; "30 min"; d; "30 min"; "20-25 min"; "30 min"; "Optional"]).
Proof.
  unfold generate_workout_plan. cbn zeta. split; [|split].
  - destruct (String.eqb (goal u) "lose_weight"), (String.eqb (goal u) "gain_muscle"); reflexivity.
  - intros u' cat' Hg Hl. rewrite Hg.
    destruct (String.eqb (goal u) "lose_weight") eqn:E; [|reflexivity].
    apply String.eqb_eq in E. rewrite (Hl E). reflexivity.
  - intros Hl. rewrite Hl. cbn [String.eqb Ascii.eqb Bool.eqb]. split.
    + intros u' cat' Hl'. rewrite Hl'. cbn [String.eqb Ascii.eqb Bool.eqb].
      destruct (String.eqb (activity_level u') "sedentary" || String.eqb (activity_level u') "lightly_active"),
        (String.eqb (activity_level u) "sedentary" || String.eqb (activity_level u) "lightly_active");
        reflexivity.
    + destruct (String.eqb (activity_level u) "sedentary" || String.eqb (activity_level u) "lightly_active");
        reflexivity.
Qed.

Lemma generate_workout_plan_shape_witness :
  generate_workout_plan
    {| name := "A"; age := 40; gender := "female"; height := 165; weight := 60;
       activity_level := "very_active"; goal := "lose_weight";
       dietary_preference := None; medical_conditions := None |} "Obese" =
  generate_workout_plan
    {| name := "A"; age := 40; gender := "female"; height := 165; weight := 60;
       activity_level := "extra_active"; goal := "lose_weight";
       dietary_preference := None; medical_conditions := None |} "Normal weight".
Proof.
  apply (proj1 (proj2 (generate_workout_plan_shape
    {| name := "A"; age := 40; gender := "female"; height := 165; weight := 60;
       activity_level := "extra_active"; goal := "lose_weight";
       dietary_preference := None; medical_conditions := None |} "Normal weight"))).
  - reflexivity.
  - intros _. reflexivity.
Defined.

(** ** The assess handler *)

(** The profile [u] with its goal replaced by [g]. *)
Definition with_goal (u : UserHealthInfo) (g : string) : UserHealthInfo :=
  {| name := u.(name); age := u.(age); gender := u.(gender); height := u.(height);
     weight := u.(weight); activity_level := u.(activity_level); goal := g;
     dietary_preference := u.(dietary_preference); medical_conditions := u.(medical_conditions) |}.

(** The profile [u] with its gender replaced by [g]. *)
Definition with_gender (u : UserHealthInfo) (g : string) : UserHealthInfo :=
  {| name := u.(name); age := u.(age); gender := g; height := u.(height);
     weight := u.(weight); activity_level := u.(activity_level); goal := u.(goal);
     dietary_preference := u.(dietary_preference); medical_conditions := u.(medical_conditions) |}.

(** The assessment [a] with its recommendations replaced by [r]. *)
Definition with_recommendations (a : HealthAssessment) (r : list string) : HealthAssessment :=
  {| bmi := a.(bmi); bmi_category := a.(bmi_category); bmr := a.(bmr);
     daily_calories := a.(daily_calories); protein_grams := a.(protein_grams);
     carbs_grams := a.(carbs_grams); fats_grams := a.(fats_grams);
     water_liters := a.(water_liters); ideal_weight_range := a.(ideal_weight_range);
     health_risks := a.(health_risks); recommendations := r |}.

(** X11.  A profile with goal "maintain" and the same profile with goal
    "improve_fitness" raise the same error or both get a plan; the two plans
    differ only in the recommendations (and the echoed profile), and the
    improve_fitness recommendations always keep "Set specific, measurable
    fitness goals", which is never among the maintain ones. *)
Theorem assess_health_maintain_improve_fitness (pow2 : float -> float) (float_str : float -> string)
    (u : UserHealthInfo) :
  u.(goal) = "maintain" ->
  match assess_health pow2 float_str u,
        assess_health pow2 float_str (with_goal u "improve_fitness") with
  | Ok p, Ok q =>
      p.(assessment) = with_recommendations q.(assessment) p.(assessment).(recommendations) /\
      p.(workout_plan) = q.(workout_plan) /\ p.(meal_suggestions) = q.(meal_suggestions) /\
      p.(lifestyle_tips) = q.(lifestyle_tips) /\ p.(weekly_goals) = q.(weekly_goals) /\
      In "Set specific, measurable fitness goals" q.(assessment).(recommendations) /\
      ~ In "Set specific, measurable fitness goals" p.(assessment).(recommendations)
  | Raise e1, Raise e2 => e1 = e2
  | _, _ => False
  end.
Proof.
  intros Hg.
  assert (Rq : forall b, In "Set specific, measurable fitness goals"
                 (generate_recommendations (with_goal u "improve_fitness") b
                    (get_bmi_category b))).
  { intros b. unfold generate_recommendations. cbn [goal with_goal String.eqb Ascii.eqb Bool.eqb].
    destruct (b <? 18.5)%float; [|destruct (25 <=? b)%float];
      destruct (String.eqb (activity_level (with_goal u "improve_fitness")) "sedentary"),
        (50 <? age (with_goal u "improve_fitness"))%Z; cbn; tauto. }
  assert (Rp : forall b, ~ In "Set specific, measurable fitness goals"
                 (generate_recommendations u b (get_bmi_category b))).
  { intros b. unfold generate_recommendations. rewrite Hg. cbn [String.eqb Ascii.eqb Bool.eqb].
    destruct (b <? 18.5)%float; [|destruct (25 <=? b)%float];
      destruct (String.eqb (activity_level u) "sedentary"), (50 <? age u)%Z; cbn;
      intros H; repeat destruct H as [H|H]; try discriminate H; exact H. }
  unfold assess_health. cbn [with_goal weight height age gender activity_level goal
                              dietary_preference medical_conditions].
  rewrite Hg.
  destruct (calculate_bmi pow2 (weight u) (height u)) as [b|e]; cbn [bind]; [|reflexivity].
  destruct (calculate_ideal_weight pow2 float_str (height u) (gender u)) as [iw|e]; cbn [bind];
    [|reflexivity].
  change (calculate_daily_calories (calculate_bmr (weight u) (height u) (age u) (gender u))
            (activity_level u) "improve_fitness")
    with (calculate_daily_calories (calculate_bmr (weight u) (height u) (age u) (gender u))
            (activity_level u) "maintain").
  change (calculate_macros ?d "improve_fitness") with (calculate_macros d "maintain").
  destruct (generate_meal_suggestions _ _ _) as [ms|e]; cbn [bind]; [|reflexivity].
  cbn [assessment workout_plan meal_suggestions lifestyle_tips weekly_goals recommendations
       with_recommendations].
  split; [reflexivity|]. split.
  { unfold generate_workout_plan. cbn [with_goal goal activity_level]. rewrite Hg. reflexivity. }
  split; [reflexivity|]. split; [reflexivity|]. split.
  { unfold generate_weekly_goals. cbn [with_goal goal]. rewrite Hg. reflexivity. }
  split; [apply Rq|apply Rp].
Qed.

Lemma assess_health_maintain_improve_fitness_witness :
  match assess_health libm_pow2 (fun _ => EmptyString)
          {| name := "B"; age := 35; gender := "male"; height := 200; weight := 90;
             activity_level := "sedentary"; goal := "maintain";
             dietary_preference := None; medical_conditions := None |},
        assess_health libm_pow2 (fun _ => EmptyString)
          (with_goal {| name := "B"; age := 35; gender := "male"; height := 200; weight := 90;
                        activity_level := "sedentary"; goal := "maintain";
                        dietary_preference := None; medical_conditions := None |} "improve_fitness") with
  | Ok p, Ok q =>
      p.(assessment) = with_recommendations q.(assessment) p.(assessment).(recommendations) /\
      p.(workout_plan) = q.(workout_plan) /\ p.(meal_suggestions) = q.(meal_suggestions) /\
      p.(lifestyle_tips) = q.(lifestyle_tips) /\ p.(weekly_goals) = q.(weekly_goals) /\
      In "Set specific, measurable fitness goals" q.(assessment).(recommendations) /\
      ~ In "Set specific, measurable fitness goals" p.(assessment).(recommendations)
  | Raise e1, Raise e2 => e1 = e2
  | _, _ => False
  end.
Proof.
  apply (assess_health_maintain_improve_fitness libm_pow2 (fun _ => EmptyString)). reflexivity.
Defined.

(** X12.  Gender enters [assess_health] only through the test
    gender.lower() == "male": two profiles that differ only in the gender
    and agree on that test raise the same error or get the same plan, apart
    from the echoed profile. *)
Theorem assess_health_gender (pow2 : float -> float) (float_str : float -> string)
    (u : UserHealthInfo) (g : string) :
  String.eqb (lower g) "male" = String.eqb (lower u.(gender)) "male" ->
  assess_health pow2 float_str (with_gender u g) =
  match assess_health pow2 float_str u with
  | Ok p => Ok {| user_info := with_gender u g; assessment := p.(assessment);
                  workout_plan := p.(workout_plan); meal_suggestions := p.(meal_suggestions);
                  lifestyle_tips := p.(lifestyle_tips); weekly_goals := p.(weekly_goals) |}
  | Raise e => Raise e
  end.
Proof.
  intros Hm.
  assert (B : forall w h a, calculate_bmr w h a g = calculate_bmr w h a (gender u))
    by (intros w h a; unfold calculate_bmr; rewrite Hm; reflexivity).
  unfold assess_health. cbn [with_gender weight height age gender activity_level goal
                              dietary_preference medical_conditions].
  rewrite B.
  destruct (calculate_bmi pow2 (weight u) (height u)) as [b|e]; cbn [bind]; [|reflexivity].
  change (calculate_ideal_weight pow2 float_str (height u) g)
    with (calculate_ideal_weight pow2 float_str (height u) (gender u)).
  destruct (calculate_ideal_weight pow2 float_str (height u) (gender u)) as [iw|e]; cbn [bind];
    [|reflexivity].
  destruct (generate_meal_suggestions _ _ _) as [ms|e]; cbn [bind]; [|reflexivity].
  reflexivity.
Qed.

Lemma assess_health_gender_witness :
  assess_health libm_pow2 (fun _ => EmptyString)
    (with_gender {| name := "C"; age := 28; gender := "female"; height := 150; weight := 50;
                    activity_level := "lightly_active"; goal := "lose_weight";
                    dietary_preference := Some "vegan"; medical_conditions := None |} "other") =
  match assess_health libm_pow2 (fun _ => EmptyString)
          {| name := "C"; age := 28; gender := "female"; height := 150; weight := 50;
             activity_level := "lightly_active"; goal := "lose_weight";
             dietary_preference := Some "vegan"; medical_conditions := None |} with
  | Ok p => Ok {| user_info := with_gender
                    {| name := "C"; age := 28; gender := "female"; height := 150; weight := 50;
                       activity_level := "lightly_active"; goal := "lose_weight";
                       dietary_preference := Some "vegan"; medical_conditions := None |} "other";
                  assessment := p.(assessment);
                  workout_plan := p.(workout_plan); meal_suggestions := p.(meal_suggestions);
                  lifestyle_tips := p.(lifestyle_tips); weekly_goals := p.(weekly_goals) |}
  | Raise e => Raise e
  end.
Proof. apply assess_health_gender. reflexivity. Defined.

(** ** Recommendations *)

(** X13.  When every conditional block of [generate_recommendations] fires
    (bmi < 18.5 or bmi >= 25, a goal among lose_weight, gain_muscle and
    improve_fitness, a sedentary user older than 50), the list has 12
    entries and the cut to 12 drops all four strings of the general block
    and the last age recommendation. *)
Theorem generate_recommendations_all_blocks (u : UserHealthInfo) (b : float) (cat : string) :
  ((b <? 18.5) || (25 <=? b))%float = true ->
  In u.(goal) ["lose_weight"; "gain_muscle"; "improve_fitness"] ->
  u.(activity_level) = "sedentary" -> (50 < u.(age))%Z ->
  List.length (generate_recommendations u b cat) = 12%nat /\
  Forall (fun r => ~ In r (generate_recommendations u b cat))
    ["Regular health check-ups and blood work annually";
     "Manage stress through meditation or yoga";
     "Limit alcohol consumption and avoid smoking";
     "Build a support system for accountability";
     "Consider vitamin D and calcium supplementation (consult doctor)"].
Proof.
  intros Hb Hg Ha Hage.
  unfold generate_recommendations. rewrite Ha.
  rewrite (proj2 (Z.ltb_lt 50 (age u)) Hage).
  cbn [String.eqb Ascii.eqb Bool.eqb].
  destruct Hg as [<-|[<-|[<-|[]]]]; cbn [String.eqb Ascii.eqb Bool.eqb];
    (destruct (b <? 18.5)%float; [|rewrite orb_false_l in Hb; rewrite Hb]);
    cbn; (split; [reflexivity|]);
    repeat constructor; intros H; repeat destruct H as [H|H]; try discriminate H; exact H.
Qed.

Lemma generate_recommendations_all_blocks_witness :
  List.length (generate_recommendations
    {| name := "D"; age := 60; gender := "male"; height := 170; weight := 95;
       activity_level := "sedentary"; goal := "lose_weight";
       dietary_preference := None; medical_conditions := None |} 32.87 "Obese") = 12%nat.
Proof.
  apply (generate_recommendations_all_blocks
    {| name := "D"; age := 60; gender := "male"; height := 170; weight := 95;
       activity_level := "sedentary"; goal := "lose_weight";
       dietary_preference := None; medical_conditions := None |} 32.87 "Obese").
  - reflexivity.
  - cbn. tauto.
  - reflexivity.
  - cbn. lia.
Defined.

(** X15.  [calculate_daily_calories] never clamps its result: for the goal
    lose_weight, a non-negative bmr whose tdee (bmr times the activity
    multiplier) is below 500 gives daily calories of at most 0. *)
Theorem calculate_daily_calories_lose_weight_nonpos (bmr : float) (activity : string) :
  (0 <=? bmr)%float = true ->
  (bmr * dict_get activity_multipliers activity 1.2 <? 500)%float = true ->
  (calculate_daily_calories bmr activity "lose_weight" <=? 0)%float = true.
Proof.
  intros H0 L. unfold calculate_daily_calories. cbn zeta. cbn [String.eqb Ascii.eqb Bool.eqb].
  apply nonpos_leb0, round_nd_nonpos; [lia|].
  apply (sub_below _ 500 _ _ eq_refl); [|exact L].
  destruct (activity_multiplier_cases activity) as [<-|[<-|[<-|[<-|[<-|[]]]]]];
    rewrite (prim_mul_comm bmr);
    match goal with
    | |- nn (?c * bmr)%float =>
        exact (proj1 (mul_nonneg_mono c c bmr _ _ _ _ eq_refl eq_refl (Rle_refl _) H0))
    end.
Qed.

Lemma calculate_daily_calories_lose_weight_nonpos_witness :
  (calculate_daily_calories (calculate_bmr 20 80 60 "female") "sedentary" "lose_weight" <=? 0)%float
    = true.
Proof.
  apply calculate_daily_calories_lose_weight_nonpos; vm_compute; reflexivity.
Defined.

End Extras.

Section RealExtras.

Local Open Scope R_scope.

Lemma Rabs_le_pair (x a : R) : Rabs x <= a -> - a <= x <= a.
Proof. unfold Rabs. destruct (Rcase_abs x); intros; lra. Qed.

(** X14.  For every finite daily calories D, the calories of the four meals
    of [generate_meal_suggestions] add up to D within
    2 + 4 * |D| * 2^-52: the four shares 25%, 35%, 30% and 10% cover the
    whole day, and each meal is off by at most a rounding to an integer and
    the binary64 product. *)
Theorem generate_meal_suggestions_total (D : float) (macros : Macros) (pref : option string) :
  is_finite_b D = true ->
  exists meals, generate_meal_suggestions D macros pref = Ok meals /\
    Rabs (IZR (fold_right Z.add 0%Z (map calories meals)) - sfval (Prim2SF D))
      <= 2 + 4 * Rabs (sfval (Prim2SF D)) * bpow (-52).
Proof.
  intros HF. destruct (mag_of_finite D HF) as [s [X HD]].
  pose proof (mag_sfval _ _ _ HD) as VD. pose proof (mag_nonneg _ _ _ HD) as X0.
  pose proof (mag_lt_bpow1024 _ _ _ HD) as XB. pose proof half_bpow1024_big as [HB1 HB2].
  pose proof u64_pos. pose proof tiny64_pos. pose proof tiny64_small.
  destruct (mul_mag D 0.25 s X 4503599627370496 (-54) HD eq_refl) as [Y1 [M1 B1]];
    [fval_num; lra|].
  destruct (mul_mag D 0.35 s X 6305039478318694 (-54) HD eq_refl) as [Y2 [M2 B2]];
    [fval_num; lra|].
  destruct (mul_mag D 0.30 s X 5404319552844595 (-54) HD eq_refl) as [Y3 [M3 B3]];
    [fval_num; lra|].
  destruct (mul_mag D 0.10 s X 7205759403792794 (-56) HD eq_refl) as [Y4 [M4 B4]];
    [fval_num; lra|].
  destruct (round_int_mag _ _ _ M1) as [k1 [E1 R1]].
  destruct (round_int_mag _ _ _ M2) as [k2 [E2 R2]].
  destruct (round_int_mag _ _ _ M3) as [k3 [E3 R3]].
  destruct (round_int_mag _ _ _ M4) as [k4 [E4 R4]].
  unfold generate_meal_suggestions. rewrite E1, E2, E3, E4. cbn [bind].
  destruct (meal_catalog pref) as [[[b l] d] sn].
  eexists. split; [reflexivity|].
  cbn [map calories fold_right]. rewrite Z.add_0_r, !plus_IZR.
  rewrite VD.
  assert (RX : Rabs (if s then - X else X) = X)
    by (destruct s; [rewrite Rabs_Ropp|]; apply Rabs_pos_eq; lra).
  rewrite RX.
  fval_num.
  assert (Hb : forall (k : Z) (pi c Y : R),
    0 <= pi <= 35 / 100 -> X * pi - X * pi * u64 <= X * c <= X * pi + X * pi * u64 ->
    X * c - (X * c * u64 + tiny64) <= Y <= X * c + (X * c * u64 + tiny64) ->
    rne_rel (if s then - Y else Y) k ->
    - (/ 2 + X * bpow (-52)) <= IZR k - (if s then - X else X) * pi <= / 2 + X * bpow (-52)).
  { intros k pi c Y Hpi Hc HY Hk. apply Rabs_le_pair.
    replace ((if s then - X else X) * pi) with (if s then - (X * pi) else X * pi)
      by (destruct s; ring).
    apply (share_bound s X (X * pi) (X * c) Y k); auto; nra. }
  unfold u64 in *.
  assert (S1 : - (/ 2 + X * bpow (-52)) <= IZR k1 - (if s then - X else X) * (25 / 100)
                  <= / 2 + X * bpow (-52))
    by (eapply Hb; [lra| |exact B1|exact R1]; lra).
  assert (S2 : - (/ 2 + X * bpow (-52)) <= IZR k2 - (if s then - X else X) * (35 / 100)
                  <= / 2 + X * bpow (-52))
    by (eapply Hb; [lra| |exact B2|exact R2]; lra).
  assert (S3 : - (/ 2 + X * bpow (-52)) <= IZR k3 - (if s then - X else X) * (30 / 100)
                  <= / 2 + X * bpow (-52))
    by (eapply Hb; [lra| |exact B3|exact R3]; lra).
  assert (S4 : - (/ 2 + X * bpow (-52)) <= IZR k4 - (if s then - X else X) * (10 / 100)
                  <= / 2 + X * bpow (-52))
    by (eapply Hb; [lra| |exact B4|exact R4]; lra).
  apply Rabs_le. destruct s; lra.
Qed.

Lemma generate_meal_suggestions_total_witness :
  exists meals,
    generate_meal_suggestions 1290 {| protein := 0; carbs := 0; fats := 0 |} None = Ok meals /\
    Rabs (IZR (fold_right Z.add 0%Z (map calories meals)) - sfval (Prim2SF 1290))
      <= 2 + 4 * Rabs (sfval (Prim2SF 1290)) * bpow (-52).
Proof.
  exact (generate_meal_suggestions_total 1290 {| protein := 0; carbs := 0; fats := 0 |} None eq_refl).
Defined.

End RealExtras.
